(** * WinDVCaptureBridge: the capture session controller

    A shallow embedding of [dv2plex/bin/windv/WinDVCaptureBridge.cpp]
    (class [WinDVCaptureEngine] and the exported [WindvBridge_*] entry
    points) together with the properties of the session life cycle, the
    consumer loop, option normalisation and directory preparation.

    Conventions of the embedding.
    - A member function is a computation over a [World]: the engine object,
      the host file system and the Win32 last-error value.
    - The host file system holds its entries under canonical names.  Which
      entry a path designates (separators, letter case, dots, the current
      directory, names the host does not accept) and whether the host
      declines to create a directory (a missing parent, no permission, a
      full disk) is for the host to say: both are part of [Env].
    - A computation ends in one of three ways: it returns, a C++ exception
      propagates out of it, or the running thread calls [lock] on
      [m_mutex] while it already owns it.  [m_mutex] is a [std::mutex]; a
      second [lock] by its owner has undefined behaviour, so the embedding
      stops there and keeps the world of that moment.
    - The collaborators that are not part of this translation unit
      (capture source, queue, preview renderer, AVI writer, MFC threads,
      COM, code-page conversion) are described by an [Env] record: which
      constructor throws, what the device reports, and so on.
    - The consumer thread runs concurrently with its owner.  Its loop is a
      function of the sequence of values it observes (state flag, dequeued
      entry, queue load) and yields the sequence of sink invocations. *)

From Stdlib Require Import ZArith String Ascii List Lia Bool.
From stdpp Require Import base option list gmap strings.
Import ListNotations.

Local Open Scope Z_scope.
Local Open Scope string_scope.

(** ** Strings *)

(** [std::wstring] and [const wchar_t*] contents.  The functions of this
    file only compare characters with the two separators and test strings
    for emptiness, so the width of the code unit plays no part. *)
Abbreviation wstring := string (only parsing).
(** [CStringA] contents. *)
Abbreviation astring := string (only parsing).

Definition IsEmpty (s : string) : bool :=
  match s with EmptyString => true | String _ _ => false end.

Fixpoint char_in (c : ascii) (chars : string) : bool :=
  match chars with
  | EmptyString => false
  | String d rest => if Ascii.eqb c d then true else char_in c rest
  end.

(** [s.find_last_of(chars)]; [None] is [npos]. *)
Fixpoint find_last_of (s : string) (chars : string) : option nat :=
  match s with
  | EmptyString => None
  | String c rest =>
      match find_last_of rest chars with
      | Some i => Some (S i)
      | None => if char_in c chars then Some 0%nat else None
      end
  end.

(** [s.back()], for a string that is not empty. *)
Fixpoint back (s : string) : option ascii :=
  match s with
  | EmptyString => None
  | String c EmptyString => Some c
  | String _ rest => back rest
  end.

Definition backslash : ascii := "\"%char.
Definition slash : ascii := "/"%char.
(** The literal [L"\\/"] given to [find_last_of]. *)
Definition separators : string := String backslash (String slash EmptyString).

(** [path.substr(0, pos)]. *)
Definition substr0 (path : string) (pos : nat) : string := substring 0 pos path.

(** ** Outcomes of a computation *)

Inductive exn : Type :=
| CDShowException (m_message : wstring)
| CException (message : wstring)
| UnknownException.

Inductive result (S A : Type) : Type :=
| Ret (a : A) (s : S)
| Throw (x : exn) (s : S)
| Relock (s : S).
Arguments Ret {S A} a s.
Arguments Throw {S A} x s.
Arguments Relock {S A} s.

Definition M (S A : Type) : Type := S -> result S A.

Definition ret {S A} (a : A) : M S A := fun s => Ret a s.

Definition bind {S A B} (m : M S A) (k : A -> M S B) : M S B :=
  fun s =>
    match m s with
    | Ret a s' => k a s'
    | Throw x s' => Throw x s'
    | Relock s' => Relock s'
    end.

Definition throw {S A} (x : exn) : M S A := fun s => Throw x s.

(** [try { body } catch (...) { handler }]: the handler sees the exception
    object; the three [catch] clauses of the source are one handler that
    matches on it. *)
Definition try_catch {S A} (body : M S A) (handler : exn -> M S A) : M S A :=
  fun s =>
    match body s with
    | Ret a s' => Ret a s'
    | Throw x s' => handler x s'
    | Relock s' => Relock s'
    end.

Definition modify {S} (f : S -> S) : M S unit := fun s => Ret tt (f s).
Definition gets {S A} (f : S -> A) : M S A := fun s => Ret (f s) s.

(** The world in which a computation ended, whatever the way it ended. *)
Definition final {S A} (r : result S A) : S :=
  match r with Ret _ s => s | Throw _ s => s | Relock s => s end.

Definition returned {S A} (r : result S A) : option A :=
  match r with Ret a _ => Some a | _ => None end.

Declare Scope cpp_scope.
Delimit Scope cpp_scope with cpp.
Notation "x <- m ;; k" := (bind m (fun x => k))
  (at level 100, m at next level, k at level 200, right associativity) : cpp_scope.
Notation "m ;; k" := (bind m (fun _ => k))
  (at level 100, k at level 200, right associativity) : cpp_scope.
Local Open Scope cpp_scope.

(** ** Data model *)

(** [enum class State { Idle = 0, Capturing, Stopping }]. *)
Inductive State : Type := Idle | Capturing | Stopping.

Definition State_eqb (a b : State) : bool :=
  match a, b with
  | Idle, Idle | Capturing, Capturing | Stopping, Stopping => true
  | _, _ => false
  end.

(** [struct WindvCaptureOptions] of the header.  A [const wchar_t*] field is
    [None] when the pointer is null; [BOOL] and [int] are integers. *)
Record WindvCaptureOptions : Type := mkOptions {
  output_directory : option wstring;
  file_base_name : option wstring;
  datetime_format : option wstring;
  numeric_suffix_digits : Z;
  type2_avi : Z;
  enable_preview : Z;
  queue_size : Z
}.

(** [struct NormalizedOptions]. *)
Record NormalizedOptions : Type := mkNormalized {
  basePath : astring;
  datetimeFormat : astring;
  numericDigits : Z;
  type2Avi : bool;
  enablePreview : bool;
  queueSize : Z
}.

(** The member initialisers of [NormalizedOptions]. *)
Definition NormalizedOptions_default : NormalizedOptions :=
  mkNormalized "" "" 0 true true 120.

(** A window handle; [0] is [nullptr]. *)
Abbreviation HWND := Z (only parsing).

(** One entry of the queue: the arguments of [Put].  [data] is [None] for a
    null pointer. *)
Record Frame : Type := mkFrame {
  duration : Z;
  data : option (list Byte.byte);
  len : Z
}.

(** The entry [StopCapture] enqueues: [Put(-1, nullptr, 0)]. *)
Definition sentinel : Frame := mkFrame (-1) None 0.

Record CMediaType : Type := mkMediaType { lSampleSize : Z }.

(** The collaborator objects the engine owns through raw pointers.  Each
    carries what its constructor was given; a pointer member of the engine
    is an [option]: [None] for [nullptr]. *)
Record CDVInput : Type := mkDVInput {
  in_device : astring;
  in_running : bool
}.

Record CDVQueue : Type := mkQueue {
  q_size : Z;
  q_sampleSize : Z;
  q_entries : list Frame
}.

Record CMonitor : Type := mkMonitor {
  mon_window : HWND;
  mon_sampleSize : Z
}.

Record CAVIWriter : Type := mkWriter {
  wr_basePath : astring;
  wr_datetimeFormat : astring;
  wr_numericDigits : Z;
  wr_time : Z;
  wr_type2 : bool;
  wr_sampleSize : Z
}.

Record CWinThread : Type := mkThread {
  m_bAutoDelete : bool;
  th_suspended : bool
}.

(** The data members of [WinDVCaptureEngine].  [m_mutex] is [true] while
    the running thread owns the mutex. *)
Record Engine : Type := mkEngine {
  m_mutex : bool;
  m_state : State;
  m_comInitialized : bool;
  m_deviceWide : wstring;
  m_deviceAnsi : astring;
  m_previewWindow : HWND;
  m_dvInput : option CDVInput;
  m_monitor : option CMonitor;
  m_queue : option CDVQueue;
  m_writer : option CAVIWriter;
  m_captureThread : option CWinThread;
  m_mediaType : CMediaType;
  m_options : NormalizedOptions;
  m_lastError : wstring
}.

(** What an entry of the host file system is. *)
Inductive Kind : Type := Directory | File.

(** Why the host declines to create a directory at a name it accepts and
    at which nothing is. *)
Inductive Refusal : Type :=
| PathNotFound
| AccessDenied
| DiskFull
| NameTooLong.

(** The state the member functions act on: the engine ([this]), the host
    file system (its entries by canonical name), the calling thread's Win32
    last-error code, and the directories created so far (by canonical
    name, oldest first). *)
Record World : Type := mkWorld {
  eng : Engine;
  disk : gmap string Kind;
  os_last_error : Z;
  created : list wstring
}.

(** Assignments to single members. *)
Definition set_mutex (v : bool) (e : Engine) : Engine :=
  mkEngine v (m_state e) (m_comInitialized e) (m_deviceWide e) (m_deviceAnsi e)
    (m_previewWindow e) (m_dvInput e) (m_monitor e) (m_queue e) (m_writer e)
    (m_captureThread e) (m_mediaType e) (m_options e) (m_lastError e).
Definition set_state (v : State) (e : Engine) : Engine :=
  mkEngine (m_mutex e) v (m_comInitialized e) (m_deviceWide e) (m_deviceAnsi e)
    (m_previewWindow e) (m_dvInput e) (m_monitor e) (m_queue e) (m_writer e)
    (m_captureThread e) (m_mediaType e) (m_options e) (m_lastError e).
Definition set_comInitialized (v : bool) (e : Engine) : Engine :=
  mkEngine (m_mutex e) (m_state e) v (m_deviceWide e) (m_deviceAnsi e)
    (m_previewWindow e) (m_dvInput e) (m_monitor e) (m_queue e) (m_writer e)
    (m_captureThread e) (m_mediaType e) (m_options e) (m_lastError e).
Definition set_device (wide : wstring) (ansi : astring) (e : Engine) : Engine :=
  mkEngine (m_mutex e) (m_state e) (m_comInitialized e) wide ansi
    (m_previewWindow e) (m_dvInput e) (m_monitor e) (m_queue e) (m_writer e)
    (m_captureThread e) (m_mediaType e) (m_options e) (m_lastError e).
Definition set_previewWindow (v : HWND) (e : Engine) : Engine :=
  mkEngine (m_mutex e) (m_state e) (m_comInitialized e) (m_deviceWide e) (m_deviceAnsi e)
    v (m_dvInput e) (m_monitor e) (m_queue e) (m_writer e)
    (m_captureThread e) (m_mediaType e) (m_options e) (m_lastError e).
Definition set_dvInput (v : option CDVInput) (e : Engine) : Engine :=
  mkEngine (m_mutex e) (m_state e) (m_comInitialized e) (m_deviceWide e) (m_deviceAnsi e)
    (m_previewWindow e) v (m_monitor e) (m_queue e) (m_writer e)
    (m_captureThread e) (m_mediaType e) (m_options e) (m_lastError e).
Definition set_monitor (v : option CMonitor) (e : Engine) : Engine :=
  mkEngine (m_mutex e) (m_state e) (m_comInitialized e) (m_deviceWide e) (m_deviceAnsi e)
    (m_previewWindow e) (m_dvInput e) v (m_queue e) (m_writer e)
    (m_captureThread e) (m_mediaType e) (m_options e) (m_lastError e).
Definition set_queue (v : option CDVQueue) (e : Engine) : Engine :=
  mkEngine (m_mutex e) (m_state e) (m_comInitialized e) (m_deviceWide e) (m_deviceAnsi e)
    (m_previewWindow e) (m_dvInput e) (m_monitor e) v (m_writer e)
    (m_captureThread e) (m_mediaType e) (m_options e) (m_lastError e).
Definition set_writer (v : option CAVIWriter) (e : Engine) : Engine :=
  mkEngine (m_mutex e) (m_state e) (m_comInitialized e) (m_deviceWide e) (m_deviceAnsi e)
    (m_previewWindow e) (m_dvInput e) (m_monitor e) (m_queue e) v
    (m_captureThread e) (m_mediaType e) (m_options e) (m_lastError e).
Definition set_captureThread (v : option CWinThread) (e : Engine) : Engine :=
  mkEngine (m_mutex e) (m_state e) (m_comInitialized e) (m_deviceWide e) (m_deviceAnsi e)
    (m_previewWindow e) (m_dvInput e) (m_monitor e) (m_queue e) (m_writer e)
    v (m_mediaType e) (m_options e) (m_lastError e).
Definition set_mediaType (v : CMediaType) (e : Engine) : Engine :=
  mkEngine (m_mutex e) (m_state e) (m_comInitialized e) (m_deviceWide e) (m_deviceAnsi e)
    (m_previewWindow e) (m_dvInput e) (m_monitor e) (m_queue e) (m_writer e)
    (m_captureThread e) v (m_options e) (m_lastError e).
Definition set_options (v : NormalizedOptions) (e : Engine) : Engine :=
  mkEngine (m_mutex e) (m_state e) (m_comInitialized e) (m_deviceWide e) (m_deviceAnsi e)
    (m_previewWindow e) (m_dvInput e) (m_monitor e) (m_queue e) (m_writer e)
    (m_captureThread e) (m_mediaType e) v (m_lastError e).
Definition set_lastError (v : wstring) (e : Engine) : Engine :=
  mkEngine (m_mutex e) (m_state e) (m_comInitialized e) (m_deviceWide e) (m_deviceAnsi e)
    (m_previewWindow e) (m_dvInput e) (m_monitor e) (m_queue e) (m_writer e)
    (m_captureThread e) (m_mediaType e) (m_options e) v.

Definition on_eng (f : Engine -> Engine) (w : World) : World :=
  mkWorld (f (eng w)) (disk w) (os_last_error w) (created w).
Definition set_disk (d : gmap string Kind) (w : World) : World :=
  mkWorld (eng w) d (os_last_error w) (created w).
Definition set_os_last_error (v : Z) (w : World) : World :=
  mkWorld (eng w) (disk w) v (created w).
Definition log_created (d : wstring) (w : World) : World :=
  mkWorld (eng w) (disk w) (os_last_error w) (created w ++ [d]).

(** ** The collaborators outside this translation unit *)

(** A value delivered by an external call, or the exception it throws. *)
Inductive outcome (A : Type) : Type :=
| Done (a : A)
| Fails (x : exn).
Arguments Done {A} a.
Arguments Fails {A} x.

(** What the platform and the DirectShow helper classes do during one call
    into the engine.
    - [CoInitializeEx]: the [HRESULT] of
      [CoInitializeEx(nullptr, COINIT_MULTITHREADED)];
    - [WideCharToMultiByte]: the conversion done by [CStringA(const wchar_t* )];
    - [MultiByteToWideChar]: the conversion under [CP_ACP]; [None] when the
      size query returns a count [<= 0];
    - [new_CDVInput], [GetMediaType], [new_CDVQueue], [new_CMonitor],
      [new_CAVIWriter], [Run]: whether the call completes or throws;
      [GetMediaType] reports the sample size of the device (a [ULONG]);
    - [AfxBeginThread]: [true] when a thread object is returned;
    - [time]: the value of [std::time(nullptr)];
    - [resolve]: the canonical name of the entry a path designates on the
      host, [None] for a path the host does not accept as a name; two
      spellings of one directory resolve to one name;
    - [refuses]: for a file system and a path at which nothing is, why the
      host declines to create a directory there, [None] when it creates
      it. *)
Record Env : Type := mkEnv {
  CoInitializeEx : Z;
  WideCharToMultiByte : wstring -> astring;
  MultiByteToWideChar : astring -> option wstring;
  new_CDVInput : astring -> outcome unit;
  GetMediaType : outcome Z;
  new_CDVQueue : Z -> Z -> outcome unit;
  new_CMonitor : HWND -> outcome unit;
  new_CAVIWriter : astring -> astring -> outcome unit;
  Run : outcome unit;
  AfxBeginThread : bool;
  time : Z;
  resolve : wstring -> option wstring;
  refuses : gmap string Kind -> wstring -> option Refusal
}.

(** Lifts an external call into a computation. *)
Definition call {S A} (o : outcome A) : M S A :=
  match o with
  | Done a => ret a
  | Fails x => throw x
  end.

(** ** Platform primitives *)

Definition FAILED (hr : Z) : bool := (hr <? 0)%Z.
(** [0x80010106] as an [HRESULT]. *)
Definition RPC_E_CHANGED_MODE : Z := -2147417850.
Definition INVALID_FILE_ATTRIBUTES : Z := 4294967295.
Definition FILE_ATTRIBUTE_DIRECTORY : Z := 16.
Definition FILE_ATTRIBUTE_NORMAL : Z := 128.
Definition ERROR_PATH_NOT_FOUND : Z := 3.
Definition ERROR_ALREADY_EXISTS : Z := 183.
Definition ERROR_FILE_NOT_FOUND : Z := 2.
Definition ERROR_ACCESS_DENIED : Z := 5.
Definition ERROR_DISK_FULL : Z := 112.
Definition ERROR_INVALID_NAME : Z := 123.
Definition ERROR_FILENAME_EXCED_RANGE : Z := 206.

(** The last-error code of a refused creation.  None of them is
    [ERROR_ALREADY_EXISTS], which the host gives only when something is at
    the name. *)
Definition error_code (r : Refusal) : Z :=
  match r with
  | PathNotFound => ERROR_PATH_NOT_FOUND
  | AccessDenied => ERROR_ACCESS_DENIED
  | DiskFull => ERROR_DISK_FULL
  | NameTooLong => ERROR_FILENAME_EXCED_RANGE
  end.

(** [static_cast<int>] of an unsigned 32-bit value. *)
Definition to_int (u : Z) : Z := (u + 2147483648) mod 4294967296 - 2147483648.

(** The directory part of a path, as [EnsureDirectories] computes it:
    everything before the last separator. *)
Definition dirname (path : wstring) : option wstring :=
  match find_last_of path separators with
  | Some pos => Some (substr0 path pos)
  | None => None
  end.

(** What the path [d] designates in the file system [fs] of the host:
    the entry under the name [d] resolves to. *)
Definition entry (env : Env) (fs : gmap string Kind) (d : wstring) : option Kind :=
  match resolve env d with
  | Some k => fs !! k
  | None => None
  end.

(** [GetFileAttributesW(d)]: the attributes of the entry [d] designates;
    [INVALID_FILE_ATTRIBUTES] when there is none or the host does not
    accept the name. *)
Definition GetFileAttributesW (env : Env) (d : wstring) : M World Z :=
  fun w =>
    match entry env (disk w) d with
    | Some Directory => Ret FILE_ATTRIBUTE_DIRECTORY w
    | Some File => Ret FILE_ATTRIBUTE_NORMAL w
    | None =>
        Ret INVALID_FILE_ATTRIBUTES
          (set_os_last_error
             (match resolve env d with
              | Some _ => ERROR_FILE_NOT_FOUND
              | None => ERROR_INVALID_NAME
              end) w)
    end.

(** [CreateDirectoryW(d, nullptr)]: fails with [ERROR_INVALID_NAME] when
    the host does not accept the name, with [ERROR_ALREADY_EXISTS] when
    [d] designates an entry, directory or file, under whatever spelling it
    was made, and with the code of the refusal when the host declines;
    otherwise the directory is made under its canonical name. *)
Definition CreateDirectoryW (env : Env) (d : wstring) : M World bool :=
  fun w =>
    match resolve env d with
    | None => Ret false (set_os_last_error ERROR_INVALID_NAME w)
    | Some k =>
        match disk w !! k with
        | Some _ => Ret false (set_os_last_error ERROR_ALREADY_EXISTS w)
        | None =>
            match refuses env (disk w) d with
            | Some r => Ret false (set_os_last_error (error_code r) w)
            | None => Ret true (log_created k (set_disk (<[k := Directory]> (disk w)) w))
            end
        end
    end.

Definition GetLastError : M World Z := gets os_last_error.

(** ** The mutex *)

(** [m_mutex.lock()]. *)
Definition lock : M World unit :=
  fun w => if m_mutex (eng w) then Relock w else Ret tt (on_eng (set_mutex true) w).

(** [m_mutex.unlock()]. *)
Definition unlock : M World unit := modify (on_eng (set_mutex false)).

(** [std::lock_guard<std::mutex> guard(m_mutex);] followed by the rest of
    the enclosing block: the guard is released when the block is left, by a
    [return] or by an exception. *)
Definition lock_guard {A} (block : M World A) : M World A :=
  fun w =>
    match lock w with
    | Ret _ w1 =>
        match block w1 with
        | Ret a w2 => Ret a (on_eng (set_mutex false) w2)
        | Throw x w2 => Throw x (on_eng (set_mutex false) w2)
        | Relock w2 => Relock w2
        end
    | Throw x w1 => Throw x w1
    | Relock w1 => Relock w1
    end.

(** ** Member functions of [WinDVCaptureEngine] *)

(** The constructor. *)
Definition WinDVCaptureEngine : Engine :=
  mkEngine false Idle false "" "" 0 None None None None None
    (mkMediaType 0) NormalizedOptions_default "".

Definition AnsiToWide (env : Env) (value : astring) : wstring :=
  if IsEmpty value then ""
  else match MultiByteToWideChar env value with
       | None => ""
       | Some buffer => buffer
       end.

Definition SetError (message : wstring) : M World unit :=
  lock_guard (modify (on_eng (set_lastError message))).

Definition LastError (e : Engine) : wstring := m_lastError e.

Definition ReportExternalError (message : wstring) : M World unit :=
  SetError message.

Definition FormatMessage (message : wstring) : wstring := message.

Definition Initialize (env : Env) : M World bool :=
  lock_guard (
    com <- gets (fun w => m_comInitialized (eng w)) ;;
    if negb com then
      let hr := CoInitializeEx env in
      if FAILED hr && negb (hr =? RPC_E_CHANGED_MODE)%Z then
        SetError "CoInitializeEx fehlgeschlagen." ;;
        ret false
      else
        modify (on_eng (set_comInitialized true)) ;;
        ret true
    else ret true).

Definition SetDevice (env : Env) (deviceName : wstring) : M World bool :=
  ok <- Initialize env ;;
  if negb ok then ret false
  else
    lock_guard (
      st <- gets (fun w => m_state (eng w)) ;;
      if negb (State_eqb st Idle) then
        SetError "Gerät kann während einer laufenden Aufnahme nicht geändert werden." ;;
        ret false
      else
        modify (on_eng (set_device deviceName (WideCharToMultiByte env deviceName))) ;;
        ret true).

Definition SetPreviewWindow (hwnd : HWND) : M World bool :=
  lock_guard (
    st <- gets (fun w => m_state (eng w)) ;;
    if State_eqb st Capturing then
      SetError "Preview-Fenster kann während einer laufenden Aufnahme nicht gewechselt werden." ;;
      ret false
    else
      modify (on_eng (set_previewWindow hwnd)) ;;
      ret true).

(** [p && *p] for a [const wchar_t*]. *)
Definition given (p : option wstring) : option wstring :=
  match p with
  | Some s => if IsEmpty s then None else Some s
  | None => None
  end.

Definition ends_with_separator (s : wstring) : bool :=
  match back s with
  | Some c => Ascii.eqb c backslash || Ascii.eqb c slash
  | None => false
  end.

Definition Normalize (env : Env) (options : WindvCaptureOptions) : NormalizedOptions :=
  let enablePreview' := negb (enable_preview options =? 0)%Z in
  let type2Avi' := negb (type2_avi options =? 0)%Z in
  let numericDigits' :=
    if (numeric_suffix_digits options >? 0)%Z then numeric_suffix_digits options else 0 in
  let queueSize' := if (queue_size options >? 0)%Z then queue_size options else 120 in
  let basePath0 :=
    match given (output_directory options) with
    | Some dir =>
        if negb (IsEmpty dir) && negb (ends_with_separator dir)
        then dir ++ String backslash EmptyString
        else dir
    | None => ""
    end in
  let basePath1 :=
    match given (file_base_name options) with
    | Some name => basePath0 ++ name
    | None => basePath0 ++ "capture"
    end in
  let datetimeFormat' :=
    match given (datetime_format options) with
    | Some fmt => WideCharToMultiByte env fmt
    | None => "%Y%m%d_%H%M%S"
    end in
  mkNormalized (WideCharToMultiByte env basePath1) datetimeFormat'
    numericDigits' type2Avi' enablePreview' queueSize'.

Definition is_directory (attrs : Z) : bool :=
  negb (attrs =? INVALID_FILE_ATTRIBUTES)%Z
  && negb (Z.land attrs FILE_ATTRIBUTE_DIRECTORY =? 0)%Z.

(** One activation of [EnsureDirectories]; [self] stands for the recursive
    call. *)
Definition EnsureDirectories_body (env : Env) (self : wstring -> M World bool)
    (path : wstring) : M World bool :=
  if IsEmpty path then ret true
  else
    match find_last_of path separators with
    | None => ret true
    | Some pos =>
        let directory := substr0 path pos in
        if IsEmpty directory then ret true
        else
          attrs <- GetFileAttributesW env directory ;;
          if is_directory attrs then ret true
          else
            ok <- self directory ;;
            if negb ok then ret false
            else
              made <- CreateDirectoryW env directory ;;
              if made then ret true
              else
                err <- GetLastError ;;
                if (err =? ERROR_ALREADY_EXISTS)%Z then ret true
                else
                  SetError "Verzeichnis konnte nicht erstellt werden." ;;
                  ret false
    end.

(** The recursion is on a strictly shorter string each time, so a depth of
    [String.length path] activations is never exhausted
    ([EnsureDirectories_unfold] below). *)
Fixpoint EnsureDirectories_depth (env : Env) (depth : nat) (path : wstring)
  : M World bool :=
  match depth with
  | O => EnsureDirectories_body env (fun _ => ret true) path
  | S depth' => EnsureDirectories_body env (EnsureDirectories_depth env depth') path
  end.

Definition EnsureDirectories (env : Env) (path : wstring) : M World bool :=
  EnsureDirectories_depth env (String.length path) path.

(** Modelled from the spec: [CDVQueue::Put] of DShow.h, which is not part of
    this translation unit.  The entry is appended; that the caller waits
    while the queue is at capacity is not represented. *)
Definition Put (f : Frame) (q : CDVQueue) : CDVQueue :=
  mkQueue (q_size q) (q_sampleSize q) (q_entries q ++ [f]).

(** [if (p) { ...; delete p; p = nullptr; }] for a pointer member. *)
Definition release {A} (get : Engine -> option A) (clear : Engine -> Engine)
  : M World unit :=
  p <- gets (fun w => get (eng w)) ;;
  match p with
  | Some _ => modify (on_eng clear)
  | None => ret tt
  end.

Definition StopCapture : M World unit :=
  lock ;;
  st <- gets (fun w => m_state (eng w)) ;;
  if State_eqb st Idle then
    unlock ;;
    ret tt
  else
    modify (on_eng (set_state Stopping)) ;;
    q <- gets (fun w => m_queue (eng w)) ;;
    match q with
    | Some q' => modify (on_eng (set_queue (Some (Put sentinel q'))))
    | None => ret tt
    end ;;
    unlock ;;
    (* WaitForSingleObject returns once the consumer thread has left
       CaptureThread; the thread object is then deleted. *)
    release m_captureThread (set_captureThread None) ;;
    lock ;;
    dv <- gets (fun w => m_dvInput (eng w)) ;;
    match dv with
    | Some input =>
        modify (on_eng (set_dvInput (Some (mkDVInput (in_device input) false)))) ;;
        modify (on_eng (set_dvInput None))
    | None => ret tt
    end ;;
    release m_monitor (set_monitor None) ;;
    release m_writer (set_writer None) ;;
    release m_queue (set_queue None) ;;
    modify (on_eng (set_state Idle)) ;;
    unlock.

Definition IsCapturing (e : Engine) : bool := State_eqb (m_state e) Capturing.

(** The body of the [try] block of [StartCapture]. *)
Definition StartCapture_try (env : Env) (normalized : NormalizedOptions)
  : M World bool :=
  dev <- gets (fun w => m_deviceAnsi (eng w)) ;;
  call (new_CDVInput env dev) ;;
  modify (on_eng (set_dvInput (Some (mkDVInput dev false)))) ;;
  reported <- call (GetMediaType env) ;;
  modify (on_eng (set_mediaType (mkMediaType reported))) ;;
  sampleSize <-
    (if (to_int reported <? 144000)%Z then
       modify (on_eng (set_mediaType (mkMediaType 144000))) ;;
       ret 144000%Z
     else ret (to_int reported)) ;;
  call (new_CDVQueue env (queueSize normalized) sampleSize) ;;
  modify (on_eng (set_queue (Some (mkQueue (queueSize normalized) sampleSize [])))) ;;
  hwnd <- gets (fun w => m_previewWindow (eng w)) ;;
  (if enablePreview normalized && negb (hwnd =? 0)%Z then
     call (new_CMonitor env hwnd) ;;
     mt <- gets (fun w => m_mediaType (eng w)) ;;
     modify (on_eng (set_monitor (Some (mkMonitor hwnd (lSampleSize mt)))))
   else ret tt) ;;
  call (new_CAVIWriter env (basePath normalized) (datetimeFormat normalized)) ;;
  mt <- gets (fun w => m_mediaType (eng w)) ;;
  modify (on_eng (set_writer (Some
    (mkWriter (basePath normalized) (datetimeFormat normalized)
       (numericDigits normalized) (time env) (type2Avi normalized)
       (lSampleSize mt))))) ;;
  modify (on_eng (set_options normalized)) ;;
  call (Run env) ;;
  modify (on_eng (fun e => set_dvInput (Some (mkDVInput dev true)) e)) ;;
  modify (on_eng (set_state Capturing)) ;;
  if AfxBeginThread env then
    modify (on_eng (set_captureThread (Some (mkThread true true)))) ;;
    modify (on_eng (set_captureThread (Some (mkThread false true)))) ;;
    modify (on_eng (set_captureThread (Some (mkThread false false)))) ;;
    ret true
  else
    modify (on_eng (set_captureThread None)) ;;
    SetError "Capture-Thread konnte nicht gestartet werden." ;;
    StopCapture ;;
    ret false.

(** The three [catch] clauses of [StartCapture]. *)
Definition StartCapture_catch (x : exn) : M World bool :=
  match x with
  | CDShowException m_message =>
      SetError (FormatMessage m_message) ;;
      StopCapture ;;
      ret false
  | CException message =>
      SetError message ;;
      StopCapture ;;
      ret false
  | UnknownException =>
      SetError "Unbekannter Fehler beim Starten der Aufnahme." ;;
      StopCapture ;;
      ret false
  end.

Definition StartCapture (env : Env) (options : WindvCaptureOptions) : M World bool :=
  dev <- gets (fun w => m_deviceAnsi (eng w)) ;;
  if IsEmpty dev then
    SetError "Kein DirectShow-Gerät konfiguriert." ;;
    ret false
  else
    ok <- Initialize env ;;
    if negb ok then ret false
    else
      let normalized := Normalize env options in
      dirs <- EnsureDirectories env (AnsiToWide env (basePath normalized)) ;;
      if negb dirs then ret false
      else
        lock_guard (
          st <- gets (fun w => m_state (eng w)) ;;
          if negb (State_eqb st Idle) then
            SetError "Aufnahme läuft bereits." ;;
            ret false
          else
            try_catch (StartCapture_try env normalized) StartCapture_catch).

Definition Shutdown : M World unit :=
  StopCapture ;;
  lock_guard (
    com <- gets (fun w => m_comInitialized (eng w)) ;;
    if com then modify (on_eng (set_comInitialized false))
    else ret tt).

Definition HandleFrame (f : Frame) : M World unit :=
  q <- gets (fun w => m_queue (eng w)) ;;
  match q with
  | None => ret tt
  | Some q' => modify (on_eng (set_queue (Some (Put f q'))))
  end.

(** ** The consumer loop *)

(** An invocation of a sink: [m_monitor->HandleFrame] or
    [m_writer->HandleFrame]. *)
Inductive SinkCall : Type :=
| PreviewCall (f : Frame)
| WriterCall (f : Frame).

Definition call_frame (c : SinkCall) : Frame :=
  match c with PreviewCall f => f | WriterCall f => f end.

(** What one pass of the loop reads from state shared with other threads:
    the state flag at the loop test, the result of [m_queue->Get] ([None]
    when it returns [false]) and [m_queue->m_load] at the preview test. *)
Record Observation : Type := mkObservation {
  seen_state : State;
  got : option Frame;
  m_load : Z
}.

(** The sinks are collaborators: for a frame, [HandleFrame] returns
    ([None]) or throws. *)
Record Sinks : Type := mkSinks {
  monitor_HandleFrame : Frame -> option exn;
  writer_HandleFrame : Frame -> option exn
}.

(** How [CaptureThread] was left: the loop test failed, the [break] was
    taken, an exception left the function, or, when the observations given
    are used up, it is still inside the loop. *)
Inductive LoopEnd : Type :=
| StateLeftCapturing
| SentinelBreak
| Escaped (x : exn)
| StillRunning.

(** The test [m_monitor && m_options.enablePreview] and, inside it,
    [m_queue->m_load < (m_options.queueSize / 2)]. *)
Definition preview_due (e : Engine) (load : Z) : bool :=
  match m_monitor e with
  | Some _ =>
      enablePreview (m_options e) && (load <? Z.quot (queueSize (m_options e)) 2)%Z
  | None => false
  end.

(** The two [if] statements at the end of the loop body, for a frame whose
    buffer is not null. *)
Definition fan_out (sinks : Sinks) (e : Engine) (load : Z) (f : Frame)
  : list SinkCall * option exn :=
  let preview :=
    if preview_due e load
    then ([PreviewCall f], monitor_HandleFrame sinks f)
    else ([], None) in
  match snd preview with
  | Some x => (fst preview, Some x)
  | None =>
      match m_writer e with
      | Some _ => ((fst preview ++ [WriterCall f])%list, writer_HandleFrame sinks f)
      | None => (fst preview, None)
      end
  end.

Fixpoint CaptureThread (sinks : Sinks) (e : Engine) (obs : list Observation)
  : list SinkCall * LoopEnd :=
  match obs with
  | [] => ([], StillRunning)
  | o :: rest =>
      if negb (State_eqb (seen_state o) Capturing) then ([], StateLeftCapturing)
      else
        match got o with
        | None => CaptureThread sinks e rest
        | Some f =>
            match data f with
            | None => ([], SentinelBreak)
            | Some _ =>
                let out := fan_out sinks e (m_load o) f in
                match snd out with
                | Some x => (fst out, Escaped x)
                | None =>
                    let later := CaptureThread sinks e rest in
                    ((fst out ++ fst later)%list, snd later)
                end
            end
        end
  end.

Definition CaptureThreadEntry (sinks : Sinks) (param : option Engine)
    (obs : list Observation) : list SinkCall * LoopEnd :=
  match param with
  | Some engine => CaptureThread sinks engine obs
  | None => ([], StateLeftCapturing)
  end.

(** ** The exported entry points *)

(** The process: the global [g_engine] and the host. *)
Record Process : Type := mkProcess {
  g_engine : option Engine;
  p_disk : gmap string Kind;
  p_os_last_error : Z;
  p_created : list wstring
}.

(** [EnsureEngine]: the engine is made on first use.  Its own mutex,
    [g_engineMutex], is taken and released inside this function only and is
    not represented. *)
Definition EnsureEngine (p : Process) : Engine * Process :=
  match g_engine p with
  | Some e => (e, p)
  | None =>
      (WinDVCaptureEngine,
       mkProcess (Some WinDVCaptureEngine) (p_disk p) (p_os_last_error p) (p_created p))
  end.

Definition to_process (w : World) : Process :=
  mkProcess (Some (eng w)) (disk w) (os_last_error w) (created w).

(** [auto* engine = EnsureEngine(); engine->method(...)]. *)
Definition on_engine {A} (method : M World A) : M Process A :=
  fun p =>
    let ep := EnsureEngine p in
    let w := mkWorld (fst ep) (p_disk (snd ep)) (p_os_last_error (snd ep))
               (p_created (snd ep)) in
    match method w with
    | Ret a w' => Ret a (to_process w')
    | Throw x w' => Throw x (to_process w')
    | Relock w' => Relock (to_process w')
    end.

Definition status (ok : bool) : Z := if ok then 0 else -1.

Definition WindvBridge_Initialize (env : Env) : M Process Z :=
  ok <- on_engine (Initialize env) ;;
  ret (status ok).

Definition WindvBridge_SetDevice (env : Env) (device_name : option wstring)
  : M Process Z :=
  match device_name with
  | None =>
      on_engine (ReportExternalError "Device-Name darf nicht leer sein.") ;;
      ret (-1)%Z
  | Some name =>
      ok <- on_engine (SetDevice env name) ;;
      ret (status ok)
  end.

Definition WindvBridge_SetPreviewWindow (hwnd : HWND) : M Process Z :=
  ok <- on_engine (SetPreviewWindow hwnd) ;;
  ret (status ok).

Definition WindvBridge_StartCapture (env : Env)
    (options : option WindvCaptureOptions) : M Process Z :=
  match options with
  | None => ret (-1)%Z
  | Some o =>
      ok <- on_engine (StartCapture env o) ;;
      ret (status ok)
  end.

Definition WindvBridge_StopCapture : M Process unit :=
  on_engine StopCapture.

Definition WindvBridge_IsCapturing : M Process Z :=
  capturing <- on_engine (gets (fun w => IsCapturing (eng w))) ;;
  ret (if capturing then 1 else 0)%Z.

Definition WindvBridge_LastError : M Process wstring :=
  on_engine (gets (fun w => LastError (eng w))).

Definition WindvBridge_Shutdown : M Process unit :=
  on_engine Shutdown.

(** ** Notions used in the statements *)

(** The ancestor directories of a path, outermost first: the directory part
    of the path, the directory part of that, and so on while it is not
    empty. *)
Fixpoint ancestors_depth (depth : nat) (path : wstring) : list wstring :=
  match depth with
  | O => []
  | S depth' =>
      match dirname path with
      | None => []
      | Some d => if IsEmpty d then [] else ancestors_depth depth' d ++ [d]
      end
  end.

Definition ancestors (path : wstring) : list wstring :=
  ancestors_depth (String.length path) path.

(** Nothing is under the name [k]. *)
Definition missing (fs : gmap string Kind) (k : wstring) : bool :=
  match fs !! k with None => true | Some _ => false end.

(** The canonical names of the paths of a list that the host accepts, in
    the order of the list. *)
Definition names (env : Env) (paths : list wstring) : list wstring :=
  omap (resolve env) paths.

(** A list without its repetitions: each element stays where it occurs
    first. *)
Definition distinct (l : list wstring) : list wstring :=
  fold_left (fun seen k => if decide (k ∈ seen) then seen else (seen ++ [k])%list) l [].

(** The ancestor directories of [path] that are not in the file system
    [fs]: canonical names, outermost first, each once however many
    spellings of it the path runs through. *)
Definition missing_directories (env : Env) (fs : gmap string Kind) (path : wstring)
  : list wstring :=
  distinct (List.filter (missing fs) (names env (ancestors path))).

(** The session state proper: the state flag, the collaborator handles and
    the stored options. *)
Definition same_session (e e' : Engine) : Prop :=
  m_state e' = m_state e /\
  m_dvInput e' = m_dvInput e /\
  m_monitor e' = m_monitor e /\
  m_queue e' = m_queue e /\
  m_writer e' = m_writer e /\
  m_captureThread e' = m_captureThread e /\
  m_options e' = m_options e.

(** What a successful run of [EnsureDirectories] leaves behind. *)
Definition prepared (env : Env) (path : wstring) (w w' : World) : Prop :=
  eng w' = eng w /\
  created w' = (created w ++ missing_directories env (disk w) path)%list /\
  (forall d, In d (ancestors path) -> entry env (disk w') d = Some Directory) /\
  (forall k, ~ In k (missing_directories env (disk w) path) ->
     disk w' !! k = disk w !! k).

(** Modelled from the spec: [CDVQueue::Get] of DShow.h, which is not part of
    this translation unit.  The oldest entry leaves the queue. *)
Definition Get (q : CDVQueue) : option Frame * CDVQueue :=
  match q_entries q with
  | [] => (None, q)
  | f :: rest => (Some f, mkQueue (q_size q) (q_sampleSize q) rest)
  end.

(** The sessions a process can be in between two calls as long as every
    call returns: the engine as constructed, and whatever a public member
    function, the producer callback or a dequeue by the consumer leaves
    behind when it returns. *)
Inductive reachable : World -> Prop :=
| reach_new fs err log :
    reachable (mkWorld WinDVCaptureEngine fs err log)
| reach_Initialize env w ok w' :
    reachable w -> Initialize env w = Ret ok w' -> reachable w'
| reach_SetDevice env name w ok w' :
    reachable w -> SetDevice env name w = Ret ok w' -> reachable w'
| reach_SetPreviewWindow hwnd w ok w' :
    reachable w -> SetPreviewWindow hwnd w = Ret ok w' -> reachable w'
| reach_StartCapture env options w ok w' :
    reachable w -> StartCapture env options w = Ret ok w' -> reachable w'
| reach_StopCapture w w' :
    reachable w -> StopCapture w = Ret tt w' -> reachable w'
| reach_Shutdown w w' :
    reachable w -> Shutdown w = Ret tt w' -> reachable w'
| reach_ReportExternalError message w w' :
    reachable w -> ReportExternalError message w = Ret tt w' -> reachable w'
| reach_HandleFrame f w w' :
    reachable w -> HandleFrame f w = Ret tt w' -> reachable w'
| reach_Get w q :
    reachable w -> m_queue (eng w) = Some q ->
    reachable (on_eng (set_queue (Some (snd (Get q)))) w).

(** Between two calls nobody holds the mutex, and an idle session has no
    consumer thread. *)
Definition quiescent (e : Engine) : Prop :=
  m_mutex e = false /\ (m_state e = Idle -> m_captureThread e = None).

(** ** Sample environments and sessions *)

(** A sample host, after the naming rules of Windows as far as the sample
    paths need them.  Backslash and slash both separate the components of
    a path; an empty component (a doubled or trailing separator) counts
    for nothing; a component with one of the characters [< > | ? *] is not
    accepted; the canonical name is the components joined by backslashes,
    relative to the directory the process runs in.  Letter case, dots and
    drives are not represented, and a path without components is not
    accepted.  A directory is made only under a parent that is there. *)
Fixpoint components (s : string) (current : string) : list string :=
  match s with
  | EmptyString => [current]
  | String c rest =>
      if char_in c separators then current :: components rest ""
      else components rest (current ++ String c EmptyString)
  end.

Definition reserved : string := "<>|?*".

Fixpoint has_reserved (s : string) : bool :=
  match s with
  | EmptyString => false
  | String c rest => char_in c reserved || has_reserved rest
  end.

Fixpoint join (parts : list string) : string :=
  match parts with
  | [] => ""
  | [part] => part
  | part :: rest => part ++ String backslash (join rest)
  end.

Definition host_resolve (d : wstring) : option wstring :=
  let parts := List.filter (fun part => negb (IsEmpty part)) (components d "") in
  if existsb has_reserved parts then None
  else match parts with
       | [] => None
       | _ => Some (join parts)
       end.

(** The parent of the name [k] is there: [k] has one component only, or
    what precedes its last separator is a directory. *)
Definition parent_present (fs : gmap string Kind) (k : wstring) : bool :=
  match dirname k with
  | None => true
  | Some p =>
      if IsEmpty p then true
      else match fs !! p with Some Directory => true | _ => false end
  end.

Definition host_refuses (fs : gmap string Kind) (d : wstring) : option Refusal :=
  match host_resolve d with
  | Some k => if parent_present fs k then None else Some PathNotFound
  | None => None
  end.

(** A platform on which every call succeeds; the code-page conversions
    leave the text as it is and the device reports DV frames of 144000
    bytes. *)
Definition env_ok : Env :=
  mkEnv 0 (fun s => s) (fun s => Some s) (fun _ => Done tt) (Done 144000)
    (fun _ _ => Done tt) (fun _ => Done tt) (fun _ _ => Done tt) (Done tt)
    true 1700000000 host_resolve host_refuses.

(** As [env_ok], but the AVI writer cannot open its file. *)
Definition env_writer_fails : Env :=
  mkEnv 0 (fun s => s) (fun s => Some s) (fun _ => Done tt) (Done 144000)
    (fun _ _ => Done tt) (fun _ => Done tt)
    (fun _ _ => Fails (CDShowException "open failed")) (Done tt)
    true 1700000000 host_resolve host_refuses.

(** As [env_ok], but the program may not write where it runs: every
    creation of a directory is declined. *)
Definition env_read_only : Env :=
  mkEnv 0 (fun s => s) (fun s => Some s) (fun _ => Done tt) (Done 144000)
    (fun _ _ => Done tt) (fun _ => Done tt) (fun _ _ => Done tt) (Done tt)
    true 1700000000 host_resolve (fun _ _ => Some AccessDenied).

Definition options_clip : WindvCaptureOptions :=
  mkOptions (Some "out") (Some "clip") None 0 1 1 4.

Definition options_other : WindvCaptureOptions :=
  mkOptions (Some "takes\day2") (Some "clip") None 0 1 1 4.

(** A freshly constructed engine on an empty disk. *)
Definition world_new : World := mkWorld WinDVCaptureEngine ∅ 0 [].

(** The same after [SetDevice("cam")]. *)
Definition world_ready : World := final (SetDevice env_ok "cam" world_new).

(** The same after a successful [StartCapture]. *)
Definition world_capturing : World :=
  final (StartCapture env_ok options_clip world_ready).

(** A nested target and a disk on which only its outermost directory is
    there. *)
Definition path_deep : string := "takes\day2/cam1\clip.avi".

(** The same target written with a doubled separator. *)
Definition path_doubled : string := "takes\day2//cam1\clip.avi".

(** A target under a directory whose name the host does not accept. *)
Definition path_reserved : string := "a|b?\clip".

Definition world_takes : World :=
  mkWorld WinDVCaptureEngine {[ "takes" := Directory ]} 0 [].

(** The file name [Normalize] appends: the one given, or the default when
    the pointer is null or the string empty. *)
Definition effective_name (o : WindvCaptureOptions) (name : wstring) : Prop :=
  (file_base_name o = Some name /\ name <> "") \/
  ((file_base_name o = None \/ file_base_name o = Some "") /\ name = "capture").

(** [s] ends in a backslash or a slash. *)
Definition has_trailing_separator (s : wstring) : Prop :=
  exists p, s = p ++ "\" \/ s = p ++ "/".

(** Sample frames, sinks and a session with both sinks for the consumer
    loop. *)
Definition frame1 : Frame := mkFrame 0 (Some []) 144000.
Definition frame2 : Frame := mkFrame 400000 (Some []) 144000.

Definition sinks_ok : Sinks := mkSinks (fun _ => None) (fun _ => None).

(** The preview renderer throws on every frame. *)
Definition sinks_preview_fails : Sinks :=
  mkSinks (fun _ => Some (CDShowException "render failed")) (fun _ => None).

Definition engine_both_sinks : Engine :=
  set_monitor (Some (mkMonitor 1 144000)) (eng world_capturing).

(** Two frames dequeued in a row while the session is capturing and the
    queue is empty otherwise. *)
Definition two_frames : list Observation :=
  [mkObservation Capturing (Some frame1) 0; mkObservation Capturing (Some frame2) 0].

(** The engine with the members that do not belong to the session proper
    (mutex, COM flag, last error) put to fixed values: two engines with the
    same [neutral] form agree on everything else. *)
Definition neutral (e : Engine) : Engine :=
  set_mutex false (set_comInitialized false (set_lastError "" e)).

(** A run that leaves every member of the engine but the last error as it
    was, throws nothing, and stops on the mutex only if the caller held
    it. *)
Definition keeps_engine {A} (w : World) (r : result World A) : Prop :=
  match r with
  | Ret _ w' => set_lastError "" (eng w') = set_lastError "" (eng w)
  | Relock w' =>
      set_lastError "" (eng w') = set_lastError "" (eng w) /\ m_mutex (eng w) = true
  | Throw _ _ => False
  end.

(** ** Further notions *)

(** [~WinDVCaptureEngine]. *)
Definition WinDVCaptureEngine_dtor : M World unit := Shutdown.

(** The frames the loop takes out of the queue before it is left: the
    entries with a buffer, up to the first look at a state other than
    Capturing or the first entry without a buffer. *)
Fixpoint dequeued (obs : list Observation) : list Frame :=
  match obs with
  | [] => []
  | o :: rest =>
      if negb (State_eqb (seen_state o) Capturing) then []
      else
        match got o with
        | None => dequeued rest
        | Some f =>
            match data f with
            | None => []
            | Some _ => f :: dequeued rest
            end
        end
  end.

(** The frames handed to the writer, and to the preview renderer, in the
    order of the invocations. *)
Fixpoint writer_frames (calls : list SinkCall) : list Frame :=
  match calls with
  | [] => []
  | WriterCall f :: rest => f :: writer_frames rest
  | PreviewCall _ :: rest => writer_frames rest
  end.

Fixpoint preview_frames (calls : list SinkCall) : list Frame :=
  match calls with
  | [] => []
  | PreviewCall f :: rest => f :: preview_frames rest
  | WriterCall _ :: rest => preview_frames rest
  end.

(** What holds of the engine as long as every call made on it has
    returned: it is never seen in state Stopping; an idle engine points to
    no collaborator; a capturing engine
    has a device name, COM initialised, a running capture source for that
    device, a queue of the capacity of the stored options, at least one
    slot and samples of at least 144000 bytes, a writer and a resumed
    thread that is not deleted automatically, and a preview renderer only
    if preview is enabled and a window is set. *)
Definition session_consistent (e : Engine) : Prop :=
  m_state e <> Stopping /\
  (m_state e = Idle ->
     m_dvInput e = None /\ m_monitor e = None /\ m_queue e = None /\
     m_writer e = None /\ m_captureThread e = None) /\
  (m_state e = Capturing ->
     m_deviceAnsi e <> "" /\
     m_comInitialized e = true /\
     m_dvInput e = Some (mkDVInput (m_deviceAnsi e) true) /\
     (exists q, m_queue e = Some q /\ q_size q = queueSize (m_options e) /\
                0 < q_size q /\ 144000 <= q_sampleSize q) /\
     m_writer e <> None /\
     m_captureThread e = Some (mkThread false false) /\
     (m_monitor e <> None ->
        enablePreview (m_options e) = true /\ m_previewWindow e <> 0)).

(** The world a call leaves to the next one, however it ended: where it
    returned, or where it stopped at the second [lock] of [m_mutex], read
    as a call that ends there with its guards released, as it does when
    that [lock] throws. *)
Definition left_by {A} (r : result World A) : World :=
  on_eng (set_mutex false) (final r).

(** The sessions between two calls, whichever way the calls so far ended. *)
Inductive between_calls : World -> Prop :=
| rest_new fs err log :
    between_calls (mkWorld WinDVCaptureEngine fs err log)
| rest_Initialize env w :
    between_calls w -> between_calls (left_by (Initialize env w))
| rest_SetDevice env name w :
    between_calls w -> between_calls (left_by (SetDevice env name w))
| rest_SetPreviewWindow hwnd w :
    between_calls w -> between_calls (left_by (SetPreviewWindow hwnd w))
| rest_StartCapture env options w :
    between_calls w -> between_calls (left_by (StartCapture env options w))
| rest_StopCapture w :
    between_calls w -> between_calls (left_by (StopCapture w))
| rest_Shutdown w :
    between_calls w -> between_calls (left_by (Shutdown w))
| rest_ReportExternalError message w :
    between_calls w -> between_calls (left_by (ReportExternalError message w))
| rest_HandleFrame f w :
    between_calls w -> between_calls (left_by (HandleFrame f w))
| rest_Get w q :
    between_calls w -> m_queue (eng w) = Some q ->
    between_calls (on_eng (set_queue (Some (snd (Get q)))) w).

(** What holds of the engine between two calls whichever way the calls
    ended: nobody holds the mutex; the state is not Stopping; there is a
    thread object only while the state is Capturing; and a capturing
    engine has a device name, COM initialised, a running capture source
    for that device, a queue of the capacity of the stored options, at
    least one slot and samples of at least 144000 bytes, and a writer. *)
Definition session_sound (e : Engine) : Prop :=
  m_mutex e = false /\
  m_state e <> Stopping /\
  (m_captureThread e <> None -> m_state e = Capturing) /\
  (m_state e = Capturing ->
     m_deviceAnsi e <> "" /\
     m_comInitialized e = true /\
     m_dvInput e = Some (mkDVInput (m_deviceAnsi e) true) /\
     (exists q, m_queue e = Some q /\ q_size q = queueSize (m_options e) /\
                0 < q_size q /\ 144000 <= q_sampleSize q) /\
     m_writer e <> None).

(** The engine of the process, once made, is not inside a call. *)
Definition process_at_rest (p : Process) : Prop :=
  match g_engine p with
  | Some e => m_mutex e = false
  | None => True
  end.

(** The session of a process: that of its engine, or of the engine
    [EnsureEngine] would make. *)
Definition engine_of (p : Process) : Engine := fst (EnsureEngine p).

(** The collaborator calls of [StartCapture] all succeed in [env], for the
    device [dev]. *)
Definition collaborators_succeed (env : Env) (dev : string) : Prop :=
  new_CDVInput env dev = Done tt /\
  (exists reported, GetMediaType env = Done reported) /\
  (forall size sample, new_CDVQueue env size sample = Done tt) /\
  (forall hwnd, new_CMonitor env hwnd = Done tt) /\
  (forall path fmt, new_CAVIWriter env path fmt = Done tt) /\
  Run env = Done tt /\
  AfxBeginThread env = true.

(** The host lets the program prepare the directories of [path]: it
    accepts the name of every ancestor directory and does not decline to
    create one whose own ancestors are directories. *)
Definition host_permits (env : Env) (path : wstring) : Prop :=
  (forall d, In d (ancestors path) -> resolve env d <> None) /\
  (forall fs d, In d (ancestors path) ->
     (forall a, In a (ancestors d) -> entry env fs a = Some Directory) ->
     refuses env fs d = None).

(** In the file system [fs] no ancestor directory of [path] is a file, and
    the ancestors of one that is there are there. *)
Definition ancestors_in_place (env : Env) (fs : gmap string Kind) (path : wstring)
  : Prop :=
  (forall d, In d (ancestors path) -> entry env fs d <> Some File) /\
  (forall d, In d (ancestors path) -> entry env fs d = Some Directory ->
     forall a, In a (ancestors d) -> entry env fs a = Some Directory).

(** [CoInitializeEx] answers with success or with [RPC_E_CHANGED_MODE]. *)
Definition com_available (env : Env) : Prop :=
  0 <= CoInitializeEx env \/ CoInitializeEx env = RPC_E_CHANGED_MODE.

(** The steps of [EnsureDirectories] that follow a successful recursive
    call: create the directory and judge the result. *)
Definition EnsureDirectories_create (env : Env) (directory : string) : M World bool :=
  made <- CreateDirectoryW env directory ;;
  if made then ret true
  else
    err <- GetLastError ;;
    if (err =? ERROR_ALREADY_EXISTS)%Z then ret true
    else
      SetError "Verzeichnis konnte nicht erstellt werden." ;;
      ret false.

(** The world after a lookup by [GetFileAttributesW]. *)
Definition after_lookup (env : Env) (w : World) (d : string) : World :=
  final (GetFileAttributesW env d w).

(** The sample size [StartCapture] works with: the size the device reports,
    read as an [int], floored at 144000. *)
Definition negotiated_sample_size (reported : Z) : Z :=
  if (to_int reported <? 144000)%Z then 144000 else to_int reported.

(** [m_mediaType] after the floor has been applied. *)
Definition negotiated_media_type (reported : Z) : CMediaType :=
  if (to_int reported <? 144000)%Z then mkMediaType 144000 else mkMediaType reported.

(** The engine as the [try] block of [StartCapture] leaves it when every
    step succeeds, for a device that reports [reported] as sample size. *)
Definition started (env : Env) (n : NormalizedOptions) (reported : Z) (e : Engine)
  : Engine :=
  mkEngine (m_mutex e) Capturing (m_comInitialized e) (m_deviceWide e)
    (m_deviceAnsi e) (m_previewWindow e)
    (Some (mkDVInput (m_deviceAnsi e) true))
    (if enablePreview n && negb (m_previewWindow e =? 0)%Z
     then Some (mkMonitor (m_previewWindow e)
                  (lSampleSize (negotiated_media_type reported)))
     else m_monitor e)
    (Some (mkQueue (queueSize n) (negotiated_sample_size reported) []))
    (Some (mkWriter (basePath n) (datetimeFormat n) (numericDigits n) (time env)
             (type2Avi n) (lSampleSize (negotiated_media_type reported))))
    (Some (mkThread false false))
    (negotiated_media_type reported) n (m_lastError e).

(** Capacity and sample size of the queue, when there is one. *)
Definition queue_shape (e : Engine) : option (Z * Z) :=
  option_map (fun q => (q_size q, q_sampleSize q)) (m_queue e).

(** The world an entry point hands to the member function it calls. *)
Definition world_of (p : Process) : World :=
  mkWorld (engine_of p) (p_disk p) (p_os_last_error p) (p_created p).

(** * Properties *)

(** ** Strings and paths *)

Lemma find_last_of_lt (s chars : string) (i : nat) :
  find_last_of s chars = Some i -> (i < String.length s)%nat.
Proof.
  revert i. induction s as [|c s IH]; intros i; simpl.
  - discriminate.
  - destruct (find_last_of s chars) as [j|].
    + intros [= <-]. specialize (IH j eq_refl). lia.
    + destruct (char_in c chars); [intros [= <-]; lia | discriminate].
Qed.

Lemma length_substr0 (s : string) (n : nat) :
  (n <= String.length s)%nat -> String.length (substr0 s n) = n.
Proof.
  unfold substr0. revert n. induction s as [|c s IH]; intros [|n]; simpl; intros H;
    try reflexivity; try lia.
  rewrite IH; [reflexivity | lia].
Qed.

Lemma IsEmpty_true (s : string) : IsEmpty s = true <-> s = "".
Proof. destruct s; simpl; split; intros; congruence. Qed.

Lemma IsEmpty_length (s : string) : IsEmpty s = true <-> String.length s = 0%nat.
Proof. destruct s; simpl; split; intros; congruence. Qed.

Lemma dirname_shorter (path d : wstring) :
  dirname path = Some d -> (String.length d < String.length path)%nat.
Proof.
  unfold dirname. destruct (find_last_of path separators) as [pos|] eqn:E; [|discriminate].
  intros [= <-]. apply find_last_of_lt in E. rewrite length_substr0; lia.
Qed.

(** ** Directory preparation *)

Lemma EnsureDirectories_body_ext env (self1 self2 : wstring -> M World bool) path w :
  (forall d w', (String.length d < String.length path)%nat -> self1 d w' = self2 d w') ->
  EnsureDirectories_body env self1 path w = EnsureDirectories_body env self2 path w.
Proof.
  intros Hself. unfold EnsureDirectories_body.
  destruct (IsEmpty path); [reflexivity|].
  destruct (find_last_of path separators) as [pos|] eqn:E; [|reflexivity].
  destruct (IsEmpty (substr0 path pos)); [reflexivity|].
  unfold bind.
  destruct (GetFileAttributesW env (substr0 path pos) w) as [attrs w1|x w1|w1];
    try reflexivity.
  destruct (is_directory attrs); [reflexivity|].
  rewrite Hself; [reflexivity|].
  apply find_last_of_lt in E. rewrite length_substr0; lia.
Qed.

Lemma EnsureDirectories_depth_stable env (d1 d2 : nat) path w :
  (String.length path <= d1)%nat -> (String.length path <= d2)%nat ->
  EnsureDirectories_depth env d1 path w = EnsureDirectories_depth env d2 path w.
Proof.
  revert d2 path w. induction d1 as [|d1 IH]; intros d2 path w H1 H2.
  - assert (Hp : path = "") by (destruct path; simpl in *; [reflexivity | lia]).
    subst path. destruct d2; reflexivity.
  - destruct d2 as [|d2].
    + assert (Hp : path = "") by (destruct path; simpl in *; [reflexivity | lia]).
      subst path. reflexivity.
    + simpl. apply EnsureDirectories_body_ext. intros d w' Hd. apply IH; lia.
Qed.

(** The defining equation of the recursive function of the source. *)
Lemma EnsureDirectories_unfold env path w :
  EnsureDirectories env path w
  = EnsureDirectories_body env (EnsureDirectories env) path w.
Proof.
  unfold EnsureDirectories at 1.
  destruct (String.length path) as [|n] eqn:E.
  - assert (Hp : path = "") by (destruct path; simpl in *; [reflexivity | lia]).
    subst path. reflexivity.
  - simpl. apply EnsureDirectories_body_ext. intros d w' Hd.
    unfold EnsureDirectories. apply EnsureDirectories_depth_stable; lia.
Qed.

Lemma ancestors_depth_stable (d1 d2 : nat) path :
  (String.length path <= d1)%nat -> (String.length path <= d2)%nat ->
  ancestors_depth d1 path = ancestors_depth d2 path.
Proof.
  revert d2 path. induction d1 as [|d1 IH]; intros d2 path H1 H2.
  - destruct path; simpl in *; [|lia]. destruct d2; reflexivity.
  - destruct d2 as [|d2].
    + destruct path; simpl in *; [reflexivity|lia].
    + simpl. destruct (dirname path) as [d|] eqn:E; [|reflexivity].
      apply dirname_shorter in E. destruct (IsEmpty d); [reflexivity|].
      f_equal. apply IH; lia.
Qed.

Lemma ancestors_unfold path :
  ancestors path =
  match dirname path with
  | None => []
  | Some d => if IsEmpty d then [] else (ancestors d ++ [d])%list
  end.
Proof.
  unfold ancestors at 1. destruct (String.length path) as [|n] eqn:E.
  - destruct path; simpl in *; [reflexivity|lia].
  - simpl. destruct (dirname path) as [d|] eqn:Ed; [|reflexivity].
    apply dirname_shorter in Ed. destruct (IsEmpty d); [reflexivity|].
    f_equal. unfold ancestors. apply ancestors_depth_stable; lia.
Qed.

Lemma ancestors_shorter path a :
  In a (ancestors path) -> (String.length a < String.length path)%nat.
Proof.
  remember (String.length path) as n eqn:En. revert path En a.
  induction n as [n IH] using lt_wf_ind. intros path -> a.
  rewrite ancestors_unfold. destruct (dirname path) as [d|] eqn:Ed; [|intros []].
  pose proof (dirname_shorter _ _ Ed) as Hlt.
  destruct (IsEmpty d); [intros []|].
  rewrite in_app_iff. intros [Ha|[<-|[]]]; [|exact Hlt].
  specialize (IH _ Hlt d eq_refl a Ha). lia.
Qed.

Lemma ancestors_not_self path : ~ In path (ancestors path).
Proof. intros H. apply ancestors_shorter in H. lia. Qed.

Lemma filter_none {A} (f : A -> bool) (l : list A) :
  (forall a, In a l -> f a = false) -> List.filter f l = [].
Proof.
  induction l as [|x l IH]; simpl; intros H; [reflexivity|].
  rewrite (H x (or_introl eq_refl)). apply IH. intros a Ha. apply H. now right.
Qed.

(** *** Lists without repetition *)

Lemma distinct_snoc (l : list string) (k : string) :
  distinct (l ++ [k]) =
  if decide (k ∈ distinct l) then distinct l else (distinct l ++ [k])%list.
Proof. unfold distinct. rewrite fold_left_app. reflexivity. Qed.

Lemma In_distinct (l : list string) (k : string) : In k (distinct l) <-> In k l.
Proof.
  induction l as [|x l IH] using rev_ind; [reflexivity|].
  rewrite distinct_snoc, in_app_iff. cbn [In].
  destruct (decide (x ∈ distinct l)) as [Hx|Hx].
  - apply list_elem_of_In in Hx. rewrite IH. split; [tauto|].
    intros [H|[<-|[]]]; [exact H|]. now apply IH.
  - rewrite in_app_iff, IH. cbn [In]. tauto.
Qed.

Lemma NoDup_distinct (l : list string) : List.NoDup (distinct l).
Proof.
  induction l as [|x l IH] using rev_ind; [constructor|].
  rewrite distinct_snoc. destruct (decide (x ∈ distinct l)) as [Hx|Hx]; [exact IH|].
  apply NoDup_ListNoDup, NoDup_app. split; [now apply NoDup_ListNoDup|].
  split; [|apply NoDup_singleton].
  intros a Ha Hb. apply list_elem_of_singleton in Hb. subst a. contradiction.
Qed.

Lemma names_snoc env (l : list string) (d : string) :
  names env (l ++ [d]) =
  match resolve env d with
  | Some k => (names env l ++ [k])%list
  | None => names env l
  end.
Proof.
  unfold names. rewrite omap_app. change (omap (resolve env) [d])
    with (match resolve env d with Some k => [k] | None => [] end).
  destruct (resolve env d); [reflexivity|apply app_nil_r].
Qed.

Lemma In_names env (l : list string) (k : string) :
  In k (names env l) <-> exists d, In d l /\ resolve env d = Some k.
Proof.
  unfold names. rewrite <- list_elem_of_In, list_elem_of_omap.
  split; intros (d & Hd & E); exists d; (split; [|exact E]); now apply list_elem_of_In.
Qed.

(** *** The directories to make *)

Lemma missing_directories_unfold env fs path :
  missing_directories env fs path =
  match dirname path with
  | None => []
  | Some d =>
      if IsEmpty d then []
      else
        match resolve env d with
        | Some k =>
            if missing fs k then
              if decide (k ∈ missing_directories env fs d)
              then missing_directories env fs d
              else (missing_directories env fs d ++ [k])%list
            else missing_directories env fs d
        | None => missing_directories env fs d
        end
  end.
Proof.
  unfold missing_directories at 1. rewrite ancestors_unfold.
  destruct (dirname path) as [d|]; [|reflexivity].
  destruct (IsEmpty d); [reflexivity|].
  rewrite names_snoc. destruct (resolve env d) as [k|]; [|reflexivity].
  rewrite List.filter_app. cbn [List.filter].
  destruct (missing fs k); [|now rewrite app_nil_r].
  apply distinct_snoc.
Qed.

Lemma In_missing_directories env fs path k :
  In k (missing_directories env fs path) <->
  exists d, In d (ancestors path) /\ resolve env d = Some k /\ fs !! k = None.
Proof.
  unfold missing_directories. rewrite In_distinct, List.filter_In, In_names.
  unfold missing. split.
  - intros [(d & Hd & E) Hm]. exists d. split; [exact Hd|]. split; [exact E|].
    destruct (fs !! k); [discriminate|reflexivity].
  - intros (d & Hd & E & Hm). split; [now exists d|]. now rewrite Hm.
Qed.

Lemma missing_directories_none env fs path :
  (forall d, In d (ancestors path) -> entry env fs d = Some Directory) ->
  missing_directories env fs path = [].
Proof.
  intros Hall. destruct (missing_directories env fs path) as [|k l] eqn:E; [reflexivity|].
  assert (Hk : In k (missing_directories env fs path)) by (rewrite E; now left).
  apply In_missing_directories in Hk as (d & Hd & Er & Hm).
  specialize (Hall d Hd). unfold entry in Hall. rewrite Er, Hm in Hall. discriminate.
Qed.

Lemma prepared_refl env path w :
  (forall d, In d (ancestors path) -> entry env (disk w) d = Some Directory) ->
  prepared env path w w.
Proof.
  intros Hall. unfold prepared. rewrite (missing_directories_none _ _ _ Hall).
  rewrite app_nil_r. now repeat split.
Qed.

(** What a lookup leaves as it was. *)
Lemma after_lookup_same env w d :
  disk (after_lookup env w d) = disk w /\ created (after_lookup env w d) = created w /\
  eng (after_lookup env w d) = eng w.
Proof.
  unfold after_lookup, GetFileAttributesW.
  destruct (entry env (disk w) d) as [[|]|]; now repeat split.
Qed.

Lemma GetFileAttributesW_spec env d w :
  GetFileAttributesW env d w =
  Ret (match entry env (disk w) d with
       | Some Directory => FILE_ATTRIBUTE_DIRECTORY
       | Some File => FILE_ATTRIBUTE_NORMAL
       | None => INVALID_FILE_ATTRIBUTES
       end) (after_lookup env w d).
Proof.
  unfold after_lookup, GetFileAttributesW.
  destruct (entry env (disk w) d) as [[|]|]; reflexivity.
Qed.

Lemma EnsureDirectories_prepares env path :
  forall w,
  (forall d, In d (ancestors path) -> resolve env d <> None) ->
  (forall d, In d (ancestors path) -> entry env (disk w) d <> Some File) ->
  (forall d, In d (ancestors path) -> entry env (disk w) d = Some Directory ->
     forall a, In a (ancestors d) -> entry env (disk w) a = Some Directory) ->
  (forall fs d, In d (ancestors path) ->
     (forall a, In a (ancestors d) -> entry env fs a = Some Directory) ->
     refuses env fs d = None) ->
  exists w', EnsureDirectories env path w = Ret true w' /\ prepared env path w w'.
Proof.
  remember (String.length path) as n eqn:En. revert path En.
  induction n as [n IH] using lt_wf_ind. intros path -> w Hres Hnf Hnest Hacc.
  rewrite EnsureDirectories_unfold. unfold EnsureDirectories_body.
  assert (Hnil : ancestors path = [] ->
            exists w', Ret true w = Ret true w' /\ prepared env path w w').
  { intros E. exists w. split; [reflexivity|]. apply prepared_refl.
    rewrite E. intros d []. }
  pose proof (ancestors_unfold path) as Hanc.
  pose proof (missing_directories_unfold env (disk w) path) as Hmd.
  unfold dirname in Hanc, Hmd.
  destruct (IsEmpty path) eqn:Epath.
  { apply Hnil. apply IsEmpty_true in Epath. subst path. reflexivity. }
  destruct (find_last_of path separators) as [pos|] eqn:Epos; [|now apply Hnil].
  set (directory := substr0 path pos) in *.
  assert (Hlt : (String.length directory < String.length path)%nat).
  { apply dirname_shorter. unfold dirname. now rewrite Epos. }
  destruct (IsEmpty directory) eqn:Edir; [now apply Hnil|].
  assert (Hin : In directory (ancestors path)).
  { rewrite Hanc, in_app_iff. right. now left. }
  assert (Hup : forall a, In a (ancestors directory) -> In a (ancestors path)).
  { intros a Ha. rewrite Hanc, in_app_iff. now left. }
  unfold bind at 1. rewrite GetFileAttributesW_spec.
  destruct (after_lookup_same env w directory) as (Hd1 & Hc1 & He1).
  set (w1 := after_lookup env w directory) in *.
  destruct (resolve env directory) as [k|] eqn:Ek; [|now destruct (Hres _ Hin)].
  destruct (entry env (disk w) directory) as [[|]|] eqn:Elook.
  - (* the directory is there *)
    change (is_directory FILE_ATTRIBUTE_DIRECTORY) with true. cbn iota.
    unfold w1, after_lookup, GetFileAttributesW. rewrite Elook. cbn [final].
    exists w. split; [reflexivity|]. apply prepared_refl.
    intros d. rewrite Hanc, in_app_iff. intros [Hd|[<-|[]]]; [|exact Elook].
    exact (Hnest _ Hin Elook _ Hd).
  - (* a file is in the way: excluded *)
    exfalso. exact (Hnf _ Hin Elook).
  - (* nothing there: prepare the parent, then create *)
    change (is_directory INVALID_FILE_ATTRIBUTES) with false. cbn iota.
    assert (Hfree0 : disk w !! k = None).
    { unfold entry in Elook. now rewrite Ek in Elook. }
    destruct (IH _ Hlt directory eq_refl w1) as (w2 & Hrun & He & Hcr & Hdirs & Hrest).
    { intros d Hd. apply Hres. now apply Hup. }
    { intros d Hd. rewrite Hd1. apply Hnf. now apply Hup. }
    { intros d Hd. rewrite Hd1. apply Hnest. now apply Hup. }
    { intros fs d Hd. apply Hacc. now apply Hup. }
    unfold bind at 1. rewrite Hrun. cbn [negb]. cbn iota.
    rewrite Hd1 in Hcr, Hrest. rewrite Hc1 in Hcr. rewrite He1 in He.
    unfold missing in Hmd. rewrite Hfree0 in Hmd.
    unfold bind at 1, CreateDirectoryW. rewrite Ek.
    destruct (decide (k ∈ missing_directories env (disk w) directory)) as [Hk|Hk].
    + (* made already, under another spelling *)
      assert (Hthere : disk w2 !! k = Some Directory).
      { apply list_elem_of_In, In_missing_directories in Hk as (a & Ha & Ea & _).
        specialize (Hdirs a Ha). unfold entry in Hdirs. now rewrite Ea in Hdirs. }
      rewrite Hthere. eexists. split; [reflexivity|].
      unfold prepared. cbn [eng created disk set_os_last_error].
      split; [exact He|]. split; [now rewrite Hmd|]. split.
      * intros d. rewrite Hanc, in_app_iff. intros [Hd|[<-|[]]]; [now apply Hdirs|].
        unfold entry. now rewrite Ek.
      * rewrite Hmd. exact Hrest.
    + (* made now *)
      assert (Hfree : disk w2 !! k = None).
      { rewrite Hrest; [exact Hfree0|]. intros H. apply Hk. now apply list_elem_of_In. }
      rewrite Hfree, (Hacc (disk w2) directory Hin Hdirs).
      eexists. split; [reflexivity|].
      unfold prepared. cbn [eng created disk log_created set_disk].
      split; [exact He|]. split; [now rewrite Hcr, Hmd, app_assoc|]. split.
      * intros d Hd. assert (Hd' : entry env (disk w2) d = Some Directory \/ d = directory).
        { rewrite Hanc, in_app_iff in Hd. destruct Hd as [Hd|[<-|[]]]; [left|now right].
          now apply Hdirs. }
        unfold entry in *. destruct Hd' as [Hd'| ->].
        -- destruct (resolve env d) as [k'|]; [|discriminate].
           destruct (decide (k = k')) as [<-|Hne];
             [apply lookup_insert_eq|now rewrite lookup_insert_ne].
        -- rewrite Ek. apply lookup_insert_eq.
      * rewrite Hmd. intros k' Hk'. rewrite in_app_iff in Hk'.
        rewrite lookup_insert_ne; [|intros <-; apply Hk'; right; now left].
        apply Hrest. intros H. apply Hk'. now left.
Qed.

(** A target whose directory part is there needs no preparation. *)
Lemma EnsureDirectories_present env path w :
  (forall d, dirname path = Some d -> d <> "" -> entry env (disk w) d = Some Directory) ->
  EnsureDirectories env path w = Ret true w.
Proof.
  intros Hall. rewrite EnsureDirectories_unfold. unfold EnsureDirectories_body.
  unfold dirname in Hall.
  destruct (IsEmpty path); [reflexivity|].
  destruct (find_last_of path separators) as [pos|]; [|reflexivity].
  destruct (IsEmpty (substr0 path pos)) eqn:Ee; [reflexivity|].
  unfold bind, GetFileAttributesW. rewrite (Hall _ eq_refl); [reflexivity|].
  intros E. rewrite E in Ee. discriminate.
Qed.

Lemma ancestors_NoDup path : List.NoDup (ancestors path).
Proof.
  remember (String.length path) as n eqn:En. revert path En.
  induction n as [n IH] using lt_wf_ind. intros path ->.
  rewrite ancestors_unfold. destruct (dirname path) as [d|] eqn:Ed; [|constructor].
  destruct (IsEmpty d); [constructor|].
  apply dirname_shorter in Ed.
  apply NoDup_ListNoDup, NoDup_app. repeat split.
  - apply NoDup_ListNoDup. exact (IH _ Ed d eq_refl).
  - intros a Ha Hb. apply list_elem_of_In in Ha. apply list_elem_of_In in Hb.
    destruct Hb as [<-|[]]. exact (ancestors_not_self _ Ha).
  - apply NoDup_singleton.
Qed.

(** Consecutive ancestors are parent and child: the list runs from the
    outermost directory to the innermost. *)
Lemma ancestors_chain path (i : nat) (a b : string) :
  ancestors path !! i = Some a -> ancestors path !! S i = Some b ->
  dirname b = Some a.
Proof.
  remember (String.length path) as n eqn:En. revert path En i a b.
  induction n as [n IH] using lt_wf_ind. intros path -> i a b.
  rewrite ancestors_unfold. destruct (dirname path) as [d|] eqn:Ed; [|discriminate].
  destruct (IsEmpty d) eqn:Eemp; [discriminate|].
  pose proof (dirname_shorter _ _ Ed) as Hlt.
  intros Ha Hb.
  destruct (decide (S i < length (ancestors d))%nat) as [Hin|Hout].
  - rewrite lookup_app_l in Ha by lia. rewrite lookup_app_l in Hb by lia.
    exact (IH _ Hlt d eq_refl i a b Ha Hb).
  - assert (Hlen : S i = length (ancestors d)).
    { apply lookup_lt_Some in Hb. rewrite length_app in Hb. simpl in Hb. lia. }
    rewrite lookup_app_r in Hb by lia. rewrite Hlen, Nat.sub_diag in Hb.
    injection Hb as <-.
    rewrite lookup_app_l in Ha by lia.
    rewrite ancestors_unfold in Ha, Hlen.
    destruct (dirname d) as [p|]; [|discriminate].
    destruct (IsEmpty p); [discriminate|].
    rewrite length_app in Hlen. simpl in Hlen.
    rewrite lookup_app_r in Ha by lia.
    replace (i - length (ancestors p))%nat with 0%nat in Ha by lia.
    injection Ha as <-. reflexivity.
Qed.

Lemma sublist_distinct (l : list string) : sublist (distinct l) l.
Proof.
  induction l as [|x l IH] using rev_ind; [constructor|].
  rewrite distinct_snoc. destruct (decide (x ∈ distinct l)).
  - now apply sublist_inserts_r.
  - now apply sublist_app.
Qed.

Lemma sublist_List_filter {A} (f : A -> bool) (l : list A) : sublist (List.filter f l) l.
Proof.
  induction l as [|x l IH]; [constructor|]. cbn [List.filter].
  destruct (f x); [now apply sublist_skip|now apply sublist_cons].
Qed.

(** The directories to make are listed in the order of the ancestors. *)
Lemma missing_directories_ordered env fs path :
  sublist (missing_directories env fs path) (names env (ancestors path)).
Proof.
  unfold missing_directories. etransitivity; [apply sublist_distinct|].
  apply sublist_List_filter.
Qed.

(** C8, as stated, fails where the host does not make the directory.  A
    target under a directory with a name the host does not accept, and a
    target under a directory the program may not create, each have one
    missing ancestor; [EnsureDirectories] creates nothing and returns
    [false]. *)
Lemma refused_directory_is_not_created :
  ancestors path_reserved = ["a|b?"] /\
  entry env_ok (disk world_new) "a|b?" = None /\
  returned (EnsureDirectories env_ok path_reserved world_new) = Some false /\
  created (final (EnsureDirectories env_ok path_reserved world_new)) = [] /\
  ancestors "out\clip" = ["out"] /\
  entry env_read_only (disk world_new) "out" = None /\
  returned (EnsureDirectories env_read_only "out\clip" world_new) = Some false /\
  created (final (EnsureDirectories env_read_only "out\clip" world_new)) = [] /\
  disk (final (EnsureDirectories env_read_only "out\clip" world_new)) = disk world_new.
Proof. repeat split; vm_compute; reflexivity. Qed.

(** C8, amended.  Directory preparation, for a target path the host lets
    the program prepare: the host accepts the name of every ancestor
    directory of the path and does not decline to create one whose own
    ancestors are there.  As the claim has it, each ancestor is a
    directory or missing, never a file, and the ancestors of one that is
    there are there.  Then [EnsureDirectories] succeeds and creates
    exactly the missing ancestor directories, each once, also where the
    path runs through two spellings of one directory; they are created in
    the order of the ancestor list, which runs from the outermost
    directory to the innermost (each entry is the directory part of the
    next); afterwards every ancestor is a directory, everything else in
    the file system is as it was, and a second run succeeds and changes
    nothing. *)
Theorem EnsureDirectories_creates_missing_ancestors (env : Env) (path : wstring)
    (w : World) :
  (forall d, In d (ancestors path) -> resolve env d <> None) ->
  (forall fs d, In d (ancestors path) ->
     (forall a, In a (ancestors d) -> entry env fs a = Some Directory) ->
     refuses env fs d = None) ->
  (forall d, In d (ancestors path) -> entry env (disk w) d <> Some File) ->
  (forall d, In d (ancestors path) -> entry env (disk w) d = Some Directory ->
     forall a, In a (ancestors d) -> entry env (disk w) a = Some Directory) ->
  exists w',
    EnsureDirectories env path w = Ret true w' /\
    created w' = (created w ++ missing_directories env (disk w) path)%list /\
    (forall k, In k (missing_directories env (disk w) path) <->
       exists d, In d (ancestors path) /\ resolve env d = Some k /\ disk w !! k = None) /\
    List.NoDup (missing_directories env (disk w) path) /\
    sublist (missing_directories env (disk w) path) (names env (ancestors path)) /\
    (forall (i : nat) (a b : string),
        ancestors path !! i = Some a -> ancestors path !! S i = Some b ->
        dirname b = Some a) /\
    (forall d, In d (ancestors path) -> entry env (disk w') d = Some Directory) /\
    (forall k, ~ In k (missing_directories env (disk w) path) ->
       disk w' !! k = disk w !! k) /\
    EnsureDirectories env path w' = Ret true w'.
Proof.
  intros Hres Hacc Hnf Hnest.
  destruct (EnsureDirectories_prepares env path w Hres Hnf Hnest Hacc)
    as (w' & Hrun & He & Hcr & Hdirs & Hrest).
  exists w'. split; [exact Hrun|]. split; [exact Hcr|].
  split; [intros k; apply In_missing_directories|].
  split; [apply NoDup_distinct|]. split; [apply missing_directories_ordered|].
  split; [apply ancestors_chain|].
  split; [exact Hdirs|]. split; [exact Hrest|].
  apply EnsureDirectories_present. intros d Hd Hne. apply Hdirs.
  rewrite ancestors_unfold, Hd.
  destruct (IsEmpty d) eqn:Ee; [apply IsEmpty_true in Ee; contradiction|].
  rewrite in_app_iff. right. now left.
Qed.

(** Two spellings of one directory.  With a doubled separator the second
    attempt at the directory is answered with [ERROR_ALREADY_EXISTS] and
    one directory is made; a directory made under backslashes is found
    again under slashes. *)
Lemma EnsureDirectories_other_spelling :
  ancestors "out//clip" = ["out"; "out/"] /\
  EnsureDirectories env_ok "out//clip" world_new
    = Ret true (mkWorld WinDVCaptureEngine {[ "out" := Directory ]}
                  ERROR_ALREADY_EXISTS ["out"]) /\
  created (final (EnsureDirectories env_ok "takes/day2/clip"
                    (final (EnsureDirectories env_ok "takes\day2\clip" world_new))))
    = ["takes"; "takes\day2"].
Proof. repeat split; vm_compute; reflexivity. Qed.

(** Outside the hypotheses of the theorem: when a file has the name of the
    directory, [CreateDirectoryW] fails with [ERROR_ALREADY_EXISTS], which
    [EnsureDirectories] takes for success; nothing is created. *)
Lemma EnsureDirectories_accepts_a_file :
  let w := mkWorld WinDVCaptureEngine {[ "out" := File ]} 0 [] in
  returned (EnsureDirectories env_ok "out\clip.avi" w) = Some true /\
  created (final (EnsureDirectories env_ok "out\clip.avi" w)) = [] /\
  disk (final (EnsureDirectories env_ok "out\clip.avi" w)) = disk w.
Proof. repeat split; vm_compute; reflexivity. Qed.


(** ** Option normalisation *)

Lemma append_String (c : ascii) (s t : string) :
  String c s ++ t = String c (s ++ t).
Proof. reflexivity. Qed.

Lemma append_assoc (s t u : string) : (s ++ t) ++ u = s ++ (t ++ u).
Proof.
  induction s as [|c s IH]; [reflexivity|].
  now rewrite !append_String, IH.
Qed.

Lemma back_Some (s : string) (c : ascii) :
  back s = Some c <-> exists p, s = p ++ String c "".
Proof.
  split.
  - revert c. induction s as [|a s IH]; intros c; simpl; [discriminate|].
    destruct s as [|b s].
    + intros [= <-]. exists "". reflexivity.
    + intros H. destruct (IH c H) as [p Hp]. exists (String a p). rewrite Hp. reflexivity.
  - intros [p ->]. induction p as [|a p IH]; simpl; [reflexivity|].
    destruct (p ++ String c "") eqn:E; [|exact IH].
    destruct p; discriminate.
Qed.

Lemma ends_with_separator_spec (s : string) :
  ends_with_separator s = true <-> has_trailing_separator s.
Proof.
  unfold ends_with_separator, has_trailing_separator. split.
  - destruct (back s) as [c|] eqn:E; [|discriminate].
    apply back_Some in E as [p ->]. intros H. exists p.
    apply orb_true_iff in H as [H|H]; apply Ascii.eqb_eq in H; subst c; [left|right]; reflexivity.
  - intros [p [->| ->]].
    + replace (back (p ++ "\")) with (Some backslash); [reflexivity|].
      symmetry. apply back_Some. now exists p.
    + replace (back (p ++ "/")) with (Some slash); [reflexivity|].
      symmetry. apply back_Some. now exists p.
Qed.

Lemma given_Some (p : option string) (s : string) :
  given p = Some s <-> p = Some s /\ s <> "".
Proof.
  unfold given. destruct p as [[|c t]|]; simpl; split; try (intros [H1 H2]); try intros H;
    try discriminate; try congruence; try (split; congruence).
Qed.

Lemma given_None (p : option string) :
  given p = None <-> p = None \/ p = Some "".
Proof.
  unfold given. destruct p as [[|c t]|]; simpl; split; intros H; try discriminate; auto;
    destruct H; discriminate.
Qed.

(** C7. Option normalisation.  A numeric suffix width of zero or less
    becomes 0 and a positive one is kept; a queue capacity of zero or less
    becomes 120 and a positive one is kept; the two flags keep their truth
    value; an empty or missing timestamp format becomes the default
    pattern; the base path is the output directory, followed by a
    backslash when the directory does not already end in a separator,
    followed by the base file name, where an empty or missing name is
    replaced by the default name (an empty or missing directory
    contributes nothing). *)
Theorem Normalize_policy (env : Env) (o : WindvCaptureOptions) :
  let n := Normalize env o in
  (numeric_suffix_digits o <= 0 -> numericDigits n = 0) /\
  (0 < numeric_suffix_digits o -> numericDigits n = numeric_suffix_digits o) /\
  (queue_size o <= 0 -> queueSize n = 120) /\
  (0 < queue_size o -> queueSize n = queue_size o) /\
  (enablePreview n = true <-> enable_preview o <> 0) /\
  (type2Avi n = true <-> type2_avi o <> 0) /\
  (forall fmt, datetime_format o = Some fmt -> fmt <> "" ->
     datetimeFormat n = WideCharToMultiByte env fmt) /\
  (datetime_format o = None \/ datetime_format o = Some "" ->
     datetimeFormat n = "%Y%m%d_%H%M%S") /\
  (forall name, effective_name o name ->
     (forall dir, output_directory o = Some dir -> dir <> "" ->
        ~ has_trailing_separator dir ->
        basePath n = WideCharToMultiByte env (dir ++ "\" ++ name)) /\
     (forall dir, output_directory o = Some dir -> has_trailing_separator dir ->
        basePath n = WideCharToMultiByte env (dir ++ name)) /\
     (output_directory o = None \/ output_directory o = Some "" ->
        basePath n = WideCharToMultiByte env name)).
Proof.
  unfold Normalize. cbn [numericDigits queueSize enablePreview type2Avi datetimeFormat basePath].
  repeat split.
  - intros H. destruct (Z.gtb_spec (numeric_suffix_digits o) 0); [lia|reflexivity].
  - intros H. destruct (Z.gtb_spec (numeric_suffix_digits o) 0); [reflexivity|lia].
  - intros H. destruct (Z.gtb_spec (queue_size o) 0); [lia|reflexivity].
  - intros H. destruct (Z.gtb_spec (queue_size o) 0); [reflexivity|lia].
  - destruct (Z.eqb_spec (enable_preview o) 0); simpl; congruence.
  - destruct (Z.eqb_spec (enable_preview o) 0); simpl; congruence.
  - destruct (Z.eqb_spec (type2_avi o) 0); simpl; congruence.
  - destruct (Z.eqb_spec (type2_avi o) 0); simpl; congruence.
  - intros fmt H1 H2. now rewrite (proj2 (given_Some _ _) (conj H1 H2)).
  - intros H. now rewrite (proj2 (given_None _) H).
  - intros dir Hd Hne Hsep.
    rewrite (proj2 (given_Some _ _) (conj Hd Hne)).
    assert (E1 : IsEmpty dir = false) by (destruct dir; [congruence|reflexivity]).
    assert (E2 : ends_with_separator dir = false).
    { destruct (ends_with_separator dir) eqn:E; [|reflexivity].
      apply ends_with_separator_spec in E. contradiction. }
    rewrite E1, E2. cbn [negb andb].
    assert (En : given (file_base_name o) = Some name \/
                 (given (file_base_name o) = None /\ name = "capture")).
    { destruct H as [[? ?]|[? ?]]; [left; now apply given_Some | right; split; [now apply given_None|assumption]]. }
    destruct En as [-> | [-> ->]]; f_equal; apply append_assoc.
  - intros dir Hd Hsep.
    assert (Hne : dir <> "").
    { destruct Hsep as [p [-> | ->]]; destruct p; discriminate. }
    rewrite (proj2 (given_Some _ _) (conj Hd Hne)).
    rewrite (proj2 (ends_with_separator_spec dir) Hsep), andb_false_r.
    destruct H as [[? ?]|[? ->]].
    + now rewrite (proj2 (given_Some _ _) (conj H H0)).
    + now rewrite (proj2 (given_None _) H).
  - intros Hd. rewrite (proj2 (given_None _) Hd).
    destruct H as [[? ?]|[? ->]].
    + now rewrite (proj2 (given_Some _ _) (conj H H0)).
    + now rewrite (proj2 (given_None _) H).
Qed.

(** ** The consumer loop *)

Lemma CaptureThread_app sinks e pre more :
  CaptureThread sinks e (pre ++ more) =
  match snd (CaptureThread sinks e pre) with
  | StillRunning =>
      ((fst (CaptureThread sinks e pre) ++ fst (CaptureThread sinks e more))%list,
       snd (CaptureThread sinks e more))
  | _ => CaptureThread sinks e pre
  end.
Proof.
  induction pre as [|o pre IH]; cbn [CaptureThread app fst snd].
  - now destruct (CaptureThread sinks e more).
  - destruct (negb (State_eqb (seen_state o) Capturing)); [reflexivity|].
    destruct (got o) as [f|]; [|exact IH].
    destruct (data f); [|reflexivity].
    destruct (snd (fan_out sinks e (m_load o) f)); [reflexivity|].
    rewrite IH. destruct (CaptureThread sinks e pre) as [calls1 end1].
    cbn [fst snd]. destruct end1; cbn [fst snd]; try reflexivity.
    now rewrite app_assoc.
Qed.

(** The loop continued after [pre], when it is still running then. *)
Lemma CaptureThread_continue sinks e pre more calls :
  CaptureThread sinks e pre = (calls, StillRunning) ->
  CaptureThread sinks e (pre ++ more) =
  ((calls ++ fst (CaptureThread sinks e more))%list, snd (CaptureThread sinks e more)).
Proof. intros H. rewrite CaptureThread_app, H. reflexivity. Qed.

Lemma fan_out_frames sinks e load f c :
  In c (fst (fan_out sinks e load f)) -> call_frame c = f.
Proof.
  unfold fan_out. destruct (preview_due e load); cbn [fst snd].
  - destruct (monitor_HandleFrame sinks f); cbn [fst].
    + intros [<-|[]]. reflexivity.
    + destruct (m_writer e); cbn [fst]; [intros [<-|[<-|[]]] | intros [<-|[]]]; reflexivity.
  - destruct (m_writer e); cbn [fst]; [intros [<-|[]] | intros []]; reflexivity.
Qed.

Lemma CaptureThread_frames sinks e obs c :
  In c (fst (CaptureThread sinks e obs)) -> data (call_frame c) <> None.
Proof.
  induction obs as [|o obs IH]; cbn [CaptureThread fst]; [intros []|].
  destruct (negb (State_eqb (seen_state o) Capturing)); [intros []|].
  destruct (got o) as [f|]; [|exact IH].
  destruct (data f) eqn:Ef; [|intros []].
  destruct (snd (fan_out sinks e (m_load o) f)); cbn [fst].
  - intros H. apply fan_out_frames in H. rewrite H, Ef. discriminate.
  - rewrite in_app_iff. intros [H|H]; [|exact (IH H)].
    apply fan_out_frames in H. rewrite H, Ef. discriminate.
Qed.

(** C4. The sentinel is never forwarded.  When the loop is still running
    and the entry it dequeues is the sentinel, [CaptureThread] is left at
    once through the [break]: the sink invocations are those made before,
    and whatever would have been observed afterwards plays no part.  In
    any run of the loop, no sink invocation carries a frame with a null
    buffer, the sentinel in particular. *)
Theorem sentinel_never_forwarded (sinks : Sinks) (e : Engine) :
  (forall pre o rest calls,
      CaptureThread sinks e pre = (calls, StillRunning) ->
      seen_state o = Capturing ->
      got o = Some sentinel ->
      CaptureThread sinks e (pre ++ o :: rest) = (calls, SentinelBreak)) /\
  (forall obs c,
      In c (fst (CaptureThread sinks e obs)) ->
      data (call_frame c) <> None /\ call_frame c <> sentinel).
Proof.
  split.
  - intros pre o rest calls Hpre Hst Hgot.
    rewrite (CaptureThread_continue _ _ _ _ _ Hpre).
    cbn [CaptureThread]. rewrite Hst, Hgot. cbn. now rewrite app_nil_r.
  - intros obs c Hc. pose proof (CaptureThread_frames _ _ _ _ Hc) as Hd.
    split; [exact Hd|]. intros E. rewrite E in Hd. now apply Hd.
Qed.

Lemma quot2_half (load size : Z) : load < Z.quot size 2 -> 2 * load < size.
Proof.
  intros H. pose proof (Z.quot_rem' size 2) as E.
  assert (Hr : -2 < Z.rem size 2).
  { destruct (Z.le_gt_cases 0 size) as [Hs|Hs].
    - pose proof (Z.rem_bound_pos size 2 Hs ltac:(lia)). lia.
    - pose proof (Z.rem_bound_pos_neg size 2 ltac:(lia) ltac:(lia)). lia. }
  lia.
Qed.

Lemma preview_due_spec e load :
  preview_due e load = true <->
  m_monitor e <> None /\ enablePreview (m_options e) = true /\
  load < Z.quot (queueSize (m_options e)) 2.
Proof.
  unfold preview_due. destruct (m_monitor e).
  - rewrite andb_true_iff, Z.ltb_lt. intuition congruence.
  - intuition congruence.
Qed.

(** C5, as stated, fails: whether the writer gets a frame depends on the
    preview renderer and, through it, on the load of the queue.  With a
    writer present and a preview renderer that throws, a frame dequeued at
    a load below half the capacity reaches the preview renderer only; the
    same frame dequeued at a load of half the capacity reaches the
    writer. *)
Lemma writer_waits_for_the_preview :
  m_writer engine_both_sinks <> None /\
  queueSize (m_options engine_both_sinks) = 4 /\
  CaptureThread sinks_preview_fails engine_both_sinks
    [mkObservation Capturing (Some frame1) 0]
    = ([PreviewCall frame1], Escaped (CDShowException "render failed")) /\
  ~ In (WriterCall frame1)
       (fst (CaptureThread sinks_preview_fails engine_both_sinks
               [mkObservation Capturing (Some frame1) 0])) /\
  CaptureThread sinks_preview_fails engine_both_sinks
    [mkObservation Capturing (Some frame1) 2]
    = ([WriterCall frame1], StillRunning).
Proof.
  split; [vm_compute; discriminate|].
  repeat split; try (vm_compute; reflexivity).
  vm_compute. intros [H|[]]. discriminate.
Qed.

(** C5, amended.  Fan-out of a frame.  For a dequeued frame with a buffer,
    while the loop is running, the sink invocations of that pass are, in
    this order, at most one of the preview renderer and at most one of the
    writer.  The preview renderer is invoked exactly when it exists,
    preview is enabled and the queue load is below [queueSize / 2]
    (integer division), hence never at a load of half the capacity or
    more.  The writer is invoked exactly when it exists and the preview
    renderer, if it was invoked for the frame, has returned normally; the
    load plays no other part. *)
Theorem fan_out_order (sinks : Sinks) (e : Engine) (pre : list Observation)
    (o : Observation) (f : Frame) (calls : list SinkCall) :
  CaptureThread sinks e pre = (calls, StillRunning) ->
  seen_state o = Capturing ->
  got o = Some f ->
  data f <> None ->
  exists preview writer : bool,
    fst (CaptureThread sinks e (pre ++ [o])) =
      (calls ++ (if preview then [PreviewCall f] else [])
             ++ (if writer then [WriterCall f] else []))%list /\
    (preview = true <->
       m_monitor e <> None /\ enablePreview (m_options e) = true /\
       m_load o < Z.quot (queueSize (m_options e)) 2) /\
    (preview = true -> 2 * m_load o < queueSize (m_options e)) /\
    (writer = true <->
       m_writer e <> None /\
       (preview = true -> monitor_HandleFrame sinks f = None)).
Proof.
  intros Hpre Hst Hgot Hdata.
  exists (preview_due e (m_load o)),
    (match m_writer e with
     | Some _ =>
         if preview_due e (m_load o)
         then match monitor_HandleFrame sinks f with None => true | Some _ => false end
         else true
     | None => false
     end).
  split; [|split; [apply preview_due_spec|split]].
  - rewrite (CaptureThread_continue _ _ _ _ _ Hpre). cbn [CaptureThread fst].
    rewrite Hst, Hgot. cbn [State_eqb negb].
    destruct (data f); [|congruence]. f_equal.
    unfold fan_out.
    destruct (preview_due e (m_load o)); cbn [fst snd];
      destruct (monitor_HandleFrame sinks f); cbn [fst snd];
      destruct (m_writer e); cbn [fst snd];
      destruct (writer_HandleFrame sinks f); cbn [fst snd]; now rewrite ?app_nil_r.
  - intros H. apply preview_due_spec in H as (_ & _ & H). now apply quot2_half.
  - destruct (m_writer e); [|split; [discriminate|intros [H _]; congruence]].
    destruct (preview_due e (m_load o)).
    + destruct (monitor_HandleFrame sinks f).
      * split; [discriminate|]. intros [_ H]. specialize (H eq_refl). discriminate.
      * split; [intros _; split; [discriminate|reflexivity]|reflexivity].
    + split; [intros _; split; [discriminate|discriminate]|reflexivity].
Qed.

(** C6, as stated, fails: with a preview renderer that throws, the writer
    is not invoked for the frame, the exception leaves [CaptureThread], and
    the next frame reaches neither sink, whereas with well-behaved sinks
    both frames reach both sinks. *)
Lemma preview_failure_ends_the_loop :
  monitor_HandleFrame sinks_preview_fails frame1 = Some (CDShowException "render failed") /\
  CaptureThread sinks_ok engine_both_sinks two_frames =
    ([PreviewCall frame1; WriterCall frame1; PreviewCall frame2; WriterCall frame2],
     StillRunning) /\
  CaptureThread sinks_preview_fails engine_both_sinks two_frames =
    ([PreviewCall frame1], Escaped (CDShowException "render failed")) /\
  ~ In (WriterCall frame1)
       (fst (CaptureThread sinks_preview_fails engine_both_sinks two_frames)) /\
  ~ In (WriterCall frame2)
       (fst (CaptureThread sinks_preview_fails engine_both_sinks two_frames)).
Proof.
  repeat split; try reflexivity.
  - vm_compute. intros [H|[]]. discriminate.
  - vm_compute. intros [H|[]]. discriminate.
Qed.

(** C6, amended.  The loop does not contain a sink failure.  For a
    dequeued frame with a buffer, while the loop is running: an exception
    thrown by the preview renderer leaves [CaptureThread] right after
    that invocation, before the writer is invoked; an exception thrown by
    the writer leaves it right after that invocation; in both cases no
    later frame is processed.  When neither sink throws, the frame is
    fanned out and the loop goes on with the next entry. *)
Theorem sink_failure_leaves_the_loop (sinks : Sinks) (e : Engine)
    (pre : list Observation) (o : Observation) (rest : list Observation)
    (f : Frame) (calls : list SinkCall) :
  CaptureThread sinks e pre = (calls, StillRunning) ->
  seen_state o = Capturing ->
  got o = Some f ->
  data f <> None ->
  (forall x,
      preview_due e (m_load o) = true ->
      monitor_HandleFrame sinks f = Some x ->
      CaptureThread sinks e (pre ++ o :: rest) =
        ((calls ++ [PreviewCall f])%list, Escaped x)) /\
  (forall x,
      (preview_due e (m_load o) = true -> monitor_HandleFrame sinks f = None) ->
      m_writer e <> None ->
      writer_HandleFrame sinks f = Some x ->
      CaptureThread sinks e (pre ++ o :: rest) =
        ((calls ++ (if preview_due e (m_load o) then [PreviewCall f] else [])
                ++ [WriterCall f])%list, Escaped x)) /\
  (monitor_HandleFrame sinks f = None ->
   writer_HandleFrame sinks f = None ->
   CaptureThread sinks e (pre ++ o :: rest) =
     ((calls ++ (if preview_due e (m_load o) then [PreviewCall f] else [])
             ++ (match m_writer e with Some _ => [WriterCall f] | None => [] end)
             ++ fst (CaptureThread sinks e rest))%list,
      snd (CaptureThread sinks e rest))).
Proof.
  intros Hpre Hst Hgot Hdata.
  rewrite (CaptureThread_continue _ _ _ _ _ Hpre). cbn [CaptureThread].
  rewrite Hst, Hgot. cbn [State_eqb negb].
  destruct (data f); [|congruence]. unfold fan_out.
  split; [|split].
  - intros x Hdue Hmon. rewrite Hdue, Hmon. reflexivity.
  - intros x Hmon Hw Hwx. destruct (preview_due e (m_load o)).
    + rewrite (Hmon eq_refl). cbn [fst snd]. destruct (m_writer e); [|congruence].
      rewrite Hwx. reflexivity.
    + cbn [fst snd]. destruct (m_writer e); [|congruence]. rewrite Hwx. reflexivity.
  - intros Hmon Hwr. rewrite Hmon.
    destruct (preview_due e (m_load o)); cbn [fst snd];
      destruct (m_writer e); cbn [fst snd]; rewrite ?Hwr; cbn [fst snd];
      rewrite <- ?app_assoc; reflexivity.
Qed.

(** ** The session *)

Lemma neutral_same_session e e' : neutral e' = neutral e -> same_session e e'.
Proof.
  intros H. unfold same_session.
  repeat split;
    [ change (m_state (neutral e') = m_state (neutral e))
    | change (m_dvInput (neutral e') = m_dvInput (neutral e))
    | change (m_monitor (neutral e') = m_monitor (neutral e))
    | change (m_queue (neutral e') = m_queue (neutral e))
    | change (m_writer (neutral e') = m_writer (neutral e))
    | change (m_captureThread (neutral e') = m_captureThread (neutral e))
    | change (m_options (neutral e') = m_options (neutral e)) ];
    now rewrite H.
Qed.

Lemma SetError_spec message w :
  SetError message w =
  if m_mutex (eng w) then Relock w
  else Ret tt (on_eng (set_lastError message) w).
Proof.
  unfold SetError, lock_guard, lock, modify.
  destruct w as [e fs err log]. destruct e. cbn.
  destruct m_mutex0; reflexivity.
Qed.

Lemma Initialize_spec env w :
  m_mutex (eng w) = false ->
  Initialize env w =
  if m_comInitialized (eng w) then Ret true w
  else if FAILED (CoInitializeEx env) && negb (CoInitializeEx env =? RPC_E_CHANGED_MODE)%Z
       then Relock (on_eng (set_mutex true) w)
       else Ret true (on_eng (set_comInitialized true) w).
Proof.
  unfold Initialize, lock_guard, lock, bind, gets, modify, ret.
  destruct w as [e fs err log]. destruct e. cbn. intros ->.
  destruct m_comInitialized0; cbn; [reflexivity|].
  destruct (FAILED (CoInitializeEx env) && negb (CoInitializeEx env =? RPC_E_CHANGED_MODE)%Z);
    [rewrite SetError_spec|]; reflexivity.
Qed.

(** [StopCapture] entered without the mutex: it returns; an idle session is
    left as it is, any other is torn down. *)
Lemma StopCapture_spec w :
  m_mutex (eng w) = false ->
  StopCapture w =
  match m_state (eng w) with
  | Idle => Ret tt w
  | _ =>
      Ret tt (on_eng (fun e =>
        set_state Idle (set_queue None (set_writer None (set_monitor None
          (set_dvInput None (set_captureThread None e)))))) w)
  end.
Proof.
  unfold StopCapture, release, lock, unlock, bind, gets, modify, ret.
  destruct w as [e fs err log]. destruct e. cbn. intros ->.
  destruct m_state0; cbn; try reflexivity;
    destruct m_queue0, m_captureThread0, m_dvInput0, m_monitor0, m_writer0; reflexivity.
Qed.

Lemma StopCapture_locked w :
  m_mutex (eng w) = true -> StopCapture w = Relock w.
Proof.
  unfold StopCapture, lock, bind. intros ->. reflexivity.
Qed.

Lemma keeps_engine_mutex {A} w (a : A) w' :
  keeps_engine w (Ret a w') -> m_mutex (eng w') = m_mutex (eng w).
Proof.
  cbn. intros H.
  change (m_mutex (set_lastError "" (eng w')) = m_mutex (set_lastError "" (eng w))).
  now rewrite H.
Qed.

Lemma keeps_engine_neutral {A} w (r : result World A) :
  keeps_engine w r -> neutral (eng (final r)) = neutral (eng w).
Proof.
  assert (Hn : forall e e', set_lastError "" e' = set_lastError "" e -> neutral e' = neutral e).
  { intros e e' H. unfold neutral. now rewrite H. }
  destruct r as [a w'|x w'|w']; cbn [keeps_engine final].
  - apply Hn.
  - intros [].
  - intros [H _]. now apply Hn.
Qed.

Lemma SetError_keeps message w : keeps_engine w (SetError message w).
Proof.
  rewrite SetError_spec. destruct (m_mutex (eng w)) eqn:E; cbn; [now split|].
  destruct w as [e fs err log]. destruct e. reflexivity.
Qed.

Lemma EnsureDirectories_body_keeps env (self : string -> M World bool) path :
  (forall d w, keeps_engine w (self d w)) ->
  forall w, keeps_engine w (EnsureDirectories_body env self path w).
Proof.
  intros Hself w. unfold EnsureDirectories_body.
  destruct (IsEmpty path); [reflexivity|].
  destruct (find_last_of path separators) as [pos|]; [|reflexivity].
  destruct (IsEmpty (substr0 path pos)); [reflexivity|].
  unfold bind at 1.
  assert (Hget : exists attrs w1, GetFileAttributesW env (substr0 path pos) w = Ret attrs w1
                                  /\ eng w1 = eng w).
  { rewrite GetFileAttributesW_spec. eexists _, _. split; [reflexivity|].
    apply after_lookup_same. }
  destruct Hget as (attrs & w1 & -> & E1).
  destruct (is_directory attrs); [cbn; now rewrite E1|].
  unfold bind at 1. specialize (Hself (substr0 path pos) w1).
  destruct (self (substr0 path pos) w1) as [ok w2|x w2|w2]; cbn in Hself |- *;
    [rewrite E1 in Hself | exact Hself | rewrite E1 in Hself; exact Hself].
  destruct ok; cbn [negb]; [|exact Hself].
  unfold bind at 1.
  assert (Hmk : exists made w3, CreateDirectoryW env (substr0 path pos) w2 = Ret made w3
                                /\ eng w3 = eng w2).
  { unfold CreateDirectoryW. destruct (resolve env (substr0 path pos)) as [k|]; [|eauto].
    destruct (disk w2 !! k); [eauto|].
    destruct (refuses env (disk w2) (substr0 path pos)); eauto. }
  destruct Hmk as (made & w3 & -> & E3).
  destruct made; [cbn; now rewrite E3|].
  unfold bind at 1, GetLastError, gets.
  destruct (os_last_error w3 =? ERROR_ALREADY_EXISTS)%Z; [cbn; now rewrite E3|].
  unfold bind. pose proof (SetError_keeps "Verzeichnis konnte nicht erstellt werden." w3) as Hs.
  destruct (SetError _ w3) as [u w4|x w4|w4]; cbn in Hs |- *; rewrite ?E3 in Hs.
  - now rewrite Hs.
  - exact Hs.
  - destruct Hs as [Hs Hm]. split; [now rewrite Hs|].
    change (m_mutex (set_lastError "" (eng w)) = true). rewrite <- Hself. exact Hm.
Qed.

Lemma EnsureDirectories_keeps env path w : keeps_engine w (EnsureDirectories env path w).
Proof.
  unfold EnsureDirectories. generalize (String.length path) as depth. intros depth.
  revert path w. induction depth as [|depth IH]; intros path w; cbn [EnsureDirectories_depth];
    apply EnsureDirectories_body_keeps; [reflexivity|exact IH].
Qed.

(** Inside the guarded block of [StartCapture] the mutex is held.  The
    [try] block then returns only with the session capturing; it throws
    only before the state flag is touched; and the path taken when no
    thread could be started ends at [SetError]. *)
Lemma StartCapture_try_locked env n w :
  m_mutex (eng w) = true ->
  match StartCapture_try env n w with
  | Ret ok w' =>
      ok = true /\ m_state (eng w') = Capturing /\ m_mutex (eng w') = true /\
      m_captureThread (eng w') <> None
  | Throw _ w' => m_mutex (eng w') = true /\ m_state (eng w') = m_state (eng w)
  | Relock _ => True
  end.
Proof.
  intros Hm. unfold StartCapture_try, bind, gets, modify, ret.
  destruct (new_CDVInput env (m_deviceAnsi (eng w))) as [[]|x]; cbn; [|now split].
  destruct (GetMediaType env) as [reported|x]; cbn; [|now split].
  destruct (to_int reported <? 144000)%Z; cbn.
  all: destruct (new_CDVQueue env _ _) as [[]|x]; cbn; [|now split].
  all: destruct (enablePreview n && negb (m_previewWindow (eng w) =? 0)%Z); cbn.
  all: try (destruct (new_CMonitor env _) as [[]|x]; cbn; [|now split]).
  all: destruct (new_CAVIWriter env _ _) as [[]|x]; cbn; [|now split].
  all: destruct (Run env) as [[]|x]; cbn; [|now split].
  all: destruct (AfxBeginThread env); cbn; [repeat split; congruence|].
  all: rewrite SetError_spec; cbn; now rewrite Hm.
Qed.

Lemma StartCapture_catch_locked x w :
  m_mutex (eng w) = true -> StartCapture_catch x w = Relock w.
Proof.
  intros Hm. destruct x; unfold StartCapture_catch, bind; rewrite SetError_spec, Hm;
    reflexivity.
Qed.

(** The guarded block of [StartCapture], entered without the mutex. *)
Lemma StartCapture_guarded env n w :
  m_mutex (eng w) = false ->
  match lock_guard (
          st <- gets (fun w => m_state (eng w)) ;;
          if negb (State_eqb st Idle) then
            SetError "Aufnahme läuft bereits." ;;
            ret false
          else
            try_catch (StartCapture_try env n) StartCapture_catch) w with
  | Ret ok w' =>
      ok = true /\ m_state (eng w) = Idle /\ m_state (eng w') = Capturing /\
      m_mutex (eng w') = false /\ m_captureThread (eng w') <> None
  | Throw _ _ => False
  | Relock w' =>
      m_state (eng w) <> Idle -> w' = on_eng (set_mutex true) w
  end.
Proof.
  intros Hm. unfold lock_guard, lock. rewrite Hm. unfold bind at 1, gets.
  change (m_state (eng (on_eng (set_mutex true) w))) with (m_state (eng w)).
  destruct (m_state (eng w)) eqn:Est; cbn [State_eqb negb].
  - unfold try_catch.
    pose proof (StartCapture_try_locked env n (on_eng (set_mutex true) w) eq_refl) as H.
    destruct (StartCapture_try env n (on_eng (set_mutex true) w)) as [ok w'|x w'|w'].
    + destruct H as (-> & Hs & _ & Ht). repeat split; assumption.
    + destruct H as [Hm' _]. rewrite (StartCapture_catch_locked _ _ Hm'). congruence.
    + congruence.
  - unfold bind. rewrite SetError_spec. cbn. reflexivity.
  - unfold bind. rewrite SetError_spec. cbn. reflexivity.
Qed.

Lemma neutral_set_lastError message e : neutral (set_lastError message e) = neutral e.
Proof. reflexivity. Qed.

Lemma neutral_set_comInitialized v e : neutral (set_comInitialized v e) = neutral e.
Proof. reflexivity. Qed.

Lemma neutral_set_mutex v e : neutral (set_mutex v e) = neutral e.
Proof. reflexivity. Qed.

Lemma neutral_state e e' : neutral e' = neutral e -> m_state e' = m_state e.
Proof. intros H. apply neutral_same_session in H. apply H. Qed.

(** [StartCapture] entered without the mutex.  It returns failure only
    from its validation steps, with the session untouched; it returns
    success only from an idle session, which is then capturing; it never
    lets an exception out. *)
Lemma StartCapture_outcome env o w :
  m_mutex (eng w) = false ->
  match StartCapture env o w with
  | Ret ok w' =>
      m_mutex (eng w') = false /\
      ((ok = false /\ neutral (eng w') = neutral (eng w)) \/
       (ok = true /\ m_state (eng w) = Idle /\ m_state (eng w') = Capturing /\
        m_captureThread (eng w') <> None))
  | Throw _ _ => False
  | Relock w' => m_state (eng w) <> Idle -> neutral (eng w') = neutral (eng w)
  end.
Proof.
  intros Hm. unfold StartCapture, bind at 1, gets.
  destruct (IsEmpty (m_deviceAnsi (eng w))).
  { unfold bind. rewrite SetError_spec, Hm. cbn. split; [exact Hm|]. left. now split. }
  unfold bind at 1. rewrite (Initialize_spec env w Hm).
  assert (Hrest : forall w1,
    m_mutex (eng w1) = false -> neutral (eng w1) = neutral (eng w) ->
    match
      (dirs <- EnsureDirectories env (AnsiToWide env (basePath (Normalize env o))) ;;
       if negb dirs then ret false
       else
         lock_guard (
           st <- gets (fun w => m_state (eng w)) ;;
           if negb (State_eqb st Idle) then
             SetError "Aufnahme läuft bereits." ;;
             ret false
           else
             try_catch (StartCapture_try env (Normalize env o)) StartCapture_catch)) w1
    with
    | Ret ok w' =>
        m_mutex (eng w') = false /\
        ((ok = false /\ neutral (eng w') = neutral (eng w)) \/
         (ok = true /\ m_state (eng w) = Idle /\ m_state (eng w') = Capturing /\
          m_captureThread (eng w') <> None))
    | Throw _ _ => False
    | Relock w' => m_state (eng w) <> Idle -> neutral (eng w') = neutral (eng w)
    end).
  { intros w1 Hm1 Hn1. unfold bind at 1.
    pose proof (EnsureDirectories_keeps env (AnsiToWide env (basePath (Normalize env o))) w1) as Hk.
    destruct (EnsureDirectories _ _ w1) as [dirs w2|x w2|w2].
    - pose proof (keeps_engine_mutex _ _ _ Hk) as Hm2. rewrite Hm1 in Hm2.
      apply keeps_engine_neutral in Hk. cbn [final] in Hk. rewrite Hn1 in Hk.
      destruct dirs; cbn [negb].
      + pose proof (StartCapture_guarded env (Normalize env o) w2 Hm2) as Hg.
        rewrite (neutral_state _ _ Hk) in Hg.
        destruct (lock_guard _ w2) as [ok w3|x w3|w3].
        * destruct Hg as (-> & Hi & Hc & Hm3 & Ht). split; [exact Hm3|]. right. now repeat split.
        * exact Hg.
        * intros Hni. rewrite (Hg Hni). cbn. rewrite neutral_set_mutex. exact Hk.
      + cbn. split; [exact Hm2|]. left. now split.
    - exact Hk.
    - destruct Hk as [_ Hk]. congruence. }
  destruct (m_comInitialized (eng w)); cbn [negb].
  - apply Hrest; [exact Hm|reflexivity].
  - destruct (FAILED (CoInitializeEx env) && negb (CoInitializeEx env =? RPC_E_CHANGED_MODE)%Z).
    + intros _. reflexivity.
    + cbn [negb]. apply Hrest; [exact Hm|reflexivity].
Qed.

Lemma StartCapture_mutex_held env o w :
  m_mutex (eng w) = true -> StartCapture env o w = Relock w.
Proof.
  intros Hm. unfold StartCapture, bind at 1, gets.
  destruct (IsEmpty (m_deviceAnsi (eng w))).
  - unfold bind. now rewrite SetError_spec, Hm.
  - unfold bind, Initialize, lock_guard, lock. now rewrite Hm.
Qed.

(** Whenever [StartCapture] returns failure, the session is as it was
    before the call: by [StartCapture_guarded] the guarded block returns
    only success, so a failure return comes from the steps before it. *)
Lemma StartCapture_failure_is_early env o w w' :
  m_mutex (eng w) = false ->
  StartCapture env o w = Ret false w' ->
  same_session (eng w) (eng w').
Proof.
  intros Hm Hrun. pose proof (StartCapture_outcome env o w Hm) as H.
  rewrite Hrun in H. destruct H as [_ [[_ H]|[H _]]]; [|discriminate].
  now apply neutral_same_session.
Qed.

(** An exception thrown in the [try] block is never turned into a failure
    return: the handler stops at [SetError], with the session as the
    exception left it. *)
Lemma StartCapture_exception_relocks env n w x w' :
  m_mutex (eng w) = true ->
  StartCapture_try env n w = Throw x w' ->
  try_catch (StartCapture_try env n) StartCapture_catch w = Relock w'.
Proof.
  intros Hm Hthrow. pose proof (StartCapture_try_locked env n w Hm) as H.
  unfold try_catch. rewrite Hthrow in H |- *.
  apply StartCapture_catch_locked. apply H.
Qed.

(** [StopCapture] on an idle session keeps whatever collaborators the
    engine points to. *)
Lemma StopCapture_idle_keeps_collaborators w :
  m_mutex (eng w) = false -> m_state (eng w) = Idle -> StopCapture w = Ret tt w.
Proof. intros Hm Hs. rewrite (StopCapture_spec w Hm), Hs. reflexivity. Qed.

(** C1, at a failing input.  The device is set, the session idle, and the
    AVI writer throws on construction, after the capture source and the
    queue have been made.  [StartCapture] does not return failure: its
    handler calls [SetError] while the guard of [StartCapture] holds the
    mutex.  The capture source and the queue are still there and the state
    is Idle.  Nor would the [StopCapture] of the handler have removed
    them: run on that very session with the mutex released, it returns at
    its Idle test and leaves everything as it is. *)
Theorem failed_start_is_not_rolled_back :
  exists w_half,
    StartCapture env_writer_fails options_clip world_ready = Relock w_half /\
    m_state (eng w_half) = Idle /\
    m_dvInput (eng w_half) = Some (mkDVInput "cam" false) /\
    m_queue (eng w_half) = Some (mkQueue 4 144000 []) /\
    m_writer (eng w_half) = None /\
    StopCapture (on_eng (set_mutex false) w_half) =
      Ret tt (on_eng (set_mutex false) w_half).
Proof.
  eexists. split; [vm_compute; reflexivity|].
  repeat split; reflexivity.
Qed.

(** C2, as stated, fails: a [StartCapture] on a capturing session whose
    options name an output directory that is not there creates the
    directory chain before it looks at the state. *)
Lemma start_while_capturing_creates_directories :
  m_state (eng world_capturing) = Capturing /\
  disk world_capturing !! "takes" = None /\
  disk (final (StartCapture env_ok options_other world_capturing)) !! "takes"
    = Some Directory /\
  created (final (StartCapture env_ok options_other world_capturing))
    = (created world_capturing ++ ["takes"; "takes\day2"])%list /\
  disk (final (StartCapture env_ok options_other world_capturing)) <> disk world_capturing.
Proof.
  assert (H : disk (final (StartCapture env_ok options_other world_capturing)) !! "takes"
              = Some Directory) by (vm_compute; reflexivity).
  repeat split; try (vm_compute; reflexivity); try exact H.
  intros E. rewrite E in H. vm_compute in H. discriminate.
Qed.

(** C2, amended.  On a session that is not idle, [StartCapture] never
    reports success, and whatever way the call ends, the state flag, the
    collaborator handles and the stored options are as they were. *)
Theorem StartCapture_while_running (env : Env) (o : WindvCaptureOptions) (w : World) :
  m_state (eng w) <> Idle ->
  returned (StartCapture env o w) <> Some true /\
  same_session (eng w) (eng (final (StartCapture env o w))).
Proof.
  intros Hst. destruct (m_mutex (eng w)) eqn:Hm.
  - rewrite (StartCapture_mutex_held _ _ _ Hm). cbn. split; [discriminate|].
    now apply neutral_same_session.
  - pose proof (StartCapture_outcome env o w Hm) as H.
    destruct (StartCapture env o w) as [ok w'|x w'|w']; cbn [returned final].
    + destruct H as [_ [[-> H]|(_ & Hi & _)]]; [|contradiction].
      split; [discriminate|]. now apply neutral_same_session.
    + destruct H.
    + split; [discriminate|]. apply neutral_same_session. now apply H.
Qed.

Lemma Initialize_quiescent env w ok w' :
  quiescent (eng w) -> Initialize env w = Ret ok w' ->
  quiescent (eng w') /\ m_state (eng w') = m_state (eng w).
Proof.
  intros [Hm Ht]. rewrite (Initialize_spec env w Hm).
  destruct (m_comInitialized (eng w)).
  - intros [= _ <-]. now repeat split.
  - destruct (FAILED (CoInitializeEx env) && negb (CoInitializeEx env =? RPC_E_CHANGED_MODE)%Z);
      [discriminate|].
    intros [= _ <-]. now repeat split.
Qed.

Lemma SetDevice_quiescent env name w ok w' :
  quiescent (eng w) -> SetDevice env name w = Ret ok w' -> quiescent (eng w').
Proof.
  intros Hq. unfold SetDevice, bind at 1.
  destruct (Initialize env w) as [ok1 w1|x w1|w1] eqn:Hinit; try discriminate.
  destruct (Initialize_quiescent _ _ _ _ Hq Hinit) as [[Hm1 Ht1] Hs1].
  destruct ok1; cbn [negb]; [|now intros [= _ <-]].
  unfold lock_guard, lock. rewrite Hm1. unfold bind at 1, gets.
  change (m_state (eng (on_eng (set_mutex true) w1))) with (m_state (eng w1)).
  destruct (m_state (eng w1)) eqn:Est; cbn [State_eqb negb].
  - cbn. intros [= _ <-]. split; [reflexivity|]. cbn. auto.
  - unfold bind. rewrite SetError_spec. cbn. discriminate.
  - unfold bind. rewrite SetError_spec. cbn. discriminate.
Qed.

Lemma SetPreviewWindow_quiescent hwnd w ok w' :
  quiescent (eng w) -> SetPreviewWindow hwnd w = Ret ok w' -> quiescent (eng w').
Proof.
  intros [Hm Ht]. unfold SetPreviewWindow, lock_guard, lock. rewrite Hm.
  unfold bind at 1, gets.
  change (m_state (eng (on_eng (set_mutex true) w))) with (m_state (eng w)).
  destruct (m_state (eng w)) eqn:Est; cbn [State_eqb].
  - cbn. intros [= _ <-]. split; [reflexivity|]. cbn. auto.
  - unfold bind. rewrite SetError_spec. cbn. discriminate.
  - cbn. intros [= _ <-]. split; [reflexivity|]. cbn. congruence.
Qed.

Lemma StartCapture_quiescent env o w ok w' :
  quiescent (eng w) -> StartCapture env o w = Ret ok w' -> quiescent (eng w').
Proof.
  intros [Hm Ht] Hrun. pose proof (StartCapture_outcome env o w Hm) as H.
  rewrite Hrun in H. destruct H as [Hm' [[_ Hn]|(_ & _ & Hc & _)]].
  - apply neutral_same_session in Hn. destruct Hn as (Hs & _ & _ & _ & _ & Hth & _).
    split; [exact Hm'|]. rewrite Hs, Hth. exact Ht.
  - split; [exact Hm'|]. congruence.
Qed.

Lemma StopCapture_quiescent w w' :
  quiescent (eng w) -> StopCapture w = Ret tt w' -> quiescent (eng w').
Proof.
  intros [Hm Ht]. rewrite (StopCapture_spec w Hm).
  destruct (m_state (eng w)) eqn:Est; intros [= <-]; split; cbn; auto.
Qed.

Lemma Shutdown_quiescent w w' :
  quiescent (eng w) -> Shutdown w = Ret tt w' -> quiescent (eng w').
Proof.
  intros Hq. unfold Shutdown, bind at 1.
  destruct (StopCapture w) as [[] w1|x w1|w1] eqn:Hstop; try discriminate.
  destruct (StopCapture_quiescent _ _ Hq Hstop) as [Hm1 Ht1].
  unfold lock_guard, lock. rewrite Hm1. unfold bind, gets.
  change (m_comInitialized (eng (on_eng (set_mutex true) w1)))
    with (m_comInitialized (eng w1)).
  destruct (m_comInitialized (eng w1)); cbn; intros [= <-]; now split.
Qed.

(** Every session a process can be in between two calls is quiescent. *)
Lemma reachable_quiescent w : reachable w -> quiescent (eng w).
Proof.
  induction 1 as [fs err log
                 |env w ok w' _ IH Hrun
                 |env name w ok w' _ IH Hrun
                 |hwnd w ok w' _ IH Hrun
                 |env options w ok w' _ IH Hrun
                 |w w' _ IH Hrun
                 |w w' _ IH Hrun
                 |message w w' _ IH Hrun
                 |f w w' _ IH Hrun
                 |w q _ IH Hq].
  - now split.
  - exact (proj1 (Initialize_quiescent _ _ _ _ IH Hrun)).
  - exact (SetDevice_quiescent _ _ _ _ _ IH Hrun).
  - exact (SetPreviewWindow_quiescent _ _ _ _ IH Hrun).
  - exact (StartCapture_quiescent _ _ _ _ _ IH Hrun).
  - exact (StopCapture_quiescent _ _ IH Hrun).
  - exact (Shutdown_quiescent _ _ IH Hrun).
  - unfold ReportExternalError in Hrun. rewrite SetError_spec in Hrun.
    destruct IH as [Hm Ht]. rewrite Hm in Hrun. injection Hrun as <-. now split.
  - unfold HandleFrame, bind, gets in Hrun. destruct IH as [Hm Ht].
    destruct (m_queue (eng w)); injection Hrun as <-; now split.
  - destruct IH as [Hm Ht]. now split.
Qed.

(** C3. [StopCapture].  On every session a process can be in between two
    calls, [StopCapture] returns.  If the session was idle, nothing at all
    has changed (state, collaborators and last error included).  In every
    case the state is Idle afterwards, [IsCapturing] answers [false], and
    no consumer thread object remains. *)
Theorem StopCapture_leaves_idle (w : World) :
  reachable w ->
  exists w',
    StopCapture w = Ret tt w' /\
    (m_state (eng w) = Idle -> w' = w) /\
    m_state (eng w') = Idle /\
    IsCapturing (eng w') = false /\
    m_captureThread (eng w') = None.
Proof.
  intros Hr. destruct (reachable_quiescent w Hr) as [Hm Ht].
  rewrite (StopCapture_spec w Hm).
  destruct (m_state (eng w)) eqn:Est.
  - exists w. repeat split; auto. unfold IsCapturing. now rewrite Est.
  - eexists. split; [reflexivity|]. repeat split. discriminate.
  - eexists. split; [reflexivity|]. repeat split. discriminate.
Qed.

(** C9. [WindvBridge_StartCapture] with a null options pointer returns -1
    and leaves the process as it was; the engine is not even looked up, so
    [WindvBridge_LastError] gives afterwards what it would have given
    before. *)
Theorem StartCapture_null_options (env : Env) (p : Process) :
  exists p',
    WindvBridge_StartCapture env None p = Ret (-1) p' /\
    p' = p /\
    WindvBridge_LastError p' = WindvBridge_LastError p.
Proof. exists p. repeat split. Qed.

(** C10. A frame delivered while there is no queue is dropped:
    [HandleFrame] returns and the world, the engine and its last error
    included, is as it was. *)
Theorem HandleFrame_without_queue (f : Frame) (w : World) :
  m_queue (eng w) = None ->
  HandleFrame f w = Ret tt w.
Proof.
  intros Hq. unfold HandleFrame, bind, gets. now rewrite Hq.
Qed.

(** ** The statements at sample inputs *)

Lemma world_capturing_reachable : reachable world_capturing.
Proof.
  apply (reach_StartCapture env_ok options_clip world_ready true).
  - apply (reach_SetDevice env_ok "cam" world_new true).
    + apply reach_new.
    + vm_compute. reflexivity.
  - vm_compute. reflexivity.
Defined.

(** C2 at a capturing session and options that name a new directory. *)
Lemma StartCapture_while_running_witness :
  m_state (eng world_capturing) <> Idle /\
  returned (StartCapture env_ok options_other world_capturing) <> Some true /\
  same_session (eng world_capturing)
    (eng (final (StartCapture env_ok options_other world_capturing))).
Proof.
  assert (H : m_state (eng world_capturing) <> Idle) by (vm_compute; discriminate).
  split; [exact H|].
  exact (StartCapture_while_running env_ok options_other world_capturing H).
Defined.

(** C3 at a capturing session. *)
Lemma StopCapture_leaves_idle_witness :
  reachable world_capturing /\
  exists w',
    StopCapture world_capturing = Ret tt w' /\
    (m_state (eng world_capturing) = Idle -> w' = world_capturing) /\
    m_state (eng w') = Idle /\
    IsCapturing (eng w') = false /\
    m_captureThread (eng w') = None.
Proof.
  split; [exact world_capturing_reachable|].
  exact (StopCapture_leaves_idle world_capturing world_capturing_reachable).
Defined.

(** C4 for a sentinel dequeued after one frame. *)
Lemma sentinel_never_forwarded_witness :
  CaptureThread sinks_ok engine_both_sinks
    ([mkObservation Capturing (Some frame1) 0]
       ++ mkObservation Capturing (Some sentinel) 0
       :: [mkObservation Capturing (Some frame2) 0])
  = ([PreviewCall frame1; WriterCall frame1], SentinelBreak).
Proof.
  apply (proj1 (sentinel_never_forwarded sinks_ok engine_both_sinks)); reflexivity.
Defined.

(** C5, amended, for one frame at load 0 with a queue of 4. *)
Lemma fan_out_order_witness :
  exists preview writer : bool,
    fst (CaptureThread sinks_ok engine_both_sinks
           ([] ++ [mkObservation Capturing (Some frame1) 0])) =
      ([] ++ (if preview then [PreviewCall frame1] else [])
          ++ (if writer then [WriterCall frame1] else []))%list /\
    (preview = true <->
       m_monitor engine_both_sinks <> None /\
       enablePreview (m_options engine_both_sinks) = true /\
       m_load (mkObservation Capturing (Some frame1) 0)
         < Z.quot (queueSize (m_options engine_both_sinks)) 2) /\
    (preview = true ->
       2 * m_load (mkObservation Capturing (Some frame1) 0)
         < queueSize (m_options engine_both_sinks)) /\
    (writer = true <->
       m_writer engine_both_sinks <> None /\
       (preview = true -> monitor_HandleFrame sinks_ok frame1 = None)).
Proof.
  apply (fan_out_order sinks_ok engine_both_sinks []
           (mkObservation Capturing (Some frame1) 0) frame1 []).
  - reflexivity.
  - reflexivity.
  - reflexivity.
  - simpl. discriminate.
Defined.

(** C6, amended, for a preview renderer that throws on the first frame. *)
Lemma sink_failure_leaves_the_loop_witness :
  CaptureThread sinks_preview_fails engine_both_sinks
    ([] ++ mkObservation Capturing (Some frame1) 0
        :: [mkObservation Capturing (Some frame2) 0])
  = (([] ++ [PreviewCall frame1])%list, Escaped (CDShowException "render failed")).
Proof.
  apply (proj1 (sink_failure_leaves_the_loop sinks_preview_fails engine_both_sinks []
                  (mkObservation Capturing (Some frame1) 0)
                  [mkObservation Capturing (Some frame2) 0] frame1 []
                  eq_refl eq_refl eq_refl ltac:(simpl; discriminate))).
  - vm_compute. reflexivity.
  - reflexivity.
Defined.

(** C7 for a directory without a trailing separator, a base name and a
    queue capacity of zero. *)
Lemma Normalize_policy_witness :
  basePath (Normalize env_ok (mkOptions (Some "out") (Some "clip") None (-3) 1 0 0))
    = "out\clip" /\
  numericDigits (Normalize env_ok (mkOptions (Some "out") (Some "clip") None (-3) 1 0 0))
    = 0 /\
  queueSize (Normalize env_ok (mkOptions (Some "out") (Some "clip") None (-3) 1 0 0))
    = 120.
Proof.
  pose proof (Normalize_policy env_ok
                (mkOptions (Some "out") (Some "clip") None (-3) 1 0 0)) as H.
  cbv zeta in H.
  destruct H as (Hd & _ & Hq & _ & _ & _ & _ & _ & Hp).
  split; [|split].
  - destruct (Hp "clip") as (Hb & _ & _).
    + left. split; [reflexivity|discriminate].
    + apply (Hb "out"); [reflexivity|discriminate|].
      intros [p [E|E]]; destruct p as [|a [|b [|c [|d p]]]]; discriminate.
  - apply Hd. simpl. lia.
  - apply Hq. simpl. lia.
Defined.

(** The sample host at the ancestors of [path_doubled]. *)
Lemma host_accepts_path_doubled :
  (forall d, In d (ancestors path_doubled) -> resolve env_ok d <> None) /\
  (forall fs d, In d (ancestors path_doubled) ->
     (forall a, In a (ancestors d) -> entry env_ok fs a = Some Directory) ->
     refuses env_ok fs d = None).
Proof.
  split.
  - intros d Hd. vm_compute in Hd.
    destruct Hd as [<-|[<-|[<-|[<-|[]]]]]; vm_compute; discriminate.
  - intros fs d Hd Hanc. vm_compute in Hd.
    change (refuses env_ok fs d) with (host_refuses fs d). unfold host_refuses.
    destruct Hd as [<-|[<-|[<-|[<-|[]]]]].
    + reflexivity.
    + change (host_resolve "takes\day2") with (Some "takes\day2").
      unfold parent_present. change (dirname "takes\day2") with (Some "takes").
      cbn [IsEmpty].
      specialize (Hanc "takes" ltac:(vm_compute; now left)).
      change (entry env_ok fs "takes") with (fs !! "takes") in Hanc.
      now rewrite Hanc.
    + change (host_resolve "takes\day2/") with (Some "takes\day2").
      unfold parent_present. change (dirname "takes\day2") with (Some "takes").
      cbn [IsEmpty].
      specialize (Hanc "takes" ltac:(vm_compute; tauto)).
      change (entry env_ok fs "takes") with (fs !! "takes") in Hanc.
      now rewrite Hanc.
    + change (host_resolve "takes\day2//cam1") with (Some "takes\day2\cam1").
      unfold parent_present. change (dirname "takes\day2\cam1") with (Some "takes\day2").
      cbn [IsEmpty].
      specialize (Hanc "takes\day2" ltac:(vm_compute; tauto)).
      change (entry env_ok fs "takes\day2") with (fs !! "takes\day2") in Hanc.
      now rewrite Hanc.
Defined.

(** C8, amended, for a target three directories deep, written with a
    doubled separator, of which the outermost directory is there. *)
Lemma EnsureDirectories_creates_missing_ancestors_witness :
  (forall d, In d (ancestors path_doubled) -> resolve env_ok d <> None) /\
  (forall d, In d (ancestors path_doubled) -> entry env_ok (disk world_takes) d <> Some File) /\
  exists w',
    EnsureDirectories env_ok path_doubled world_takes = Ret true w' /\
    created w' = ["takes\day2"; "takes\day2\cam1"] /\
    EnsureDirectories env_ok path_doubled w' = Ret true w'.
Proof.
  destruct host_accepts_path_doubled as [Hres Hacc].
  assert (Hnf : forall d, In d (ancestors path_doubled) ->
                  entry env_ok (disk world_takes) d <> Some File).
  { intros d Hd. vm_compute in Hd.
    destruct Hd as [<-|[<-|[<-|[<-|[]]]]]; vm_compute; discriminate. }
  assert (Hnest : forall d, In d (ancestors path_doubled) ->
            entry env_ok (disk world_takes) d = Some Directory ->
            forall a, In a (ancestors d) -> entry env_ok (disk world_takes) a = Some Directory).
  { intros d Hd. vm_compute in Hd.
    destruct Hd as [<-|[<-|[<-|[<-|[]]]]]; vm_compute; try discriminate.
    intros _ a []. }
  split; [exact Hres|]. split; [exact Hnf|].
  destruct (EnsureDirectories_creates_missing_ancestors env_ok path_doubled world_takes
              Hres Hacc Hnf Hnest)
    as (w' & Hrun & Hcr & _ & _ & _ & _ & _ & _ & Hagain).
  exists w'. split; [exact Hrun|]. split; [|exact Hagain].
  rewrite Hcr. vm_compute. reflexivity.
Defined.

(** C10 for a freshly constructed engine. *)
Lemma HandleFrame_without_queue_witness :
  m_queue (eng world_new) = None /\ HandleFrame frame1 world_new = Ret tt world_new.
Proof.
  split; [reflexivity|].
  apply (HandleFrame_without_queue frame1 world_new). reflexivity.
Defined.

(** * Further properties of the code *)

(** ** Initialisation, device and preview window *)

Lemma com_available_test env :
  com_available env ->
  FAILED (CoInitializeEx env) && negb (CoInitializeEx env =? RPC_E_CHANGED_MODE)%Z = false.
Proof.
  unfold com_available, FAILED. intros [H|H].
  - destruct (Z.ltb_spec (CoInitializeEx env) 0); [lia|reflexivity].
  - rewrite H. reflexivity.
Qed.

(** X1. [Initialize] entered without the mutex returns only success.  After
    it has returned, COM counts as initialised, the rest of the world is as
    before, and any further [Initialize], whatever [CoInitializeEx] would
    answer then, returns success and changes nothing. *)
Theorem Initialize_once (env env' : Env) (w w' : World) (ok : bool) :
  m_mutex (eng w) = false ->
  Initialize env w = Ret ok w' ->
  ok = true /\
  w' = on_eng (set_comInitialized true) w /\
  Initialize env' w' = Ret true w'.
Proof.
  intros Hm. rewrite (Initialize_spec env w Hm).
  destruct (m_comInitialized (eng w)) eqn:Ec.
  - intros [= <- <-]. split; [reflexivity|]. split.
    + destruct w as [e fs err log]. destruct e. cbn in *. now subst.
    + rewrite (Initialize_spec env' w Hm), Ec. reflexivity.
  - destruct (FAILED (CoInitializeEx env) && negb (CoInitializeEx env =? RPC_E_CHANGED_MODE)%Z);
      [discriminate|].
    intros [= <- <-]. split; [reflexivity|]. split; [reflexivity|].
    now rewrite Initialize_spec.
Qed.

Lemma Initialize_once_witness :
  m_mutex (eng world_new) = false /\
  Initialize env_ok world_new = Ret true (on_eng (set_comInitialized true) world_new) /\
  Initialize env_writer_fails (on_eng (set_comInitialized true) world_new)
    = Ret true (on_eng (set_comInitialized true) world_new).
Proof.
  assert (Hm : m_mutex (eng world_new) = false) by reflexivity.
  assert (Hrun : Initialize env_ok world_new
                 = Ret true (on_eng (set_comInitialized true) world_new))
    by (vm_compute; reflexivity).
  split; [exact Hm|]. split; [exact Hrun|].
  exact (proj2 (proj2 (Initialize_once env_ok env_writer_fails world_new _ true Hm Hrun))).
Defined.

(** X2. [Initialize] takes [RPC_E_CHANGED_MODE] for success like any
    non-negative result; with any other failure code, on an engine that
    has not initialised COM, it does not return: [SetError] is reached with
    the mutex held, and the COM flag stays unset. *)
Theorem Initialize_by_result (env : Env) (w : World) :
  m_mutex (eng w) = false ->
  m_comInitialized (eng w) = false ->
  (com_available env ->
     Initialize env w = Ret true (on_eng (set_comInitialized true) w)) /\
  (~ com_available env ->
     Initialize env w = Relock (on_eng (set_mutex true) w)).
Proof.
  intros Hm Hc. rewrite (Initialize_spec env w Hm), Hc. split.
  - intros H. now rewrite (com_available_test env H).
  - intros H. unfold com_available, FAILED in *.
    destruct (Z.ltb_spec (CoInitializeEx env) 0) as [Hlt|Hge]; [|exfalso; apply H; now left].
    destruct (Z.eqb_spec (CoInitializeEx env) RPC_E_CHANGED_MODE) as [He|Hne];
      [exfalso; apply H; now right|reflexivity].
Qed.

Lemma Initialize_by_result_witness :
  m_mutex (eng world_new) = false /\
  m_comInitialized (eng world_new) = false /\
  Initialize
    (mkEnv RPC_E_CHANGED_MODE (fun s => s) (fun s => Some s) (fun _ => Done tt)
       (Done 144000) (fun _ _ => Done tt) (fun _ => Done tt) (fun _ _ => Done tt)
       (Done tt) true 0 host_resolve host_refuses) world_new
  = Ret true (on_eng (set_comInitialized true) world_new).
Proof.
  split; [reflexivity|]. split; [reflexivity|].
  apply (Initialize_by_result _ world_new eq_refl eq_refl). right. reflexivity.
Defined.

(** [SetDevice] entered without the mutex, whatever it does. *)
Lemma SetDevice_spec env name w :
  m_mutex (eng w) = false ->
  (m_comInitialized (eng w) = true \/ com_available env) ->
  SetDevice env name w =
  match m_state (eng w) with
  | Idle =>
      Ret true (on_eng (fun e =>
        set_device name (WideCharToMultiByte env name) (set_comInitialized true e)) w)
  | _ => Relock (on_eng (fun e => set_mutex true (set_comInitialized true e)) w)
  end.
Proof.
  intros Hm Hcom. unfold SetDevice, bind at 1. rewrite (Initialize_spec env w Hm).
  assert (Hgo : forall w1, m_mutex (eng w1) = false ->
    lock_guard (
      st <- gets (fun w => m_state (eng w)) ;;
      if negb (State_eqb st Idle) then
        SetError "Gerät kann während einer laufenden Aufnahme nicht geändert werden." ;;
        ret false
      else
        modify (on_eng (set_device name (WideCharToMultiByte env name))) ;;
        ret true) w1 =
    match m_state (eng w1) with
    | Idle => Ret true (on_eng (set_device name (WideCharToMultiByte env name)) w1)
    | _ => Relock (on_eng (set_mutex true) w1)
    end).
  { intros w1 Hm1. unfold lock_guard, lock. rewrite Hm1. unfold bind at 1, gets.
    change (m_state (eng (on_eng (set_mutex true) w1))) with (m_state (eng w1)).
    destruct (m_state (eng w1)) eqn:Est; cbn [State_eqb negb].
    - destruct w1 as [e fs err log]. destruct e. cbn in *. now subst.
    - unfold bind. rewrite SetError_spec. reflexivity.
    - unfold bind. rewrite SetError_spec. reflexivity. }
  destruct (m_comInitialized (eng w)) eqn:Ec; cbn [negb].
  - rewrite (Hgo w Hm). destruct w as [e fs err log]. destruct e. cbn in *. subst.
    destruct m_state0; reflexivity.
  - destruct Hcom as [Hcom|Hcom]; [discriminate|].
    rewrite (com_available_test env Hcom). cbn [negb].
    rewrite Hgo by exact Hm. cbn. destruct (m_state (eng w)); reflexivity.
Qed.

(** X3. [SetDevice] on an idle engine, with COM initialised or available,
    returns success; the wide name given and its ANSI conversion are
    stored; state, collaborators, stored options, preview window, last
    error and file system are as before. *)
Theorem SetDevice_stores (env : Env) (name : wstring) (w : World) :
  m_mutex (eng w) = false ->
  m_state (eng w) = Idle ->
  m_comInitialized (eng w) = true \/ com_available env ->
  exists w',
    SetDevice env name w = Ret true w' /\
    m_deviceWide (eng w') = name /\
    m_deviceAnsi (eng w') = WideCharToMultiByte env name /\
    m_comInitialized (eng w') = true /\
    same_session (eng w) (eng w') /\
    m_previewWindow (eng w') = m_previewWindow (eng w) /\
    m_lastError (eng w') = m_lastError (eng w) /\
    disk w' = disk w.
Proof.
  intros Hm Hs Hcom. rewrite (SetDevice_spec env name w Hm Hcom), Hs.
  eexists. split; [reflexivity|]. cbn. unfold same_session. cbn. now repeat split.
Qed.

Lemma SetDevice_stores_witness :
  m_mutex (eng world_new) = false /\
  m_state (eng world_new) = Idle /\
  exists w',
    SetDevice env_ok "cam" world_new = Ret true w' /\
    m_deviceAnsi (eng w') = "cam".
Proof.
  split; [reflexivity|]. split; [reflexivity|].
  destruct (SetDevice_stores env_ok "cam" world_new eq_refl eq_refl)
    as (w' & Hrun & _ & Ha & _).
  - right. left. simpl. lia.
  - exists w'. split; [exact Hrun|exact Ha].
Defined.

(** X4. [SetDevice] while a capture is running (state Capturing or
    Stopping) never reports success and leaves the stored device, wide and
    ANSI, as it was. *)
Theorem SetDevice_refused (env : Env) (name : wstring) (w : World) :
  m_state (eng w) <> Idle ->
  returned (SetDevice env name w) <> Some true /\
  m_deviceWide (eng (final (SetDevice env name w))) = m_deviceWide (eng w) /\
  m_deviceAnsi (eng (final (SetDevice env name w))) = m_deviceAnsi (eng w) /\
  m_state (eng (final (SetDevice env name w))) = m_state (eng w).
Proof.
  intros Hs.
  assert (E : exists w1,
             SetDevice env name w = Relock w1 /\
             m_deviceWide (eng w1) = m_deviceWide (eng w) /\
             m_deviceAnsi (eng w1) = m_deviceAnsi (eng w) /\
             m_state (eng w1) = m_state (eng w)).
  { destruct (m_mutex (eng w)) eqn:Hm.
    - exists w. unfold SetDevice, bind, Initialize, lock_guard, lock. rewrite Hm.
      now repeat split.
    - unfold SetDevice, bind at 1. rewrite (Initialize_spec env w Hm).
      assert (Hgo : forall w1, m_mutex (eng w1) = false -> m_state (eng w1) <> Idle ->
        lock_guard (
          st <- gets (fun w => m_state (eng w)) ;;
          if negb (State_eqb st Idle) then
            SetError "Gerät kann während einer laufenden Aufnahme nicht geändert werden." ;;
            ret false
          else
            modify (on_eng (set_device name (WideCharToMultiByte env name))) ;;
            ret true) w1 = Relock (on_eng (set_mutex true) w1)).
      { intros w1 Hm1 Hs1. unfold lock_guard, lock. rewrite Hm1. unfold bind at 1, gets.
        change (m_state (eng (on_eng (set_mutex true) w1))) with (m_state (eng w1)).
        destruct (m_state (eng w1)) eqn:Est; [congruence| |]; cbn [State_eqb negb];
          unfold bind; rewrite SetError_spec; reflexivity. }
      destruct (m_comInitialized (eng w)); cbn [negb].
      + rewrite (Hgo w Hm Hs). eexists. split; [reflexivity|]. now repeat split.
      + destruct (FAILED (CoInitializeEx env)
                  && negb (CoInitializeEx env =? RPC_E_CHANGED_MODE)%Z).
        * eexists. split; [reflexivity|]. now repeat split.
        * cbn [negb]. rewrite Hgo by assumption. eexists. split; [reflexivity|].
          now repeat split. }
  destruct E as (w1 & -> & Hw & Ha & Hst). cbn [returned final].
  repeat split; try assumption. discriminate.
Qed.

Lemma SetDevice_refused_witness :
  m_state (eng world_capturing) <> Idle /\
  returned (SetDevice env_ok "other" world_capturing) <> Some true /\
  m_deviceAnsi (eng (final (SetDevice env_ok "other" world_capturing))) = "cam".
Proof.
  assert (H : m_state (eng world_capturing) <> Idle) by (vm_compute; discriminate).
  split; [exact H|].
  destruct (SetDevice_refused env_ok "other" world_capturing H) as (Hr & _ & Ha & _).
  split; [exact Hr|]. rewrite Ha. reflexivity.
Defined.

(** X5. [SetPreviewWindow] entered without the mutex: in any state but
    Capturing, Stopping included, it returns success and stores the handle,
    changing nothing else; in state Capturing it does not report success
    and the stored handle stays. *)
Theorem SetPreviewWindow_by_state (hwnd : HWND) (w : World) :
  m_mutex (eng w) = false ->
  (m_state (eng w) <> Capturing ->
     SetPreviewWindow hwnd w = Ret true (on_eng (set_previewWindow hwnd) w)) /\
  (m_state (eng w) = Capturing ->
     returned (SetPreviewWindow hwnd w) = None /\
     m_previewWindow (eng (final (SetPreviewWindow hwnd w))) = m_previewWindow (eng w)).
Proof.
  intros Hm.
  assert (E : SetPreviewWindow hwnd w =
              match m_state (eng w) with
              | Capturing => Relock (on_eng (set_mutex true) w)
              | _ => Ret true (on_eng (set_previewWindow hwnd) w)
              end).
  { unfold SetPreviewWindow, lock_guard, lock. rewrite Hm. unfold bind at 1, gets.
    change (m_state (eng (on_eng (set_mutex true) w))) with (m_state (eng w)).
    destruct (m_state (eng w)) eqn:Est; cbn [State_eqb].
    - destruct w as [e fs err log]. destruct e. cbn in *. now subst.
    - unfold bind. rewrite SetError_spec. reflexivity.
    - destruct w as [e fs err log]. destruct e. cbn in *. now subst. }
  rewrite E. split.
  - intros Hs. destruct (m_state (eng w)); [reflexivity|congruence|reflexivity].
  - intros ->. now split.
Qed.

Lemma SetPreviewWindow_by_state_witness :
  m_mutex (eng world_capturing) = false /\
  m_state (eng world_capturing) = Capturing /\
  returned (SetPreviewWindow 7 world_capturing) = None /\
  m_previewWindow (eng (final (SetPreviewWindow 7 world_capturing))) = 0.
Proof.
  split; [reflexivity|]. split; [reflexivity|].
  destruct (proj2 (SetPreviewWindow_by_state 7 world_capturing eq_refl) eq_refl) as [H1 H2].
  split; [exact H1|]. rewrite H2. reflexivity.
Defined.

(** ** Directory preparation, whatever the host *)

Lemma CreateDirectoryW_cases env d w :
  (exists k, resolve env d = Some k /\ disk w !! k = None /\
     CreateDirectoryW env d w =
       Ret true (log_created k (set_disk (<[k := Directory]> (disk w)) w))) \/
  (entry env (disk w) d <> None /\
   CreateDirectoryW env d w = Ret false (set_os_last_error ERROR_ALREADY_EXISTS w)) \/
  (exists err, err <> ERROR_ALREADY_EXISTS /\
     CreateDirectoryW env d w = Ret false (set_os_last_error err w)).
Proof.
  unfold CreateDirectoryW, entry. destruct (resolve env d) as [k|].
  - destruct (disk w !! k) eqn:E.
    + right. left. split; [discriminate|reflexivity].
    + destruct (refuses env (disk w) d) as [r|].
      * right. right. exists (error_code r). split; [destruct r; discriminate|reflexivity].
      * left. exists k. now repeat split.
  - right. right. exists ERROR_INVALID_NAME. split; [discriminate|reflexivity].
Qed.

Lemma EnsureDirectories_create_cases env directory w :
  (exists k, resolve env directory = Some k /\ disk w !! k = None /\
     EnsureDirectories_create env directory w =
       Ret true (log_created k (set_disk (<[k := Directory]> (disk w)) w))) \/
  (entry env (disk w) directory <> None /\
   EnsureDirectories_create env directory w =
     Ret true (set_os_last_error ERROR_ALREADY_EXISTS w)) \/
  (exists err,
     EnsureDirectories_create env directory w =
       if m_mutex (eng w) then Relock (set_os_last_error err w)
       else Ret false (on_eng (set_lastError "Verzeichnis konnte nicht erstellt werden.")
                         (set_os_last_error err w))).
Proof.
  destruct (CreateDirectoryW_cases env directory w)
    as [(k & Ek & Hfree & Hrun)|[(Hthere & Hrun)|(err & Herr & Hrun)]].
  - left. exists k. split; [exact Ek|]. split; [exact Hfree|].
    unfold EnsureDirectories_create, bind at 1. now rewrite Hrun.
  - right. left. split; [exact Hthere|].
    unfold EnsureDirectories_create, bind at 1. now rewrite Hrun.
  - right. right. exists err.
    unfold EnsureDirectories_create, bind at 1. rewrite Hrun.
    unfold bind at 1, GetLastError, gets.
    cbn [os_last_error set_os_last_error].
    destruct (err =? ERROR_ALREADY_EXISTS)%Z eqn:E; [apply Z.eqb_eq in E; contradiction|].
    unfold bind. rewrite SetError_spec. cbn [eng set_os_last_error].
    destruct (m_mutex (eng w)); reflexivity.
Qed.

(** [EnsureDirectories] step by step. *)
Lemma EnsureDirectories_steps env path w :
  EnsureDirectories env path w =
  match dirname path with
  | None => Ret true w
  | Some directory =>
      if IsEmpty directory then Ret true w
      else
        match entry env (disk w) directory with
        | Some Directory => Ret true w
        | _ =>
            match EnsureDirectories env directory (after_lookup env w directory) with
            | Ret true w2 => EnsureDirectories_create env directory w2
            | other => other
            end
        end
  end.
Proof.
  rewrite EnsureDirectories_unfold. unfold EnsureDirectories_body, dirname.
  destruct (IsEmpty path) eqn:Ep.
  { apply IsEmpty_true in Ep. subst path. reflexivity. }
  destruct (find_last_of path separators) as [pos|]; [|reflexivity].
  destruct (IsEmpty (substr0 path pos)); [reflexivity|].
  unfold bind at 1. rewrite GetFileAttributesW_spec.
  destruct (entry env (disk w) (substr0 path pos)) as [[|]|] eqn:El.
  - unfold after_lookup, GetFileAttributesW. rewrite El. reflexivity.
  - change (is_directory FILE_ATTRIBUTE_NORMAL) with false. cbn iota.
    unfold bind at 1. destruct (EnsureDirectories _ _ _) as [[|] w2|x w2|w2]; reflexivity.
  - change (is_directory INVALID_FILE_ATTRIBUTES) with false. cbn iota.
    unfold bind at 1. destruct (EnsureDirectories _ _ _) as [[|] w2|x w2|w2]; reflexivity.
Qed.

(** X6. [EnsureDirectories] only ever adds directories.  However the call
    ends, every entry of the file system is still there and is what it
    was; what has been created are ancestor directories of the path at
    whose name nothing was before, and each of them is a directory
    afterwards. *)
Theorem EnsureDirectories_only_adds (env : Env) (path : wstring) (w : World) :
  (forall k v, disk w !! k = Some v ->
     disk (final (EnsureDirectories env path w)) !! k = Some v) /\
  exists new,
    created (final (EnsureDirectories env path w)) = (created w ++ new)%list /\
    forall k, In k new ->
      (exists d, In d (ancestors path) /\ resolve env d = Some k) /\
      disk w !! k = None /\
      disk (final (EnsureDirectories env path w)) !! k = Some Directory.
Proof.
  remember (String.length path) as n eqn:En. revert path En w.
  induction n as [n IH] using lt_wf_ind. intros path -> w.
  assert (Hsame : forall w', disk w' = disk w -> created w' = created w ->
    (forall k v, disk w !! k = Some v -> disk w' !! k = Some v) /\
    exists new, created w' = (created w ++ new)%list /\
      forall k, In k new ->
        (exists d, In d (ancestors path) /\ resolve env d = Some k) /\
        disk w !! k = None /\ disk w' !! k = Some Directory).
  { intros w' Hd Hc. split; [intros p k; now rewrite Hd|].
    exists []. split; [now rewrite app_nil_r|intros d []]. }
  rewrite EnsureDirectories_steps. pose proof (ancestors_unfold path) as Hanc.
  destruct (dirname path) as [directory|] eqn:Edir; [|now apply Hsame].
  destruct (IsEmpty directory); [now apply Hsame|].
  pose proof (dirname_shorter _ _ Edir) as Hlt.
  destruct (after_lookup_same env w directory) as (Hd1 & Hc1 & _).
  assert (Hrec := IH _ Hlt directory eq_refl (after_lookup env w directory)).
  rewrite Hd1, Hc1 in Hrec. destruct Hrec as (Hkeep & new & Hnew & Hfresh).
  assert (Hlift : forall k, (exists d, In d (ancestors directory) /\ resolve env d = Some k) ->
                            exists d, In d (ancestors path) /\ resolve env d = Some k).
  { intros k (d & Hin & E). exists d. split; [|exact E]. rewrite Hanc, in_app_iff. now left. }
  set (rec := EnsureDirectories env directory (after_lookup env w directory)) in *.
  assert (Hstop : forall r : result World bool,
    disk (final r) = disk (final rec) -> created (final r) = created (final rec) ->
    (forall k v, disk w !! k = Some v -> disk (final r) !! k = Some v) /\
    exists new, created (final r) = (created w ++ new)%list /\
      forall k, In k new ->
        (exists d, In d (ancestors path) /\ resolve env d = Some k) /\
        disk w !! k = None /\ disk (final r) !! k = Some Directory).
  { intros r Hd Hc. rewrite Hd, Hc. split; [exact Hkeep|]. exists new.
    split; [exact Hnew|].
    intros k Hin. destruct (Hfresh k Hin) as (H1 & H2 & H3). auto. }
  set (run := match rec with
              | Ret true w2 => EnsureDirectories_create env directory w2
              | Ret false w2 => Ret false w2
              | Throw x s => Throw x s
              | Relock s => Relock s
              end).
  assert (Hgo :
    (forall k v, disk w !! k = Some v -> disk (final run) !! k = Some v) /\
    exists new,
      created (final run) = (created w ++ new)%list /\
      forall k, In k new ->
        (exists d, In d (ancestors path) /\ resolve env d = Some k) /\
        disk w !! k = None /\ disk (final run) !! k = Some Directory).
  { unfold run. destruct rec as [[|] w2|x w2|w2] eqn:Erec; try (apply Hstop; reflexivity).
    cbn [final] in Hkeep, Hnew, Hfresh.
    destruct (EnsureDirectories_create_cases env directory w2)
      as [(k & Ek & Hfree & ->)|[(_ & ->)|(err & ->)]].
    - cbn [final log_created set_disk disk created]. split.
      + intros p v Hp. rewrite lookup_insert_ne; [now apply Hkeep|].
        intros <-. rewrite (Hkeep _ _ Hp) in Hfree. discriminate.
      + exists (new ++ [k])%list. split; [now rewrite Hnew, app_assoc|].
        intros d. rewrite in_app_iff. intros [Hin|[<-|[]]].
        * destruct (Hfresh d Hin) as (H1 & H2 & H3). repeat split; auto.
          destruct (decide (k = d)) as [->|Hne];
            [apply lookup_insert_eq|now rewrite lookup_insert_ne].
        * split.
          { exists directory. split; [|exact Ek]. rewrite Hanc, in_app_iff. right. now left. }
          split.
          -- destruct (disk w !! k) eqn:E; [|reflexivity].
             rewrite (Hkeep _ _ E) in Hfree. discriminate.
          -- apply lookup_insert_eq.
    - apply (Hstop (Ret true (set_os_last_error ERROR_ALREADY_EXISTS w2))); reflexivity.
    - destruct (m_mutex (eng w2)).
      + apply (Hstop (Relock (set_os_last_error err w2))); reflexivity.
      + apply (Hstop (Ret false (on_eng _ (set_os_last_error err w2)))); reflexivity. }
  destruct (entry env (disk w) directory) as [[|]|]; [now apply Hsame|exact Hgo|exact Hgo].
Qed.

Lemma EnsureDirectories_failure_recorded env path :
  forall w w',
  m_mutex (eng w) = false ->
  EnsureDirectories env path w = Ret false w' ->
  m_lastError (eng w') = "Verzeichnis konnte nicht erstellt werden.".
Proof.
  remember (String.length path) as n eqn:En. revert path En.
  induction n as [n IH] using lt_wf_ind. intros path -> w w' Hm.
  rewrite EnsureDirectories_steps.
  destruct (dirname path) as [directory|] eqn:Edir; [|discriminate].
  destruct (IsEmpty directory); [discriminate|].
  pose proof (dirname_shorter _ _ Edir) as Hlt.
  destruct (after_lookup_same env w directory) as (_ & _ & He1).
  assert (Hm1 : m_mutex (eng (after_lookup env w directory)) = false) by now rewrite He1.
  assert (Hgo : match EnsureDirectories env directory (after_lookup env w directory) with
                | Ret true w2 => EnsureDirectories_create env directory w2
                | other => other
                end = Ret false w' ->
                m_lastError (eng w') = "Verzeichnis konnte nicht erstellt werden.").
  { pose proof (EnsureDirectories_keeps env directory (after_lookup env w directory)) as Hk.
    destruct (EnsureDirectories env directory (after_lookup env w directory))
      as [[|] w2|x w2|w2] eqn:Erec; try discriminate.
    - apply keeps_engine_mutex in Hk. rewrite Hm1 in Hk.
      destruct (EnsureDirectories_create_cases env directory w2)
        as [(k & _ & _ & ->)|[(_ & ->)|(err & ->)]]; try discriminate.
      rewrite Hk. intros [= <-]. reflexivity.
    - intros [= <-]. exact (IH _ Hlt directory eq_refl _ _ Hm1 Erec). }
  destruct (entry env (disk w) directory) as [[|]|]; [discriminate|exact Hgo|exact Hgo].
Qed.

Lemma EnsureDirectories_true_entry env path w w' d :
  EnsureDirectories env path w = Ret true w' ->
  dirname path = Some d -> d <> "" -> entry env (disk w') d <> None.
Proof.
  rewrite EnsureDirectories_steps. intros Hrun Hd Hne. rewrite Hd in Hrun.
  destruct (IsEmpty d) eqn:Ee; [apply IsEmpty_true in Ee; contradiction|].
  assert (Hgo : match EnsureDirectories env d (after_lookup env w d) with
                | Ret true w2 => EnsureDirectories_create env d w2
                | other => other
                end = Ret true w' -> entry env (disk w') d <> None).
  { destruct (EnsureDirectories env d (after_lookup env w d)) as [[|] w2|x w2|w2];
      try discriminate.
    destruct (EnsureDirectories_create_cases env d w2)
      as [(k & Ek & _ & ->)|[(Hthere & ->)|(err & ->)]].
    - intros [= <-]. unfold entry. rewrite Ek. cbn. now rewrite lookup_insert_eq.
    - intros [= <-]. exact Hthere.
    - destruct (m_mutex (eng w2)); discriminate. }
  destruct (entry env (disk w) d) as [[|]|] eqn:El.
  - injection Hrun as <-. now rewrite El.
  - now apply Hgo.
  - now apply Hgo.
Qed.

(** X7. What the result of [EnsureDirectories] tells.  After a return of
    [true], the directory part of the path, when it has a non-empty one,
    designates an entry of the file system.  After a return of [false],
    from a call made without the mutex, the last error is the message of
    the failed creation. *)
Theorem EnsureDirectories_result (env : Env) (path : wstring) (w w' : World) :
  (EnsureDirectories env path w = Ret true w' ->
   forall d, dirname path = Some d -> d <> "" -> entry env (disk w') d <> None) /\
  (m_mutex (eng w) = false ->
   EnsureDirectories env path w = Ret false w' ->
   m_lastError (eng w') = "Verzeichnis konnte nicht erstellt werden.").
Proof.
  split.
  - intros Hrun d Hd Hne. exact (EnsureDirectories_true_entry _ _ _ _ d Hrun Hd Hne).
  - apply EnsureDirectories_failure_recorded.
Qed.

Lemma EnsureDirectories_result_witness :
  exists w',
    EnsureDirectories env_ok path_deep world_takes = Ret true w' /\
    entry env_ok (disk w') "takes\day2/cam1" <> None.
Proof.
  eexists. split; [vm_compute; reflexivity|].
  apply (proj1 (EnsureDirectories_result env_ok path_deep world_takes _)).
  - vm_compute. reflexivity.
  - reflexivity.
  - discriminate.
Defined.

(** ** Starting a capture *)

(** Evaluates assignments to and reads of members, innermost first. *)
Ltac members :=
  cbv [on_eng set_disk set_os_last_error log_created set_mutex set_state
       set_comInitialized set_device set_previewWindow set_dvInput set_monitor
       set_queue set_writer set_captureThread set_mediaType set_options
       set_lastError eng disk os_last_error created m_mutex m_state
       m_comInitialized m_deviceWide m_deviceAnsi m_previewWindow m_dvInput
       m_monitor m_queue m_writer m_captureThread m_mediaType m_options
       m_lastError started negotiated_media_type negotiated_sample_size
       lSampleSize] in *.

(** The [try] block, when it returns: every collaborator call succeeded and
    the engine is [started]. *)
Lemma StartCapture_try_returns env n w ok w' :
  m_mutex (eng w) = true ->
  StartCapture_try env n w = Ret ok w' ->
  exists reported,
    ok = true /\
    new_CDVInput env (m_deviceAnsi (eng w)) = Done tt /\
    GetMediaType env = Done reported /\
    new_CDVQueue env (queueSize n) (negotiated_sample_size reported) = Done tt /\
    (enablePreview n && negb (m_previewWindow (eng w) =? 0)%Z = true ->
       new_CMonitor env (m_previewWindow (eng w)) = Done tt) /\
    new_CAVIWriter env (basePath n) (datetimeFormat n) = Done tt /\
    Run env = Done tt /\
    AfxBeginThread env = true /\
    w' = on_eng (started env n reported) w.
Proof.
  intros Hm. unfold StartCapture_try, bind, gets, modify, ret.
  destruct (new_CDVInput env (m_deviceAnsi (eng w))) as [[]|x] eqn:E1; cbn; [|discriminate].
  destruct (GetMediaType env) as [reported|x] eqn:E2; cbn; [|discriminate].
  destruct (to_int reported <? 144000)%Z eqn:Et; cbn.
  all: destruct (new_CDVQueue env _ _) as [[]|x] eqn:E3; cbn; [|discriminate].
  all: destruct (enablePreview n && negb (m_previewWindow (eng w) =? 0)%Z) eqn:Ep; cbn.
  all: try (destruct (new_CMonitor env _) as [[]|x] eqn:E4; cbn; [|discriminate]).
  all: destruct (new_CAVIWriter env _ _) as [[]|x] eqn:E5; cbn; [|discriminate].
  all: destruct (Run env) as [[]|x] eqn:E6; cbn; [|discriminate].
  all: destruct (AfxBeginThread env) eqn:E7; cbn;
    [|rewrite SetError_spec; cbn; rewrite Hm; discriminate].
  all: intros [= <- <-]; exists reported.
  all: do 8 (split;
             [first [ reflexivity | assumption
                    | unfold negotiated_sample_size; rewrite Et; assumption
                    | intros; first [reflexivity|discriminate] ] |]).
  all: destruct w as [e fs err log]; destruct e; members; rewrite ?Et, ?Ep; reflexivity.
Qed.

Lemma StartCapture_try_succeeds env n w reported :
  new_CDVInput env (m_deviceAnsi (eng w)) = Done tt ->
  GetMediaType env = Done reported ->
  new_CDVQueue env (queueSize n) (negotiated_sample_size reported) = Done tt ->
  new_CMonitor env (m_previewWindow (eng w)) = Done tt ->
  new_CAVIWriter env (basePath n) (datetimeFormat n) = Done tt ->
  Run env = Done tt ->
  AfxBeginThread env = true ->
  StartCapture_try env n w = Ret true (on_eng (started env n reported) w).
Proof.
  intros E1 E2 E3 E4 E5 E6 E7.
  unfold negotiated_sample_size in E3.
  unfold StartCapture_try, bind, gets, modify, ret. rewrite E1. cbn. rewrite E2. cbn.
  destruct (to_int reported <? 144000)%Z eqn:Et; cbn; rewrite E3; cbn.
  all: destruct (enablePreview n && negb (m_previewWindow (eng w) =? 0)%Z) eqn:Ep; cbn;
    rewrite ?E4; cbn; rewrite E5; cbn; rewrite E6; cbn; rewrite E7; f_equal.
  all: destruct w as [e fs err log]; destruct e; members; rewrite ?Et, ?Ep; reflexivity.
Qed.

(** The path [StartCapture] takes to a successful return. *)
Lemma StartCapture_true_inv env o w w' :
  m_mutex (eng w) = false ->
  StartCapture env o w = Ret true w' ->
  exists w2 w3,
    IsEmpty (m_deviceAnsi (eng w)) = false /\
    set_lastError "" (eng w2) = set_lastError "" (set_comInitialized true (eng w)) /\
    disk w' = disk w2 /\
    created w' = created w2 /\
    (exists w1, disk w1 = disk w /\ created w1 = created w /\
       EnsureDirectories env (AnsiToWide env (basePath (Normalize env o))) w1 = Ret true w2) /\
    m_state (eng w2) = Idle /\
    StartCapture_try env (Normalize env o) (on_eng (set_mutex true) w2) = Ret true w3 /\
    w' = on_eng (set_mutex false) w3.
Proof.
  intros Hm. unfold StartCapture, bind at 1, gets.
  destruct (IsEmpty (m_deviceAnsi (eng w))) eqn:Edev.
  { unfold bind. rewrite SetError_spec, Hm. discriminate. }
  unfold bind at 1. rewrite (Initialize_spec env w Hm).
  assert (Hrest : forall w1,
    m_mutex (eng w1) = false -> eng w1 = set_comInitialized true (eng w) ->
    disk w1 = disk w -> created w1 = created w ->
    (dirs <- EnsureDirectories env (AnsiToWide env (basePath (Normalize env o))) ;;
     if negb dirs then ret false
     else
       lock_guard (
         st <- gets (fun w => m_state (eng w)) ;;
         if negb (State_eqb st Idle) then
           SetError "Aufnahme läuft bereits." ;;
           ret false
         else
           try_catch (StartCapture_try env (Normalize env o)) StartCapture_catch)) w1
    = Ret true w' ->
    exists w2 w3,
      false = false /\
      set_lastError "" (eng w2) = set_lastError "" (set_comInitialized true (eng w)) /\
      disk w' = disk w2 /\
      created w' = created w2 /\
      (exists w1, disk w1 = disk w /\ created w1 = created w /\
         EnsureDirectories env (AnsiToWide env (basePath (Normalize env o))) w1 = Ret true w2) /\
      m_state (eng w2) = Idle /\
      StartCapture_try env (Normalize env o) (on_eng (set_mutex true) w2) = Ret true w3 /\
      w' = on_eng (set_mutex false) w3).
  { intros w1 Hm1 He1 Hd1 Hc1. unfold bind at 1.
    pose proof (EnsureDirectories_keeps env (AnsiToWide env (basePath (Normalize env o))) w1) as Hk.
    destruct (EnsureDirectories _ _ w1) as [[|] w2|x w2|w2] eqn:Edirs; try discriminate.
    cbn [negb]. pose proof (keeps_engine_mutex _ _ _ Hk) as Hm2. rewrite Hm1 in Hm2.
    cbn in Hk. rewrite He1 in Hk.
    unfold lock_guard, lock. rewrite Hm2. unfold bind at 1, gets.
    change (m_state (eng (on_eng (set_mutex true) w2))) with (m_state (eng w2)).
    destruct (m_state (eng w2)) eqn:Est; cbn [State_eqb negb];
      [|unfold bind; rewrite SetError_spec; discriminate
       |unfold bind; rewrite SetError_spec; discriminate].
    unfold try_catch.
    pose proof (StartCapture_try_locked env (Normalize env o)
                  (on_eng (set_mutex true) w2) eq_refl) as Hl.
    destruct (StartCapture_try env (Normalize env o) (on_eng (set_mutex true) w2))
      as [ok w3|x w3|w3] eqn:Etry; try discriminate.
    - destruct Hl as (-> & _). intros [= <-]. exists w2, w3.
      destruct (StartCapture_try_returns env (Normalize env o) (on_eng (set_mutex true) w2)
                  true w3 eq_refl Etry) as (r & _ & _ & _ & _ & _ & _ & _ & _ & Hw3).
      split; [reflexivity|]. split; [exact Hk|].
      split; [rewrite Hw3; reflexivity|]. split; [rewrite Hw3; reflexivity|].
      split; [exists w1; now repeat split|].
      split; [exact Est|]. split; [exact Etry|reflexivity].
    - destruct Hl as [Hm3 _]. rewrite (StartCapture_catch_locked _ _ Hm3). discriminate. }
  destruct (m_comInitialized (eng w)) eqn:Ec; cbn [negb].
  - intros Hrun. apply (Hrest w Hm); try reflexivity; [|exact Hrun].
    destruct w as [e fs err log]. destruct e. cbn in *. now subst.
  - destruct (FAILED (CoInitializeEx env) && negb (CoInitializeEx env =? RPC_E_CHANGED_MODE)%Z);
      [discriminate|].
    cbn [negb]. intros Hrun.
    apply (Hrest (on_eng (set_comInitialized true) w) Hm); try reflexivity. exact Hrun.
Qed.

Lemma negotiated_sample_size_max reported :
  negotiated_sample_size reported = Z.max (to_int reported) 144000.
Proof.
  unfold negotiated_sample_size. destruct (Z.ltb_spec (to_int reported) 144000); lia.
Qed.

(** The engine after a successful [StartCapture], up to last error. *)
Lemma StartCapture_true_engine env o w w' :
  m_mutex (eng w) = false ->
  StartCapture env o w = Ret true w' ->
  exists reported message,
    GetMediaType env = Done reported /\
    m_state (eng w) = Idle /\
    IsEmpty (m_deviceAnsi (eng w)) = false /\
    eng w' = set_lastError message
               (started env (Normalize env o) reported
                  (set_comInitialized true (eng w))).
Proof.
  intros Hm Hrun.
  destruct (StartCapture_true_inv env o w w' Hm Hrun)
    as (w2 & w3 & Hdev & Hk & _ & _ & _ & Hidle & Htry & ->).
  destruct (StartCapture_try_returns env (Normalize env o) (on_eng (set_mutex true) w2)
              true w3 eq_refl Htry)
    as (reported & _ & _ & Hmt & _ & _ & _ & _ & _ & ->).
  exists reported, (m_lastError (eng w2)). split; [exact Hmt|].
  destruct w as [e fs err log]. destruct w2 as [e2 fs2 err2 log2].
  destruct e, e2. members.
  injection Hk as -> -> -> -> -> -> -> -> -> -> -> -> ->.
  subst. split; [reflexivity|]. split; [exact Hdev|reflexivity].
Qed.

(** X8. What a successful [StartCapture] leaves behind.  If the call,
    made without the mutex, returns [true], the session was idle with a
    device name set, and afterwards: the state is Capturing; the stored
    options are the normalised ones; the capture source runs on the device;
    the queue is empty, has the normalised capacity and a sample size of
    the larger of 144000 and what the device reported (read as [int]); the
    writer has the normalised path, format, digits and container mode; the
    thread is resumed and not deleted automatically; a preview renderer
    has been made exactly when preview is enabled and a window is set;
    device and window are as before, COM is initialised. *)
Theorem StartCapture_success (env : Env) (o : WindvCaptureOptions) (w w' : World) :
  m_mutex (eng w) = false ->
  StartCapture env o w = Ret true w' ->
  let n := Normalize env o in
  exists reported,
    GetMediaType env = Done reported /\
    m_state (eng w) = Idle /\
    m_deviceAnsi (eng w) <> "" /\
    m_state (eng w') = Capturing /\
    m_mutex (eng w') = false /\
    m_comInitialized (eng w') = true /\
    m_deviceAnsi (eng w') = m_deviceAnsi (eng w) /\
    m_previewWindow (eng w') = m_previewWindow (eng w) /\
    m_options (eng w') = n /\
    m_dvInput (eng w') = Some (mkDVInput (m_deviceAnsi (eng w)) true) /\
    m_queue (eng w') = Some (mkQueue (queueSize n) (Z.max (to_int reported) 144000) []) /\
    (exists sample,
       m_writer (eng w') =
         Some (mkWriter (basePath n) (datetimeFormat n) (numericDigits n) (time env)
                 (type2Avi n) sample) /\
       m_mediaType (eng w') = mkMediaType sample /\
       144000 <= to_int sample /\
       (144000 <= to_int reported -> sample = reported)) /\
    m_captureThread (eng w') = Some (mkThread false false) /\
    (m_monitor (eng w') =
       if enablePreview n && negb (m_previewWindow (eng w) =? 0)%Z
       then Some (mkMonitor (m_previewWindow (eng w))
                    (lSampleSize (m_mediaType (eng w'))))
       else m_monitor (eng w)).
Proof.
  intros Hm Hrun n.
  destruct (StartCapture_true_engine env o w w' Hm Hrun)
    as (reported & message & Hmt & Hidle & Hdev & He).
  exists reported. rewrite He. cbn. rewrite <- negotiated_sample_size_max.
  repeat split; try assumption; try reflexivity.
  - intros E. rewrite E in Hdev. discriminate.
  - exists (lSampleSize (negotiated_media_type reported)).
    unfold negotiated_media_type. destruct (Z.ltb_spec (to_int reported) 144000); cbn.
    + repeat split; [vm_compute; discriminate|lia].
    + now repeat split.
Qed.

Lemma StartCapture_success_witness :
  m_mutex (eng world_ready) = false /\
  StartCapture env_ok options_clip world_ready = Ret true world_capturing /\
  m_queue (eng world_capturing) = Some (mkQueue 4 144000 []) /\
  m_options (eng world_capturing) = Normalize env_ok options_clip.
Proof.
  assert (Hm : m_mutex (eng world_ready) = false) by reflexivity.
  assert (Hrun : StartCapture env_ok options_clip world_ready = Ret true world_capturing)
    by (vm_compute; reflexivity).
  split; [exact Hm|]. split; [exact Hrun|].
  destruct (StartCapture_success env_ok options_clip world_ready world_capturing Hm Hrun)
    as (reported & Hmt & _ & _ & _ & _ & _ & _ & _ & Ho & _ & Hq & _).
  split; [|exact Ho]. rewrite Hq. injection Hmt as <-. reflexivity.
Defined.


(** X9. [StartCapture] succeeds when nothing stands in its way: on an idle
    session with a device name, entered without the mutex, with COM
    initialised or available, every collaborator call succeeding, a host
    that lets the program prepare the directories of the output path, and
    a file system in which no ancestor of that path is a file and the
    ancestors of one that is there are there, it returns [true] and
    [IsCapturing] holds. *)
Theorem StartCapture_succeeds (env : Env) (o : WindvCaptureOptions) (w : World) :
  m_mutex (eng w) = false ->
  m_state (eng w) = Idle ->
  m_deviceAnsi (eng w) <> "" ->
  m_comInitialized (eng w) = true \/ com_available env ->
  collaborators_succeed env (m_deviceAnsi (eng w)) ->
  host_permits env (AnsiToWide env (basePath (Normalize env o))) ->
  ancestors_in_place env (disk w) (AnsiToWide env (basePath (Normalize env o))) ->
  exists w', StartCapture env o w = Ret true w' /\ IsCapturing (eng w') = true.
Proof.
  intros Hm Hidle Hdev Hcom (C1 & (reported & C2) & C3 & C4 & C5 & C6 & C7)
    [Hres Hacc] [Hnf Hnest].
  unfold StartCapture, bind at 1, gets.
  destruct (IsEmpty (m_deviceAnsi (eng w))) eqn:Ed;
    [apply IsEmpty_true in Ed; contradiction|].
  unfold bind at 1. rewrite (Initialize_spec env w Hm).
  assert (Hrest : forall w1,
    m_mutex (eng w1) = false -> m_state (eng w1) = Idle ->
    m_deviceAnsi (eng w1) = m_deviceAnsi (eng w) -> disk w1 = disk w ->
    exists w',
      (dirs <- EnsureDirectories env (AnsiToWide env (basePath (Normalize env o))) ;;
       if negb dirs then ret false
       else
         lock_guard (
           st <- gets (fun w => m_state (eng w)) ;;
           if negb (State_eqb st Idle) then
             SetError "Aufnahme läuft bereits." ;;
             ret false
           else
             try_catch (StartCapture_try env (Normalize env o)) StartCapture_catch)) w1
      = Ret true w' /\ IsCapturing (eng w') = true).
  { intros w1 Hm1 Hs1 Hd1 Hfs1.
    destruct (EnsureDirectories_prepares env
                (AnsiToWide env (basePath (Normalize env o))) w1)
      as (w2 & Hrun & He & _);
      [exact Hres|now rewrite Hfs1|now rewrite Hfs1|exact Hacc|].
    unfold bind at 1. rewrite Hrun. cbn [negb].
    unfold lock_guard, lock. rewrite He, Hm1. unfold bind at 1, gets.
    change (m_state (eng (on_eng (set_mutex true) w2))) with (m_state (eng w2)).
    rewrite He, Hs1. cbn [State_eqb negb]. unfold try_catch.
    rewrite (StartCapture_try_succeeds env (Normalize env o) _ reported);
      cbn [on_eng eng set_mutex m_deviceAnsi m_previewWindow];
      rewrite ?He, ?Hd1; auto.
    eexists. split; reflexivity. }
  destruct (m_comInitialized (eng w)) eqn:Ec; cbn [negb].
  - now apply Hrest.
  - destruct Hcom as [Hcom|Hcom]; [discriminate|].
    rewrite (com_available_test env Hcom). cbn [negb]. now apply Hrest.
Qed.

Lemma StartCapture_succeeds_witness :
  exists w', StartCapture env_ok options_clip world_ready = Ret true w' /\
             IsCapturing (eng w') = true.
Proof.
  apply (StartCapture_succeeds env_ok options_clip world_ready).
  - reflexivity.
  - reflexivity.
  - vm_compute. discriminate.
  - left. reflexivity.
  - unfold collaborators_succeed. repeat split; try reflexivity. now exists 144000.
  - split.
    + intros d Hd. vm_compute in Hd. destruct Hd as [<-|[]]. vm_compute. discriminate.
    + intros fs d Hd _. vm_compute in Hd. destruct Hd as [<-|[]]. reflexivity.
  - split.
    + intros d Hd. vm_compute in Hd. destruct Hd as [<-|[]]. vm_compute. discriminate.
    + intros d Hd. vm_compute in Hd. destruct Hd as [<-|[]]. vm_compute. discriminate.
Defined.

(** X11. The failures [StartCapture] reports.  Entered without the mutex
    and with no device name set, it returns [false], records that no
    device is configured and touches nothing else: COM is not initialised
    and no directory is prepared.  Any return of [false] is either that
    one, or comes from directory preparation, with the message of the
    failed creation as last error and the session as it was. *)
Theorem StartCapture_failure_reports (env : Env) (o : WindvCaptureOptions) (w : World) :
  m_mutex (eng w) = false ->
  (m_deviceAnsi (eng w) = "" ->
     StartCapture env o w =
       Ret false (on_eng (set_lastError "Kein DirectShow-Gerät konfiguriert.") w)) /\
  (forall w', StartCapture env o w = Ret false w' ->
     (m_deviceAnsi (eng w) = "" /\
      w' = on_eng (set_lastError "Kein DirectShow-Gerät konfiguriert.") w) \/
     (m_deviceAnsi (eng w) <> "" /\
      m_lastError (eng w') = "Verzeichnis konnte nicht erstellt werden." /\
      same_session (eng w) (eng w'))).
Proof.
  intros Hm. split.
  - intros Hd. unfold StartCapture, bind, gets. rewrite Hd. cbn [IsEmpty].
    rewrite SetError_spec, Hm. reflexivity.
  - intros w' Hrun. pose proof (StartCapture_failure_is_early env o w w' Hm Hrun) as Hsame.
    revert Hrun. unfold StartCapture, bind at 1, gets.
    destruct (IsEmpty (m_deviceAnsi (eng w))) eqn:Ed.
    { apply IsEmpty_true in Ed. unfold bind. rewrite SetError_spec, Hm.
      intros [= <-]. left. now split. }
    intros Hrun. right.
    split; [intros E; rewrite E in Ed; discriminate|]. split; [|exact Hsame].
    revert Hrun. unfold bind at 1. rewrite (Initialize_spec env w Hm).
    assert (Hrest : forall w1, m_mutex (eng w1) = false ->
      (dirs <- EnsureDirectories env (AnsiToWide env (basePath (Normalize env o))) ;;
       if negb dirs then ret false
       else
         lock_guard (
           st <- gets (fun w => m_state (eng w)) ;;
           if negb (State_eqb st Idle) then
             SetError "Aufnahme läuft bereits." ;;
             ret false
           else
             try_catch (StartCapture_try env (Normalize env o)) StartCapture_catch)) w1
      = Ret false w' ->
      m_lastError (eng w') = "Verzeichnis konnte nicht erstellt werden.").
    { intros w1 Hm1. unfold bind at 1.
      pose proof (EnsureDirectories_keeps env (AnsiToWide env (basePath (Normalize env o))) w1) as Hk.
      destruct (EnsureDirectories _ _ w1) as [[|] w2|x w2|w2] eqn:Edirs; try discriminate.
      - cbn [negb]. apply keeps_engine_mutex in Hk. rewrite Hm1 in Hk.
        pose proof (StartCapture_guarded env (Normalize env o) w2 Hk) as Hg.
        destruct (lock_guard _ w2) as [ok w3|x w3|w3]; try discriminate.
        destruct Hg as (-> & _). discriminate.
      - cbn. intros [= <-]. exact (EnsureDirectories_failure_recorded _ _ _ _ Hm1 Edirs). }
    destruct (m_comInitialized (eng w)); cbn [negb]; [now apply Hrest|].
    destruct (FAILED (CoInitializeEx env) && negb (CoInitializeEx env =? RPC_E_CHANGED_MODE)%Z);
      [discriminate|].
    cbn [negb]. now apply Hrest.
Qed.

Lemma StartCapture_failure_reports_witness :
  m_mutex (eng world_new) = false /\
  StartCapture env_ok options_clip world_new =
    Ret false (on_eng (set_lastError "Kein DirectShow-Gerät konfiguriert.") world_new).
Proof.
  split; [reflexivity|].
  apply (proj1 (StartCapture_failure_reports env_ok options_clip world_new eq_refl)).
  reflexivity.
Defined.

(** ** Stopping and shutting down *)

(** X12. One capture from start to stop.  After a successful
    [StartCapture], [StopCapture] returns with the session idle, every
    collaborator pointer null and the mutex free; the stored options,
    device, last error, COM flag and the file system are those the start
    left; and a second [StopCapture] changes nothing. *)
Theorem start_stop_cycle (env : Env) (o : WindvCaptureOptions) (w w1 : World) :
  m_mutex (eng w) = false ->
  StartCapture env o w = Ret true w1 ->
  exists w2,
    StopCapture w1 = Ret tt w2 /\
    m_state (eng w2) = Idle /\
    m_mutex (eng w2) = false /\
    m_dvInput (eng w2) = None /\ m_monitor (eng w2) = None /\
    m_queue (eng w2) = None /\ m_writer (eng w2) = None /\
    m_captureThread (eng w2) = None /\
    m_options (eng w2) = Normalize env o /\
    m_deviceAnsi (eng w2) = m_deviceAnsi (eng w) /\
    m_lastError (eng w2) = m_lastError (eng w1) /\
    m_comInitialized (eng w2) = true /\
    disk w2 = disk w1 /\
    StopCapture w2 = Ret tt w2.
Proof.
  intros Hm Hrun.
  destruct (StartCapture_true_engine env o w w1 Hm Hrun)
    as (reported & message & _ & _ & _ & He).
  assert (Hm1 : m_mutex (eng w1) = false) by (rewrite He; exact Hm).
  assert (Hs1 : m_state (eng w1) = Capturing) by (rewrite He; reflexivity).
  rewrite (StopCapture_spec w1 Hm1), Hs1.
  eexists. split; [reflexivity|]. cbn. rewrite He. cbn.
  repeat split; try assumption.
  rewrite StopCapture_spec by (cbn; rewrite He; exact Hm). reflexivity.
Qed.

Lemma start_stop_cycle_witness :
  exists w2,
    StopCapture world_capturing = Ret tt w2 /\
    m_state (eng w2) = Idle /\
    m_queue (eng w2) = None /\
    StopCapture w2 = Ret tt w2.
Proof.
  destruct (start_stop_cycle env_ok options_clip world_ready world_capturing)
    as (w2 & H1 & H2 & _ & _ & _ & H3 & _ & _ & _ & _ & _ & _ & _ & H4).
  - reflexivity.
  - vm_compute. reflexivity.
  - exists w2. now repeat split.
Defined.

Lemma Shutdown_spec w :
  m_mutex (eng w) = false ->
  Shutdown w =
  match m_state (eng w) with
  | Idle => Ret tt (on_eng (set_comInitialized false) w)
  | _ =>
      Ret tt (on_eng (fun e =>
        set_comInitialized false (set_state Idle (set_queue None (set_writer None
          (set_monitor None (set_dvInput None (set_captureThread None e))))))) w)
  end.
Proof.
  intros Hm. destruct w as [e fs err log]. destruct e. cbn in Hm. subst.
  destruct m_state0, m_comInitialized0, m_dvInput0, m_monitor0, m_queue0, m_writer0,
    m_captureThread0; vm_compute; reflexivity.
Qed.

(** X13. [Shutdown] on a session that is not inside a call and, when
    idle, has no consumer thread, returns with the session idle, COM
    marked as not initialised and no consumer thread; unless the session
    was idle already, every collaborator pointer is null; the device name
    is kept; a second [Shutdown] changes nothing; and a later
    [Initialize] initialises COM again when it is available. *)
Theorem Shutdown_releases (env : Env) (w : World) :
  quiescent (eng w) ->
  exists w',
    Shutdown w = Ret tt w' /\
    m_state (eng w') = Idle /\
    m_comInitialized (eng w') = false /\
    m_mutex (eng w') = false /\
    m_captureThread (eng w') = None /\
    (m_state (eng w) <> Idle ->
       m_dvInput (eng w') = None /\ m_monitor (eng w') = None /\
       m_queue (eng w') = None /\ m_writer (eng w') = None) /\
    m_deviceAnsi (eng w') = m_deviceAnsi (eng w) /\
    Shutdown w' = Ret tt w' /\
    (com_available env ->
       Initialize env w' = Ret true (on_eng (set_comInitialized true) w')).
Proof.
  intros [Hm Hq]. rewrite (Shutdown_spec w Hm).
  destruct (m_state (eng w)) eqn:Es; eexists; (split; [reflexivity|]); cbn;
    repeat split; try assumption; try congruence; try (now apply Hq).
  all: try (rewrite Shutdown_spec by exact Hm; cbn; rewrite ?Es;
            destruct w as [e fs err log]; destruct e; cbn in *; subst; reflexivity).
  all: intros Hc; rewrite Initialize_spec by exact Hm; cbn;
    rewrite (com_available_test env Hc); reflexivity.
Qed.

Lemma Shutdown_releases_witness :
  quiescent (eng world_capturing) /\
  exists w',
    Shutdown world_capturing = Ret tt w' /\
    m_state (eng w') = Idle /\
    m_comInitialized (eng w') = false /\
    m_captureThread (eng w') = None /\
    m_writer (eng w') = None.
Proof.
  assert (Hq : quiescent (eng world_capturing)).
  { split; [reflexivity|]. vm_compute. discriminate. }
  split; [exact Hq|].
  destruct (Shutdown_releases env_ok world_capturing Hq)
    as (w' & H1 & H2 & H3 & _ & H5 & H6 & _).
  exists w'. repeat split; try assumption.
  apply H6. vm_compute. discriminate.
Defined.

(** ** What holds while every call returns *)

Lemma Normalize_queueSize_positive env o : 0 < queueSize (Normalize env o).
Proof.
  unfold Normalize. cbn [queueSize].
  destruct (Z.gtb_spec (queue_size o) 0); lia.
Qed.

Lemma SetDevice_returns env name w ok w' :
  m_mutex (eng w) = false ->
  SetDevice env name w = Ret ok w' ->
  m_state (eng w) = Idle /\
  eng w' = set_device name (WideCharToMultiByte env name)
             (set_comInitialized true (eng w)).
Proof.
  intros Hm. unfold SetDevice, bind at 1. rewrite (Initialize_spec env w Hm).
  assert (Hgo : forall w1, m_mutex (eng w1) = false ->
    eng w1 = set_comInitialized true (eng w) ->
    lock_guard (
      st <- gets (fun w => m_state (eng w)) ;;
      if negb (State_eqb st Idle) then
        SetError "Gerät kann während einer laufenden Aufnahme nicht geändert werden." ;;
        ret false
      else
        modify (on_eng (set_device name (WideCharToMultiByte env name))) ;;
        ret true) w1 = Ret ok w' ->
    m_state (eng w) = Idle /\
    eng w' = set_device name (WideCharToMultiByte env name)
               (set_comInitialized true (eng w))).
  { intros w1 Hm1 He1. unfold lock_guard, lock. rewrite Hm1. unfold bind at 1, gets.
    change (m_state (eng (on_eng (set_mutex true) w1))) with (m_state (eng w1)).
    assert (Hs : m_state (eng w1) = m_state (eng w)) by now rewrite He1.
    destruct (m_state (eng w1)) eqn:Est; cbn [State_eqb negb];
      [|unfold bind; rewrite SetError_spec; discriminate
       |unfold bind; rewrite SetError_spec; discriminate].
    cbn. intros [= _ <-]. split; [now symmetry|]. cbn. rewrite He1.
    destruct (eng w). cbn in *. now subst. }
  destruct (m_comInitialized (eng w)) eqn:Ec; cbn [negb].
  - apply Hgo; [exact Hm|]. destruct (eng w). cbn in *. now subst.
  - destruct (FAILED (CoInitializeEx env) && negb (CoInitializeEx env =? RPC_E_CHANGED_MODE)%Z);
      [discriminate|].
    cbn [negb]. apply Hgo; [exact Hm|reflexivity].
Qed.

Lemma SetPreviewWindow_spec hwnd w :
  m_mutex (eng w) = false ->
  SetPreviewWindow hwnd w =
  match m_state (eng w) with
  | Capturing => Relock (on_eng (set_mutex true) w)
  | _ => Ret true (on_eng (set_previewWindow hwnd) w)
  end.
Proof.
  intros Hm. unfold SetPreviewWindow, lock_guard, lock. rewrite Hm. unfold bind at 1, gets.
  change (m_state (eng (on_eng (set_mutex true) w))) with (m_state (eng w)).
  destruct (m_state (eng w)) eqn:Est; cbn [State_eqb].
  - destruct w as [e fs err log]. destruct e. cbn in *. now subst.
  - unfold bind. rewrite SetError_spec. reflexivity.
  - destruct w as [e fs err log]. destruct e. cbn in *. now subst.
Qed.

(** The engine after a [StartCapture] that returned [false]. *)
Lemma StartCapture_false_engine env o w w' :
  m_mutex (eng w) = false ->
  StartCapture env o w = Ret false w' ->
  exists message,
    eng w' = set_lastError message (eng w) \/
    eng w' = set_lastError message (set_comInitialized true (eng w)).
Proof.
  intros Hm. unfold StartCapture, bind at 1, gets.
  destruct (IsEmpty (m_deviceAnsi (eng w))).
  { unfold bind. rewrite SetError_spec, Hm. intros [= <-]. eexists. left. reflexivity. }
  unfold bind at 1. rewrite (Initialize_spec env w Hm).
  assert (Hrest : forall w1, m_mutex (eng w1) = false ->
    (dirs <- EnsureDirectories env (AnsiToWide env (basePath (Normalize env o))) ;;
     if negb dirs then ret false
     else
       lock_guard (
         st <- gets (fun w => m_state (eng w)) ;;
         if negb (State_eqb st Idle) then
           SetError "Aufnahme läuft bereits." ;;
           ret false
         else
           try_catch (StartCapture_try env (Normalize env o)) StartCapture_catch)) w1
    = Ret false w' ->
    eng w' = set_lastError (m_lastError (eng w')) (eng w1)).
  { intros w1 Hm1. unfold bind at 1.
    pose proof (EnsureDirectories_keeps env (AnsiToWide env (basePath (Normalize env o))) w1) as Hk.
    destruct (EnsureDirectories _ _ w1) as [[|] w2|x w2|w2] eqn:Edirs; try discriminate.
    - cbn [negb]. apply keeps_engine_mutex in Hk. rewrite Hm1 in Hk.
      pose proof (StartCapture_guarded env (Normalize env o) w2 Hk) as Hg.
      destruct (lock_guard _ w2) as [ok w3|x w3|w3]; try discriminate.
      destruct Hg as (-> & _). discriminate.
    - cbn. intros [= <-]. cbn in Hk.
      destruct (eng w2), (eng w1). cbn in *. injection Hk as -> -> -> -> -> -> -> -> -> -> -> -> ->.
      reflexivity. }
  destruct (m_comInitialized (eng w)); cbn [negb].
  - intros H. exists (m_lastError (eng w')). left. now apply Hrest.
  - destruct (FAILED (CoInitializeEx env) && negb (CoInitializeEx env =? RPC_E_CHANGED_MODE)%Z);
      [discriminate|].
    cbn [negb]. intros H. exists (m_lastError (eng w')). right.
    apply (Hrest (on_eng (set_comInitialized true) w) Hm). exact H.
Qed.

Lemma consistent_set_lastError message e :
  session_consistent e -> session_consistent (set_lastError message e).
Proof. intros H. exact H. Qed.

Lemma consistent_set_comInitialized_true e :
  session_consistent e -> session_consistent (set_comInitialized true e).
Proof.
  intros (H1 & H2 & H3). split; [exact H1|]. split; [exact H2|].
  intros Hc. destruct (H3 Hc) as (A & B & C). split; [exact A|].
  split; [reflexivity|exact C].
Qed.

Lemma consistent_started env o reported e :
  m_state e = Idle -> IsEmpty (m_deviceAnsi e) = false -> session_consistent e ->
  session_consistent (started env (Normalize env o) reported (set_comInitialized true e)).
Proof.
  intros Hidle Hdev (_ & H2 & _). destruct (H2 Hidle) as (_ & Hmon & _).
  split; [discriminate|]. split; [discriminate|]. intros _.
  unfold started.
  cbn [m_deviceAnsi m_comInitialized m_dvInput m_queue m_writer m_captureThread
       m_monitor m_options m_previewWindow set_comInitialized].
  split. { intros E. rewrite E in Hdev. discriminate. }
  split; [reflexivity|]. split; [reflexivity|].
  split.
  { eexists. split; [reflexivity|]. cbn [q_size q_sampleSize]. split; [reflexivity|].
    split; [apply Normalize_queueSize_positive|].
    rewrite negotiated_sample_size_max. lia. }
  split; [discriminate|]. split; [reflexivity|].
  rewrite Hmon. intros Hne.
  destruct (enablePreview (Normalize env o) && negb (m_previewWindow e =? 0)%Z) eqn:E;
    [|congruence].
  apply andb_true_iff in E as [E1 E2]. split; [exact E1|].
  intros E0. rewrite E0 in E2. discriminate.
Qed.

(** Consistency looks at the state, the collaborators, the shape of the
    queue and, while capturing, at device, window, options and COM flag. *)
Lemma consistent_ext e e' :
  m_state e' = m_state e ->
  m_dvInput e' = m_dvInput e -> m_monitor e' = m_monitor e ->
  queue_shape e' = queue_shape e ->
  m_writer e' = m_writer e -> m_captureThread e' = m_captureThread e ->
  (m_state e = Capturing ->
     m_deviceAnsi e' = m_deviceAnsi e /\ m_previewWindow e' = m_previewWindow e /\
     m_options e' = m_options e /\ m_comInitialized e' = m_comInitialized e) ->
  session_consistent e -> session_consistent e'.
Proof.
  intros Hs Hdv Hmon Hq Hwr Hth Hcap (H1 & H2 & H3).
  unfold session_consistent. rewrite Hs, Hdv, Hmon, Hwr, Hth.
  split; [exact H1|]. split.
  - intros Hi. destruct (H2 Hi) as (A & B & C & D & E).
    split; [exact A|]. split; [exact B|]. split; [|split; [exact D|exact E]].
    unfold queue_shape in Hq. rewrite C in Hq. destruct (m_queue e'); [discriminate|reflexivity].
  - intros Hc. destruct (Hcap Hc) as (Ea & Ew & Eo & Ec). rewrite Ea, Ew, Eo, Ec.
    destruct (H3 Hc) as (A & B & C & (q & Hq' & D1 & D2 & D3) & E & F & G).
    split; [exact A|]. split; [exact B|]. split; [exact C|]. split.
    + unfold queue_shape in Hq. rewrite Hq' in Hq.
      destruct (m_queue e') as [q'|]; [|discriminate].
      injection Hq as Hsz Hsa. exists q'. split; [reflexivity|].
      rewrite Hsz, Hsa. now repeat split.
    + split; [exact E|]. split; [exact F|exact G].
Qed.

Lemma consistent_idle e :
  m_state e = Idle ->
  m_dvInput e = None -> m_monitor e = None -> m_queue e = None ->
  m_writer e = None -> m_captureThread e = None ->
  session_consistent e.
Proof.
  intros Hs A B C D E. unfold session_consistent. rewrite Hs.
  split; [discriminate|]. split; [intros _; now repeat split|discriminate].
Qed.

(** X24. The invariant of a session on which every call has returned.
    Starting from the engine as constructed, as long as no call has ended
    otherwise than by returning (none has stopped at a second [lock] of
    [m_mutex]), the session is consistent: it is idle or capturing, never
    stopping; idle, it points to no collaborator; capturing, it has a
    device name, COM initialised, a running capture source for the device,
    a queue with the capacity of the stored options, at least one slot and
    samples of at least 144000 bytes, a writer, a resumed thread, and a
    preview renderer only if preview is enabled and a window is set.
    Nothing is said here about a session on which a call has not
    returned. *)
Theorem reachable_consistent (w : World) :
  reachable w -> session_consistent (eng w).
Proof.
  intros Hr. induction Hr as [fs err log
                 |env w ok w' Hr IH Hrun
                 |env name w ok w' Hr IH Hrun
                 |hwnd w ok w' Hr IH Hrun
                 |env options w ok w' Hr IH Hrun
                 |w w' Hr IH Hrun
                 |w w' Hr IH Hrun
                 |message w w' Hr IH Hrun
                 |f w w' Hr IH Hrun
                 |w q Hr IH Hq].
  - now apply consistent_idle.
  - destruct (reachable_quiescent w Hr) as [Hm _].
    rewrite (Initialize_spec env w Hm) in Hrun.
    destruct (m_comInitialized (eng w)) eqn:Ec; [now injection Hrun as _ <-|].
    destruct (FAILED (CoInitializeEx env) && negb (CoInitializeEx env =? RPC_E_CHANGED_MODE)%Z);
      [discriminate|].
    injection Hrun as _ <-. now apply consistent_set_comInitialized_true.
  - destruct (reachable_quiescent w Hr) as [Hm _].
    destruct (SetDevice_returns _ _ _ _ _ Hm Hrun) as [Hidle He]. rewrite He.
    apply (consistent_ext (eng w)); try reflexivity; [|exact IH].
    intros Hc. congruence.
  - destruct (reachable_quiescent w Hr) as [Hm _].
    rewrite (SetPreviewWindow_spec hwnd w Hm) in Hrun.
    assert (He : m_state (eng w) <> Capturing /\ eng w' = set_previewWindow hwnd (eng w)).
    { destruct (m_state (eng w)); try discriminate; injection Hrun as _ <-;
        (split; [discriminate|reflexivity]). }
    destruct He as [Hnc He]. rewrite He.
    apply (consistent_ext (eng w)); try reflexivity; [|exact IH].
    intros Hc. contradiction.
  - destruct (reachable_quiescent w Hr) as [Hm _]. destruct ok.
    + destruct (StartCapture_true_engine _ _ _ _ Hm Hrun)
        as (reported & message & _ & Hidle & Hdev & He).
      rewrite He. apply consistent_set_lastError. now apply consistent_started.
    + destruct (StartCapture_false_engine _ _ _ _ Hm Hrun) as (message & [He | He]);
        rewrite He.
      * now apply consistent_set_lastError.
      * apply consistent_set_lastError. now apply consistent_set_comInitialized_true.
  - destruct (reachable_quiescent w Hr) as [Hm _].
    rewrite (StopCapture_spec w Hm) in Hrun.
    destruct (m_state (eng w)) eqn:Es; injection Hrun as <-;
      [exact IH|now apply consistent_idle|now apply consistent_idle].
  - destruct (reachable_quiescent w Hr) as [Hm _].
    rewrite (Shutdown_spec w Hm) in Hrun.
    destruct (m_state (eng w)) eqn:Es; injection Hrun as <-;
      [|now apply consistent_idle|now apply consistent_idle].
    apply (consistent_ext (eng w)); try reflexivity; [|exact IH].
    intros Hc. change (m_state (eng w) = Capturing) in Hc. congruence.
  - destruct (reachable_quiescent w Hr) as [Hm _].
    unfold ReportExternalError in Hrun. rewrite SetError_spec, Hm in Hrun.
    injection Hrun as <-. exact IH.
  - unfold HandleFrame, bind, gets in Hrun.
    destruct (m_queue (eng w)) as [q|] eqn:Eq; injection Hrun as <-; [|exact IH].
    apply (consistent_ext (eng w)); try reflexivity; [|now repeat split|exact IH].
    unfold queue_shape. cbn [eng on_eng m_queue set_queue]. rewrite Eq. reflexivity.
  - apply (consistent_ext (eng w)); try reflexivity; [|now repeat split|exact IH].
    unfold queue_shape. cbn [eng on_eng m_queue set_queue]. rewrite Hq.
    unfold Get. destruct (q_entries q); reflexivity.
Qed.

Lemma reachable_consistent_witness :
  reachable world_capturing /\
  m_state (eng world_capturing) = Capturing /\
  exists q, m_queue (eng world_capturing) = Some q /\ 0 < q_size q.
Proof.
  split; [exact world_capturing_reachable|]. split; [reflexivity|].
  destruct (reachable_consistent world_capturing world_capturing_reachable)
    as (_ & _ & H).
  destruct (H eq_refl) as (_ & _ & _ & (q & Hq & _ & Hpos & _) & _).
  exists q. now split.
Defined.

(** ** What holds between two calls, however they ended *)

Lemma sound_ext e e' :
  m_mutex e' = false ->
  m_state e' = m_state e ->
  m_dvInput e' = m_dvInput e -> queue_shape e' = queue_shape e ->
  m_writer e' = m_writer e -> m_captureThread e' = m_captureThread e ->
  (m_state e = Capturing ->
     m_deviceAnsi e' = m_deviceAnsi e /\ m_options e' = m_options e /\
     m_comInitialized e' = true) ->
  session_sound e -> session_sound e'.
Proof.
  intros Hm Hs Hdv Hq Hwr Hth Hcap (_ & H1 & H2 & H3).
  unfold session_sound. rewrite Hs, Hdv, Hwr, Hth.
  split; [exact Hm|]. split; [exact H1|]. split; [exact H2|].
  intros Hc. destruct (Hcap Hc) as (Ea & Eo & Ec). rewrite Ea, Eo, Ec.
  destruct (H3 Hc) as (A & _ & C & (q & Hq' & D1 & D2 & D3) & E).
  split; [exact A|]. split; [reflexivity|]. split; [exact C|]. split; [|exact E].
  unfold queue_shape in Hq. rewrite Hq' in Hq.
  destruct (m_queue e') as [q'|]; [|discriminate].
  cbn [option_map] in Hq. injection Hq as Hsz Hsa. exists q'. split; [reflexivity|].
  rewrite Hsz, Hsa. now repeat split.
Qed.

Lemma sound_idle e :
  m_mutex e = false -> m_state e = Idle -> m_captureThread e = None -> session_sound e.
Proof.
  intros Hm Hs Ht. unfold session_sound. rewrite Hs, Ht.
  split; [exact Hm|]. split; [discriminate|]. split; [congruence|discriminate].
Qed.

(** The [try] block of [StartCapture], wherever it stops. *)
Lemma StartCapture_try_sound env n w :
  m_mutex (eng w) = true ->
  m_state (eng w) = Idle -> m_captureThread (eng w) = None ->
  m_deviceAnsi (eng w) <> "" -> m_comInitialized (eng w) = true ->
  0 < queueSize n ->
  session_sound (eng (left_by (StartCapture_try env n w))).
Proof.
  intros Hm Hs Ht Hdev Hcom Hq. destruct w as [e fs err log]. destruct e.
  cbn [eng m_mutex m_state m_captureThread m_deviceAnsi m_comInitialized]
    in Hm, Hs, Ht, Hdev, Hcom.
  subst. unfold left_by, StartCapture_try, bind, gets, modify, ret.
  cbn [eng m_deviceAnsi].
  destruct (new_CDVInput env _) as [[]|x]; [|now apply sound_idle].
  cbn [call ret throw]. members.
  destruct (GetMediaType env) as [reported|x]; [|now apply sound_idle].
  cbn [call ret throw]. members.
  assert (Hsample : 144000 <= (if (to_int reported <? 144000)%Z then 144000 else to_int reported)).
  { destruct (to_int reported <? 144000)%Z eqn:E; [lia|]. apply Z.ltb_ge in E. lia. }
  destruct (to_int reported <? 144000)%Z; members.
  all: destruct (new_CDVQueue env _ _) as [[]|x]; [|now apply sound_idle].
  all: cbn [call ret throw]; members.
  all: destruct (enablePreview n && negb (m_previewWindow0 =? 0)%Z).
  all: try (destruct (new_CMonitor env _) as [[]|x]; [|now apply sound_idle]).
  all: cbn [call ret throw]; members.
  all: destruct (new_CAVIWriter env _ _) as [[]|x]; [|now apply sound_idle].
  all: cbn [call ret throw]; members.
  all: destruct (Run env) as [[]|x]; [|now apply sound_idle].
  all: cbn [call ret throw]; members.
  all: destruct (AfxBeginThread env); members.
  all: try (rewrite SetError_spec; members; cbn [final]; members).
  all: cbn [final]; members.
  all: unfold session_sound; cbn [m_mutex m_state m_captureThread m_deviceAnsi
         m_comInitialized m_dvInput m_queue m_options m_writer q_size q_sampleSize].
  all: split; [reflexivity|]; split; [discriminate|]; split; [reflexivity|]; intros _.
  all: split; [exact Hdev|]; split; [reflexivity|]; split; [reflexivity|].
  all: (split; [|discriminate]).
  all: eexists; split; [reflexivity|]; cbn [q_size q_sampleSize];
    split; [reflexivity|]; split; [exact Hq|]; first [exact Hsample | lia].
Qed.

Lemma sound_idle_no_thread e :
  session_sound e -> m_state e = Idle -> m_captureThread e = None.
Proof.
  intros (_ & _ & Hth & _) Hs. destruct (m_captureThread e); [|reflexivity].
  rewrite Hth in Hs; discriminate.
Qed.

Lemma sound_unlocked e : session_sound e -> session_sound (set_mutex false e).
Proof. intros H. apply (sound_ext e); try reflexivity; [|exact H]. intros Hc.
  destruct H as (_ & _ & _ & H). destruct (H Hc) as (_ & Hcom & _). now repeat split.
Qed.

Lemma sound_set_comInitialized_true e :
  session_sound e -> session_sound (set_mutex false (set_comInitialized true e)).
Proof.
  intros H. apply (sound_ext e); try reflexivity; [|exact H]. intros _. now repeat split.
Qed.

Lemma sound_set_lastError message e :
  session_sound e -> session_sound (set_mutex false (set_lastError message e)).
Proof.
  intros H. apply (sound_ext e); try reflexivity; [|exact H]. intros Hc.
  destruct H as (_ & _ & _ & H). destruct (H Hc) as (_ & Hcom & _). now repeat split.
Qed.

Lemma sound_same_but_lastError e e' :
  set_lastError "" e' = set_lastError "" e -> session_sound e -> session_sound e'.
Proof.
  intros Hk H. destruct e', e. cbn in Hk.
  injection Hk as -> -> -> -> -> -> -> -> -> -> -> -> ->. exact H.
Qed.

Lemma sound_com e : session_sound e -> session_sound (set_comInitialized true e).
Proof.
  intros H. apply (sound_ext e); try reflexivity; [apply H| |exact H].
  intros _. now repeat split.
Qed.

Lemma Initialize_sound env w :
  session_sound (eng w) -> session_sound (eng (left_by (Initialize env w))).
Proof.
  intros H. pose proof H as (Hm & _). rewrite (Initialize_spec env w Hm).
  destruct (m_comInitialized (eng w)); [now apply sound_unlocked|].
  destruct (FAILED (CoInitializeEx env) && negb (CoInitializeEx env =? RPC_E_CHANGED_MODE)%Z).
  - apply (sound_unlocked (eng w)) in H. exact H.
  - now apply sound_set_comInitialized_true.
Qed.

Lemma SetDevice_guarded env name w :
  m_mutex (eng w) = false ->
  lock_guard (
    st <- gets (fun w => m_state (eng w)) ;;
    if negb (State_eqb st Idle) then
      SetError "Gerät kann während einer laufenden Aufnahme nicht geändert werden." ;;
      ret false
    else
      modify (on_eng (set_device name (WideCharToMultiByte env name))) ;;
      ret true) w =
  match m_state (eng w) with
  | Idle => Ret true (on_eng (set_device name (WideCharToMultiByte env name)) w)
  | _ => Relock (on_eng (set_mutex true) w)
  end.
Proof.
  intros Hm. unfold lock_guard, lock. rewrite Hm. unfold bind at 1, gets.
  change (m_state (eng (on_eng (set_mutex true) w))) with (m_state (eng w)).
  destruct (m_state (eng w)) eqn:Est; cbn [State_eqb negb].
  - destruct w as [e fs err log]. destruct e. cbn in *. now subst.
  - unfold bind. rewrite SetError_spec. reflexivity.
  - unfold bind. rewrite SetError_spec. reflexivity.
Qed.

Lemma SetDevice_sound env name w :
  session_sound (eng w) -> session_sound (eng (left_by (SetDevice env name w))).
Proof.
  intros H. pose proof H as (Hm & _).
  assert (Hgo : forall w1, session_sound (eng w1) ->
    session_sound (eng (left_by (
      lock_guard (
        st <- gets (fun w => m_state (eng w)) ;;
        if negb (State_eqb st Idle) then
          SetError "Gerät kann während einer laufenden Aufnahme nicht geändert werden." ;;
          ret false
        else
          modify (on_eng (set_device name (WideCharToMultiByte env name))) ;;
          ret true) w1)))).
  { intros w1 H1. pose proof H1 as (Hm1 & Hst & Hth & _).
    rewrite (SetDevice_guarded env name w1 Hm1).
    destruct (m_state (eng w1)) eqn:Es.
    - apply sound_idle; [reflexivity|exact Es|].
      exact (sound_idle_no_thread _ H1 Es).
    - apply (sound_unlocked (eng w1)) in H1. exact H1.
    - apply (sound_unlocked (eng w1)) in H1. exact H1. }
  unfold SetDevice, bind at 1. rewrite (Initialize_spec env w Hm).
  destruct (m_comInitialized (eng w)); cbn [negb]; [now apply Hgo|].
  destruct (FAILED (CoInitializeEx env) && negb (CoInitializeEx env =? RPC_E_CHANGED_MODE)%Z).
  - apply (sound_unlocked (eng w)) in H. exact H.
  - cbn [negb]. apply Hgo. now apply (sound_com (eng w)).
Qed.

Lemma SetPreviewWindow_sound hwnd w :
  session_sound (eng w) -> session_sound (eng (left_by (SetPreviewWindow hwnd w))).
Proof.
  intros H. pose proof H as (Hm & _ & _ & Hcap).
  rewrite (SetPreviewWindow_spec hwnd w Hm).
  destruct (m_state (eng w)) eqn:Es.
  - apply (sound_ext (eng w)); try reflexivity; [|exact H]. rewrite Es. discriminate.
  - apply (sound_unlocked (eng w)) in H. exact H.
  - apply (sound_ext (eng w)); try reflexivity; [|exact H]. rewrite Es. discriminate.
Qed.

Lemma StopCapture_sound w :
  session_sound (eng w) -> session_sound (eng (left_by (StopCapture w))).
Proof.
  intros H. pose proof H as (Hm & _).
  rewrite (StopCapture_spec w Hm).
  destruct (m_state (eng w)) eqn:Es;
    [now apply sound_unlocked|now apply sound_idle|now apply sound_idle].
Qed.

Lemma Shutdown_sound w :
  session_sound (eng w) -> session_sound (eng (left_by (Shutdown w))).
Proof.
  intros H. pose proof H as (Hm & _ & Hth & _).
  rewrite (Shutdown_spec w Hm).
  destruct (m_state (eng w)) eqn:Es; [|now apply sound_idle|now apply sound_idle].
  apply sound_idle; [reflexivity|exact Es|].
  exact (sound_idle_no_thread _ H Es).
Qed.

Lemma sound_started env o reported e :
  m_mutex e = false -> IsEmpty (m_deviceAnsi e) = false ->
  session_sound (started env (Normalize env o) reported (set_comInitialized true e)).
Proof.
  intros Hm Hdev. unfold session_sound, started.
  cbn [m_mutex m_state m_captureThread m_deviceAnsi m_comInitialized m_dvInput m_queue
       m_writer m_options set_comInitialized].
  split; [exact Hm|]. split; [discriminate|]. split; [reflexivity|]. intros _.
  split. { intros E. rewrite E in Hdev. discriminate. }
  split; [reflexivity|]. split; [reflexivity|]. split; [|discriminate].
  eexists. split; [reflexivity|]. cbn [q_size q_sampleSize]. split; [reflexivity|].
  split; [apply Normalize_queueSize_positive|].
  rewrite negotiated_sample_size_max. lia.
Qed.

(** [StartCapture] where it stops at the mutex. *)
Lemma StartCapture_stops_sound env o w w' :
  session_sound (eng w) ->
  StartCapture env o w = Relock w' ->
  session_sound (set_mutex false (eng w')).
Proof.
  intros H. pose proof H as (Hm & _). unfold StartCapture, bind at 1, gets.
  destruct (IsEmpty (m_deviceAnsi (eng w))) eqn:Edev.
  { unfold bind. rewrite SetError_spec, Hm. discriminate. }
  unfold bind at 1. rewrite (Initialize_spec env w Hm).
  assert (Hrest : forall w1,
    session_sound (eng w1) -> m_comInitialized (eng w1) = true ->
    m_deviceAnsi (eng w1) = m_deviceAnsi (eng w) ->
    (dirs <- EnsureDirectories env (AnsiToWide env (basePath (Normalize env o))) ;;
     if negb dirs then ret false
     else
       lock_guard (
         st <- gets (fun w => m_state (eng w)) ;;
         if negb (State_eqb st Idle) then
           SetError "Aufnahme läuft bereits." ;;
           ret false
         else
           try_catch (StartCapture_try env (Normalize env o)) StartCapture_catch)) w1
    = Relock w' ->
    session_sound (set_mutex false (eng w'))).
  { intros w1 H1 Hcom1 Hdev1. pose proof H1 as (Hm1 & _). unfold bind at 1.
    pose proof (EnsureDirectories_keeps env (AnsiToWide env (basePath (Normalize env o))) w1) as Hk.
    destruct (EnsureDirectories _ _ w1) as [[|] w2|x w2|w2] eqn:Edirs; try discriminate.
    - cbn [negb]. cbn [keeps_engine] in Hk.
      assert (H2 : session_sound (eng w2)) by exact (sound_same_but_lastError _ _ Hk H1).
      assert (Hcom2 : m_comInitialized (eng w2) = true).
      { change (m_comInitialized (set_lastError "" (eng w2)) = true). now rewrite Hk. }
      assert (Hdev2 : m_deviceAnsi (eng w2) = m_deviceAnsi (eng w)).
      { change (m_deviceAnsi (set_lastError "" (eng w2)) = m_deviceAnsi (eng w)).
        now rewrite Hk. }
      pose proof H2 as (Hm2 & _ & Hth2 & _).
      unfold lock_guard, lock. rewrite Hm2. unfold bind at 1, gets.
      change (m_state (eng (on_eng (set_mutex true) w2))) with (m_state (eng w2)).
      destruct (m_state (eng w2)) eqn:Est; cbn [State_eqb negb].
      + assert (Hth : m_captureThread (eng w2) = None)
          by exact (sound_idle_no_thread _ H2 Est).
        pose proof (StartCapture_try_sound env (Normalize env o) (on_eng (set_mutex true) w2)
                      eq_refl Est Hth) as Hs.
        pose proof (StartCapture_try_locked env (Normalize env o) (on_eng (set_mutex true) w2)
                      eq_refl) as Hl.
        unfold try_catch.
        destruct (StartCapture_try env (Normalize env o) (on_eng (set_mutex true) w2))
          as [ok w3|x w3|w3]; [discriminate| |].
        * destruct Hl as [Hm3 _]. rewrite (StartCapture_catch_locked _ _ Hm3).
          intros [= <-]. apply Hs.
          -- change (m_deviceAnsi (eng w2) <> ""). rewrite Hdev2. intros E.
             rewrite E in Edev. discriminate.
          -- exact Hcom2.
          -- apply Normalize_queueSize_positive.
        * intros [= <-]. apply Hs.
          -- change (m_deviceAnsi (eng w2) <> ""). rewrite Hdev2. intros E.
             rewrite E in Edev. discriminate.
          -- exact Hcom2.
          -- apply Normalize_queueSize_positive.
      + unfold bind. rewrite SetError_spec. cbn [on_eng eng set_mutex m_mutex].
        intros [= <-]. apply (sound_unlocked (eng w2)) in H2. exact H2.
      + unfold bind. rewrite SetError_spec. cbn [on_eng eng set_mutex m_mutex].
        intros [= <-]. apply (sound_unlocked (eng w2)) in H2. exact H2.
    - destruct Hk as [_ Hk]. congruence. }
  destruct (m_comInitialized (eng w)) eqn:Ec; cbn [negb].
  - now apply Hrest.
  - destruct (FAILED (CoInitializeEx env) && negb (CoInitializeEx env =? RPC_E_CHANGED_MODE)%Z).
    + intros [= <-]. apply (sound_unlocked (eng w)) in H. exact H.
    + cbn [negb]. apply Hrest; [|reflexivity|reflexivity].
      now apply (sound_com (eng w)).
Qed.

Lemma StartCapture_sound env o w :
  session_sound (eng w) -> session_sound (eng (left_by (StartCapture env o w))).
Proof.
  intros H. pose proof H as (Hm & _).
  pose proof (StartCapture_outcome env o w Hm) as Hout.
  destruct (StartCapture env o w) as [[|] w'|x w'|w'] eqn:Hrun.
  - destruct (StartCapture_true_engine _ _ _ _ Hm Hrun) as (reported & message & _ & _ & Hdev & He).
    unfold left_by. cbn [final eng on_eng]. rewrite He.
    apply sound_set_lastError. now apply sound_started.
  - destruct (StartCapture_false_engine _ _ _ _ Hm Hrun) as (message & [He|He]);
      unfold left_by; cbn [final eng on_eng]; rewrite He.
    + now apply sound_set_lastError.
    + apply sound_set_lastError. now apply sound_com.
  - destruct Hout.
  - exact (StartCapture_stops_sound env o w w' H Hrun).
Qed.

(** X14. What holds between two calls however the calls ended.  A call
    either returns or stops at a second [lock] of [m_mutex] by the thread
    that holds it; such a call is read as ending there with its guards
    released, which is what happens when that [lock] throws.  Under both
    endings, starting from the engine as constructed: nobody holds the
    mutex between two calls; the state is Idle or Capturing, never
    Stopping; a thread object exists only while the state is Capturing;
    and a capturing engine has a device name, COM initialised, a running
    capture source for that device, a queue with the capacity of the
    stored options, at least one slot and samples of at least 144000
    bytes, and a writer.  (That an idle engine points to no collaborator
    is not among these: a start that failed half-way leaves them.) *)
Theorem between_calls_sound (w : World) :
  between_calls w -> session_sound (eng w).
Proof.
  intros Hb. induction Hb as [fs err log
                 |env w Hb IH
                 |env name w Hb IH
                 |hwnd w Hb IH
                 |env options w Hb IH
                 |w Hb IH
                 |w Hb IH
                 |message w Hb IH
                 |f w Hb IH
                 |w q Hb IH Hq].
  - now apply sound_idle.
  - now apply Initialize_sound.
  - now apply SetDevice_sound.
  - now apply SetPreviewWindow_sound.
  - now apply StartCapture_sound.
  - now apply StopCapture_sound.
  - now apply Shutdown_sound.
  - pose proof IH as (Hm & _). unfold ReportExternalError.
    rewrite SetError_spec, Hm. now apply sound_set_lastError.
  - pose proof IH as (Hm & _ & _ & Hcap). unfold HandleFrame, bind, gets.
    destruct (m_queue (eng w)) as [q|] eqn:Eq; [|now apply sound_unlocked].
    apply (sound_ext (eng w)); try reflexivity; [| |exact IH].
    + unfold queue_shape. cbn. rewrite Eq. reflexivity.
    + intros Hc. destruct (Hcap Hc) as (_ & Hcom & _). now repeat split.
  - pose proof IH as (Hm & _ & _ & Hcap).
    apply (sound_ext (eng w)); try reflexivity; [exact Hm| | |exact IH].
    + unfold queue_shape. cbn [eng on_eng m_queue set_queue]. rewrite Hq.
      unfold Get. destruct (q_entries q); reflexivity.
    + intros Hc. destruct (Hcap Hc) as (_ & Hcom & _). now repeat split.
Qed.

(** X14 for the session a start leaves whose writer could not open its
    file: idle, with the capture source and the queue still there. *)
Lemma between_calls_sound_witness :
  between_calls (left_by (StartCapture env_writer_fails options_clip world_ready)) /\
  m_state (eng (left_by (StartCapture env_writer_fails options_clip world_ready))) = Idle /\
  m_queue (eng (left_by (StartCapture env_writer_fails options_clip world_ready)))
    = Some (mkQueue 4 144000 []) /\
  session_sound (eng (left_by (StartCapture env_writer_fails options_clip world_ready))).
Proof.
  assert (Hb : between_calls
                 (left_by (StartCapture env_writer_fails options_clip world_ready))).
  { apply rest_StartCapture.
    change world_ready with (left_by (SetDevice env_ok "cam" world_new)).
    apply rest_SetDevice. apply rest_new. }
  split; [exact Hb|]. split; [vm_compute; reflexivity|]. split; [vm_compute; reflexivity|].
  exact (between_calls_sound _ Hb).
Defined.

(** ** The output directory *)

Lemma find_last_of_app_separator (a b : string) (c : ascii) :
  char_in c separators = true ->
  find_last_of b separators = None ->
  find_last_of (a ++ String c b) separators = Some (String.length a).
Proof.
  intros Hc Hb. induction a as [|x a IH].
  - change ("" ++ String c b) with (String c b). cbn [find_last_of].
    now rewrite Hb, Hc.
  - rewrite append_String. cbn [find_last_of String.length]. now rewrite IH.
Qed.

Lemma substr0_app (a b : string) : substr0 (a ++ b) (String.length a) = a.
Proof.
  unfold substr0. induction a as [|x a IH].
  - change ("" ++ b) with b. destruct b; reflexivity.
  - rewrite append_String. cbn [String.length substring]. now rewrite IH.
Qed.

Lemma dirname_of_joined (dir name : string) :
  find_last_of name separators = None ->
  dirname (dir ++ "\" ++ name) = Some dir.
Proof.
  intros Hn. unfold dirname.
  change ("\" ++ name) with (String backslash name).
  rewrite (find_last_of_app_separator dir name backslash eq_refl Hn).
  now rewrite substr0_app.
Qed.

Lemma Normalize_basePath_joined env o dir name :
  output_directory o = Some dir -> dir <> "" -> ~ has_trailing_separator dir ->
  effective_name o name ->
  basePath (Normalize env o) = WideCharToMultiByte env (dir ++ "\" ++ name).
Proof.
  intros Hd Hne Hsep Hname. unfold Normalize. cbn [basePath].
  rewrite (proj2 (given_Some _ _) (conj Hd Hne)).
  assert (E1 : IsEmpty dir = false) by (destruct dir; [congruence|reflexivity]).
  assert (E2 : ends_with_separator dir = false).
  { destruct (ends_with_separator dir) eqn:E; [|reflexivity].
    apply ends_with_separator_spec in E. contradiction. }
  rewrite E1, E2. cbn [negb andb].
  destruct Hname as [[Hn1 Hn2]|[Hn1 ->]].
  - rewrite (proj2 (given_Some _ _) (conj Hn1 Hn2)). f_equal. apply append_assoc.
  - rewrite (proj2 (given_None _) Hn1). f_equal. apply append_assoc.
Qed.

(** X15. After a successful [StartCapture] the output directory is there.
    For options that give a non-empty output directory without a trailing
    separator and a file name (given or default) without separators, on a
    platform whose code-page conversions give the joined path back, a
    return of [true] means that the output directory designates an entry
    of the file system. *)
Theorem StartCapture_output_directory (env : Env) (o : WindvCaptureOptions)
    (w w' : World) (dir name : wstring) :
  m_mutex (eng w) = false ->
  StartCapture env o w = Ret true w' ->
  output_directory o = Some dir -> dir <> "" -> ~ has_trailing_separator dir ->
  effective_name o name ->
  find_last_of name separators = None ->
  AnsiToWide env (WideCharToMultiByte env (dir ++ "\" ++ name)) = dir ++ "\" ++ name ->
  entry env (disk w') dir <> None.
Proof.
  intros Hm Hrun Hd Hne Hsep Hname Hplain Hconv.
  destruct (StartCapture_true_inv env o w w' Hm Hrun)
    as (w2 & w3 & _ & _ & Hdisk & _ & (w1 & _ & _ & Hdirs) & _).
  rewrite (Normalize_basePath_joined env o dir name Hd Hne Hsep Hname), Hconv in Hdirs.
  rewrite Hdisk.
  exact (EnsureDirectories_true_entry _ _ _ _ dir Hdirs (dirname_of_joined dir name Hplain) Hne).
Qed.

Lemma StartCapture_output_directory_witness :
  StartCapture env_ok options_clip world_ready = Ret true world_capturing /\
  entry env_ok (disk world_capturing) "out" <> None.
Proof.
  assert (Hrun : StartCapture env_ok options_clip world_ready = Ret true world_capturing)
    by (vm_compute; reflexivity).
  split; [exact Hrun|].
  apply (StartCapture_output_directory env_ok options_clip world_ready world_capturing
           "out" "clip" eq_refl Hrun).
  - reflexivity.
  - discriminate.
  - intros [p [E|E]]; destruct p as [|a [|b [|c [|d p]]]]; discriminate.
  - left. split; [reflexivity|discriminate].
  - reflexivity.
  - reflexivity.
Defined.

(** ** The consumer loop as a whole *)

Lemma writer_frames_app (a b : list SinkCall) :
  writer_frames (a ++ b) = (writer_frames a ++ writer_frames b)%list.
Proof.
  induction a as [|[f|f] a IH]; cbn [writer_frames app]; [reflexivity|exact IH|].
  now rewrite IH.
Qed.

Lemma preview_frames_app (a b : list SinkCall) :
  preview_frames (a ++ b) = (preview_frames a ++ preview_frames b)%list.
Proof.
  induction a as [|[f|f] a IH]; cbn [preview_frames app]; [reflexivity| |exact IH].
  now rewrite IH.
Qed.

(** The invocations of one pass: at most one of each sink, the preview
    renderer first; the writer is invoked when it exists, unless the
    preview renderer has thrown. *)
Lemma fan_out_cases sinks e load f :
  exists (p wr : bool),
    fst (fan_out sinks e load f) =
      ((if p then [PreviewCall f] else []) ++ (if wr then [WriterCall f] else []))%list /\
    (m_writer e = None -> wr = false) /\
    (snd (fan_out sinks e load f) = None -> m_writer e <> None -> wr = true).
Proof.
  unfold fan_out.
  destruct (preview_due e load); cbn [fst snd].
  - destruct (monitor_HandleFrame sinks f); cbn [fst snd].
    + exists true, false. repeat split; [discriminate].
    + destruct (m_writer e); cbn [fst snd].
      * exists true, true. repeat split. discriminate.
      * exists true, false. repeat split. congruence.
  - destruct (m_writer e); cbn [fst snd].
    + exists false, true. repeat split. discriminate.
    + exists false, false. repeat split. congruence.
Qed.

(** X16. Delivery to the sinks.  In every run of the loop, whatever the
    sinks do, the frames handed to the writer are an initial part of the
    frames taken out of the queue, in the same order and without
    repetition or gap, and the frames handed to the preview renderer are a
    selection of them in the same order.  When the writer exists and no
    sink throws, the writer is handed every frame taken out of the
    queue. *)
Theorem writer_receives_in_order (sinks : Sinks) (e : Engine) (obs : list Observation) :
  writer_frames (fst (CaptureThread sinks e obs)) `prefix_of` dequeued obs /\
  preview_frames (fst (CaptureThread sinks e obs)) `sublist_of` dequeued obs /\
  (m_writer e <> None ->
   (forall f, monitor_HandleFrame sinks f = None) ->
   (forall f, writer_HandleFrame sinks f = None) ->
   writer_frames (fst (CaptureThread sinks e obs)) = dequeued obs).
Proof.
  assert (Hnone : m_writer e = None ->
                  forall obs, writer_frames (fst (CaptureThread sinks e obs)) = []).
  { intros Hw. induction obs0 as [|o rest IH]; cbn [CaptureThread fst]; [reflexivity|].
    destruct (negb (State_eqb (seen_state o) Capturing)); [reflexivity|].
    destruct (got o) as [f|]; [|exact IH].
    destruct (data f); [|reflexivity].
    destruct (fan_out_cases sinks e (m_load o) f) as (p & wr & Hfo & Hwr & _).
    rewrite (Hwr Hw) in Hfo.
    destruct (snd (fan_out sinks e (m_load o) f)); cbn [fst];
      rewrite ?writer_frames_app, ?IH, Hfo; destruct p; reflexivity. }
  induction obs as [|o rest (IHw & IHp & IHe)]; cbn [CaptureThread dequeued fst].
  { split; [reflexivity|]. split; [constructor|reflexivity]. }
  destruct (negb (State_eqb (seen_state o) Capturing)).
  { split; [reflexivity|]. split; [constructor|reflexivity]. }
  destruct (got o) as [f|]; [|now repeat split].
  destruct (data f).
  2:{ split; [reflexivity|]. split; [constructor|reflexivity]. }
  destruct (fan_out_cases sinks e (m_load o) f) as (p & wr & Hfo & Hwr0 & Hwr1).
  destruct (snd (fan_out sinks e (m_load o) f)) as [x|] eqn:Ex; cbn [fst].
  - rewrite Hfo. split; [|split].
    + destruct p, wr; cbn; try apply prefix_nil; apply prefix_cons, prefix_nil.
    + destruct p, wr; cbn; try apply sublist_nil_l; apply sublist_skip, sublist_nil_l.
    + intros Hw Hm Hwx. exfalso. unfold fan_out in Ex.
      rewrite Hm in Ex. destruct (preview_due e (m_load o)); cbn in Ex;
        destruct (m_writer e); cbn in Ex; try congruence; rewrite Hwx in Ex; discriminate.
  - rewrite writer_frames_app, preview_frames_app, Hfo. split; [|split].
    + assert (Hcase : m_writer e = None \/ m_writer e <> None)
        by (destruct (m_writer e); [right; discriminate|left; reflexivity]).
      destruct Hcase as [Ew|Ew].
      * rewrite (Hwr0 Ew), (Hnone Ew rest).
        destruct p; cbn; apply prefix_nil.
      * rewrite (Hwr1 eq_refl Ew).
        destruct p; cbn; now apply prefix_cons.
    + destruct p, wr; cbn; first [now apply sublist_skip | now apply sublist_cons].
    + intros Hw Hm Hwx. rewrite (Hwr1 eq_refl Hw), (IHe Hw Hm Hwx).
      destruct p; reflexivity.
Qed.

Lemma writer_receives_in_order_witness :
  writer_frames (fst (CaptureThread sinks_ok engine_both_sinks two_frames))
  = [frame1; frame2].
Proof.
  rewrite (proj2 (proj2 (writer_receives_in_order sinks_ok engine_both_sinks two_frames))).
  - reflexivity.
  - vm_compute. discriminate.
  - reflexivity.
  - reflexivity.
Defined.

(** X17. Once the loop has been left, by the state test, the sentinel or
    an exception, nothing observed afterwards leads to a sink invocation:
    the run is the same whatever follows. *)
Theorem CaptureThread_exit_is_final (sinks : Sinks) (e : Engine)
    (pre more : list Observation) :
  snd (CaptureThread sinks e pre) <> StillRunning ->
  CaptureThread sinks e (pre ++ more) = CaptureThread sinks e pre.
Proof.
  intros H. rewrite CaptureThread_app.
  destruct (snd (CaptureThread sinks e pre)); try reflexivity. contradiction.
Qed.

Lemma CaptureThread_exit_is_final_witness :
  CaptureThread sinks_ok engine_both_sinks
    ([mkObservation Stopping (Some frame1) 0] ++ two_frames)
  = ([], StateLeftCapturing).
Proof.
  rewrite (CaptureThread_exit_is_final sinks_ok engine_both_sinks
             [mkObservation Stopping (Some frame1) 0] two_frames).
  - reflexivity.
  - vm_compute. discriminate.
Defined.

(** X18. A [Get] that returns [false] leaves no trace: the loop tests the
    state again and goes on, and the run is the one without that wake. *)
Theorem CaptureThread_skips_empty_wake (sinks : Sinks) (e : Engine)
    (pre rest : list Observation) (load : Z) :
  CaptureThread sinks e (pre ++ mkObservation Capturing None load :: rest) =
  CaptureThread sinks e (pre ++ rest).
Proof.
  rewrite !CaptureThread_app. reflexivity.
Qed.

(** X19. Bounds after normalisation, and an edge of the preview throttle.
    The normalised queue capacity is at least 1 and the digit count at
    least 0.  In a session that stores the normalised options, a requested
    capacity of 1 means that the preview renderer is never due at a load
    that is not negative: with a queue of one slot no frame is
    previewed. *)
Theorem Normalize_bounds (env : Env) (o : WindvCaptureOptions) :
  1 <= queueSize (Normalize env o) /\
  0 <= numericDigits (Normalize env o) /\
  (forall e load,
     m_options e = Normalize env o -> queue_size o = 1 -> 0 <= load ->
     preview_due e load = false).
Proof.
  split; [pose proof (Normalize_queueSize_positive env o); lia|]. split.
  - unfold Normalize. cbn [numericDigits].
    destruct (Z.gtb_spec (numeric_suffix_digits o) 0); lia.
  - intros e load Ho Hq Hl. destruct (preview_due e load) eqn:Hdue; [|reflexivity].
    apply preview_due_spec in Hdue as (_ & _ & Hlt). rewrite Ho in Hlt.
    unfold Normalize in Hlt. cbn [queueSize] in Hlt. rewrite Hq in Hlt.
    change (Z.quot (if (1 >? 0)%Z then 1 else 120) 2) with 0 in Hlt. lia.
Qed.

Lemma Normalize_bounds_witness :
  preview_due (set_options (Normalize env_ok (mkOptions None None None 0 1 1 1))
                 engine_both_sinks) 0 = false.
Proof.
  apply (proj2 (proj2 (Normalize_bounds env_ok (mkOptions None None None 0 1 1 1)))).
  - reflexivity.
  - reflexivity.
  - lia.
Defined.

(** ** The exported entry points *)

Lemma on_engine_spec {A} (method : M World A) (p : Process) :
  on_engine method p =
  match method (world_of p) with
  | Ret a w' => Ret a (to_process w')
  | Throw x w' => Throw x (to_process w')
  | Relock w' => Relock (to_process w')
  end.
Proof.
  unfold on_engine, world_of, engine_of, EnsureEngine.
  destruct (g_engine p); reflexivity.
Qed.

Lemma at_rest_mutex p : process_at_rest p -> m_mutex (eng (world_of p)) = false.
Proof.
  unfold process_at_rest, world_of, engine_of, EnsureEngine.
  destruct (g_engine p); [intros H; exact H|reflexivity].
Qed.

Lemma world_of_to_process w : world_of (to_process w) = w.
Proof. destruct w. reflexivity. Qed.

(** X20. [WindvBridge_SetDevice] with a null name returns -1 and records
    that the name must not be empty; the engine is otherwise as it was
    (or as constructed, when this is the first call), and
    [WindvBridge_LastError] then yields that message and changes
    nothing. *)
Theorem SetDevice_null_name (env : Env) (p : Process) :
  process_at_rest p ->
  exists p',
    WindvBridge_SetDevice env None p = Ret (-1) p' /\
    g_engine p' =
      Some (set_lastError "Device-Name darf nicht leer sein." (engine_of p)) /\
    p_disk p' = p_disk p /\
    WindvBridge_LastError p' = Ret "Device-Name darf nicht leer sein." p'.
Proof.
  intros Hrest. pose proof (at_rest_mutex p Hrest) as Hm.
  unfold WindvBridge_SetDevice, bind. rewrite on_engine_spec.
  unfold ReportExternalError. rewrite SetError_spec, Hm.
  eexists. split; [reflexivity|]. split; [reflexivity|]. split; [reflexivity|].
  unfold WindvBridge_LastError. rewrite on_engine_spec, world_of_to_process. reflexivity.
Qed.

Lemma SetDevice_null_name_witness :
  exists p',
    WindvBridge_SetDevice env_ok None (mkProcess None ∅ 0 []) = Ret (-1) p' /\
    WindvBridge_LastError p' = Ret "Device-Name darf nicht leer sein." p'.
Proof.
  destruct (SetDevice_null_name env_ok (mkProcess None ∅ 0 []) I)
    as (p' & H1 & _ & _ & H2).
  exists p'. now split.
Defined.

(** X21. After [WindvBridge_StopCapture], [WindvBridge_IsCapturing]
    answers 0: on a process whose engine is not inside a call, the stop
    returns, the status query that follows returns 0 and changes nothing,
    and the engine is again not inside a call. *)
Theorem StopCapture_then_IsCapturing (p : Process) :
  process_at_rest p ->
  exists p1,
    WindvBridge_StopCapture p = Ret tt p1 /\
    WindvBridge_IsCapturing p1 = Ret 0 p1 /\
    process_at_rest p1.
Proof.
  intros Hrest. pose proof (at_rest_mutex p Hrest) as Hm.
  unfold WindvBridge_StopCapture. rewrite on_engine_spec, (StopCapture_spec _ Hm).
  assert (Hgo : forall w', m_state (eng w') = Idle -> m_mutex (eng w') = false ->
    WindvBridge_IsCapturing (to_process w') = Ret 0 (to_process w') /\
    process_at_rest (to_process w')).
  { intros w' Hs Hm'. split; [|exact Hm'].
    unfold WindvBridge_IsCapturing, bind. rewrite on_engine_spec, world_of_to_process.
    unfold gets, IsCapturing. rewrite Hs. reflexivity. }
  destruct (m_state (eng (world_of p))) eqn:Es; eexists; (split; [reflexivity|]);
    apply Hgo; try reflexivity; assumption.
Qed.

Lemma StopCapture_then_IsCapturing_witness :
  exists p1,
    WindvBridge_StopCapture (to_process world_capturing) = Ret tt p1 /\
    WindvBridge_IsCapturing p1 = Ret 0 p1.
Proof.
  destruct (StopCapture_then_IsCapturing (to_process world_capturing))
    as (p1 & H1 & H2 & _).
  - reflexivity.
  - exists p1. now split.
Defined.

(** X22. [WindvBridge_StartCapture] without a configured device.  On a
    process whose engine is not inside a call and has no device name (a
    fresh process in particular), a start with any options returns -1;
    the last error says that no device is configured; the status query
    answers as it would have before; the file system is untouched. *)
Theorem StartCapture_without_device (env : Env) (o : WindvCaptureOptions) (p : Process) :
  process_at_rest p ->
  m_deviceAnsi (engine_of p) = "" ->
  exists p',
    WindvBridge_StartCapture env (Some o) p = Ret (-1) p' /\
    WindvBridge_LastError p' = Ret "Kein DirectShow-Gerät konfiguriert." p' /\
    WindvBridge_IsCapturing p' =
      Ret (if IsCapturing (engine_of p) then 1 else 0) p' /\
    p_disk p' = p_disk p /\ p_created p' = p_created p.
Proof.
  intros Hrest Hdev. pose proof (at_rest_mutex p Hrest) as Hm.
  unfold WindvBridge_StartCapture, bind. rewrite on_engine_spec.
  assert (Hrun : StartCapture env o (world_of p) =
                 Ret false (on_eng (set_lastError "Kein DirectShow-Gerät konfiguriert.")
                              (world_of p))).
  { unfold StartCapture, bind, gets.
    change (m_deviceAnsi (eng (world_of p))) with (m_deviceAnsi (engine_of p)).
    rewrite Hdev. cbn [IsEmpty]. rewrite SetError_spec, Hm. reflexivity. }
  rewrite Hrun. eexists. split; [reflexivity|].
  split; [unfold WindvBridge_LastError; rewrite on_engine_spec, world_of_to_process;
          reflexivity|].
  split; [|split; reflexivity].
  unfold WindvBridge_IsCapturing, bind. rewrite on_engine_spec, world_of_to_process.
  reflexivity.
Qed.

Lemma StartCapture_without_device_witness :
  exists p',
    WindvBridge_StartCapture env_ok (Some options_clip) (mkProcess None ∅ 0 [])
      = Ret (-1) p' /\
    WindvBridge_LastError p' = Ret "Kein DirectShow-Gerät konfiguriert." p' /\
    WindvBridge_IsCapturing p' = Ret 0 p'.
Proof.
  destruct (StartCapture_without_device env_ok options_clip (mkProcess None ∅ 0 []) I eq_refl)
    as (p' & H1 & H2 & H3 & _).
  exists p'. repeat split; assumption.
Defined.

(** X23. An empty device name is taken.  [SetDevice] on an idle engine
    with COM initialised or available accepts the empty name, when its
    ANSI conversion is empty too, and reports success; every
    [StartCapture] that follows is then refused for want of a device,
    before anything else is done. *)
Theorem SetDevice_accepts_empty_name (env : Env) (w : World) :
  m_mutex (eng w) = false ->
  m_state (eng w) = Idle ->
  m_comInitialized (eng w) = true \/ com_available env ->
  WideCharToMultiByte env "" = "" ->
  exists w1,
    SetDevice env "" w = Ret true w1 /\
    forall env' o,
      StartCapture env' o w1 =
        Ret false (on_eng (set_lastError "Kein DirectShow-Gerät konfiguriert.") w1).
Proof.
  intros Hm Hs Hcom Hconv. rewrite (SetDevice_spec env "" w Hm Hcom), Hs.
  eexists. split; [reflexivity|]. intros env' o.
  unfold StartCapture, bind, gets. cbn [eng on_eng m_deviceAnsi set_device].
  rewrite Hconv. cbn [IsEmpty]. rewrite SetError_spec.
  cbn [eng on_eng m_mutex set_device set_comInitialized]. rewrite Hm. reflexivity.
Qed.

Lemma SetDevice_accepts_empty_name_witness :
  exists w1,
    SetDevice env_ok "" world_new = Ret true w1 /\
    StartCapture env_ok options_clip w1 =
      Ret false (on_eng (set_lastError "Kein DirectShow-Gerät konfiguriert.") w1).
Proof.
  destruct (SetDevice_accepts_empty_name env_ok world_new eq_refl eq_refl)
    as (w1 & H1 & H2).
  - right. left. simpl. lia.
  - reflexivity.
  - exists w1. split; [exact H1|apply H2].
Defined.
